(** * SRMS: student record management system (srms.c)

    A shallow embedding of the record codec, the derived-field calculator,
    the student and credential stores, the query features and the role
    menus of [srms.c], with the properties of its specification (C1 to
    C10) and further properties read off the code (X1 to X30): round trips
    of the two stores, what each role can change, authentication after
    changes of the credential file, backup and restore, and the behaviour
    at the edges (missing fields, end of input, full buffers).

    Modelling conventions.
    - [float] is IEEE-754 binary32, every operation rounded to nearest-even
      and evaluated in single precision (FLT_EVAL_METHOD = 0); values are
      [spec_float] and the operations those of [SpecFloat] at precision 24.
    - [int] is a 32-bit two's complement integer held in [Z].
    - A C string is a [list ascii] without the terminating NUL.
    - The file system holds the five files the program names; a file is
      absent or has a byte content, and may refuse to be opened for writing.
    - The terminal is a byte stream read by [scanf], [fgets] and [getchar],
      and the text the program prints. *)

From Stdlib Require Import Ascii String.
From Stdlib Require Import ZArith List Bool Lia.
From Stdlib Require Import Floats.SpecFloat.
From Stdlib Require Import Sorting.Permutation.
Import ListNotations.

Set Implicit Arguments.

(** ** C strings *)

Definition cstr := list ascii.

Definition lit (s : string) : cstr := list_ascii_of_string s.

Definition cstr_eqb (a b : cstr) : bool :=
  if list_eq_dec ascii_dec a b then true else false.

(** ** Single-precision floats *)

Module F32.

Definition prec : Z := 24.
Definition emax : Z := 128.

Definition f32 := spec_float.

Definition add : f32 -> f32 -> f32 := SFadd prec emax.
Definition sub : f32 -> f32 -> f32 := SFsub prec emax.
Definition mul : f32 -> f32 -> f32 := SFmul prec emax.
Definition div : f32 -> f32 -> f32 := SFdiv prec emax.

(** The C comparisons; each is false as soon as an operand is a NaN. *)
Definition ltb : f32 -> f32 -> bool := SFltb.
Definition leb : f32 -> f32 -> bool := SFleb.
Definition gtb (x y : f32) : bool := SFltb y x.
Definition geb (x y : f32) : bool := SFleb y x.
Definition eqb : f32 -> f32 -> bool := SFeqb.

(** Conversion of an integer, as in [(float)n] and in the literals
    [90.0f], [100.0f], ... *)
Definition of_Z (z : Z) : f32 := binary_normalize prec emax z 0 false.

(** The single nearest to [k/100]: the value of a literal with two
    decimals, such as [89.99f]. *)
Definition of_centi (k : Z) : f32 := div (of_Z k) (of_Z 100).

Definition zero : f32 := S754_zero false.

Definition is_nan (x : f32) : bool :=
  match x with S754_nan => true | _ => false end.

Definition is_finite (x : f32) : bool :=
  match x with S754_zero _ | S754_finite _ _ _ => true | _ => false end.

Definition wf (x : f32) : bool := valid_binary prec emax x.

End F32.

Abbreviation f32 := F32.f32.

(** ** Configuration *)

Definition MAX_NAME : nat := 100.
Definition MAX_USER : nat := 50.
Definition MAX_ROLE : nat := 16.
Definition SUBJECTS : nat := 3.

Definition subjectNames : list cstr := [lit "Math"; lit "Science"; lit "English"].

(** ** Types *)

Record Student := mkStudent {
  roll : Z;
  name : cstr;
  marks : list f32;
  total : f32;
  percentage : f32;
  grade : cstr
}.

(** ** Student scoring and validation *)

Definition mark_at (s : Student) (i : nat) : f32 := nth i (marks s) F32.zero.

Definition grade_of (p : f32) : cstr :=
  if F32.geb p (F32.of_Z 90) then lit "A+"
  else if F32.geb p (F32.of_Z 80) then lit "A"
  else if F32.geb p (F32.of_Z 70) then lit "B"
  else if F32.geb p (F32.of_Z 60) then lit "C"
  else if F32.geb p (F32.of_Z 50) then lit "D"
  else lit "F".

Definition calculate_student (s : Student) : Student :=
  let total' :=
    fold_left (fun t i => F32.add t (mark_at s i)) (seq 0 SUBJECTS) F32.zero in
  let percentage' :=
    F32.mul (F32.div total' (F32.mul (F32.of_Z 100) (F32.of_Z (Z.of_nat SUBJECTS))))
            (F32.of_Z 100) in
  {| roll := roll s; name := name s; marks := marks s;
     total := total'; percentage := percentage';
     grade := grade_of percentage' |}.

Definition valid_name (n : cstr) : bool :=
  match n with [] => false | _ => true end.

Definition valid_marks (mark : f32) : bool :=
  F32.geb mark F32.zero && F32.leb mark (F32.of_Z 100).


(** ** Characters ([ctype.h], "C" locale) *)

Definition code (c : ascii) : Z := Z.of_N (N_of_ascii c).
Definition chr (z : Z) : ascii := ascii_of_N (Z.to_N z).

Definition NL : ascii := chr 10.
Definition NUL : ascii := chr 0.

Definition isdigit (c : ascii) : bool := (48 <=? code c)%Z && (code c <=? 57)%Z.

Definition isspace (c : ascii) : bool :=
  (code c =? 32)%Z || ((9 <=? code c)%Z && (code c <=? 13)%Z).

Definition tolower (c : ascii) : ascii :=
  if (65 <=? code c)%Z && (code c <=? 90)%Z then chr (code c + 32) else c.

Definition toupper (c : ascii) : ascii :=
  if (97 <=? code c)%Z && (code c <=? 122)%Z then chr (code c - 32) else c.

Definition digit_val (c : ascii) : Z := (code c - 48)%Z.
Definition digit_chr (d : Z) : ascii := chr (48 + d).

(** A buffer read as a C string stops at its first NUL. *)
Fixpoint until_nul (s : cstr) : cstr :=
  match s with
  | [] => []
  | c :: r => if Ascii.eqb c NUL then [] else c :: until_nul r
  end.

Definition no_nul (s : cstr) : Prop := ~ In NUL s.

(** ** 32-bit integers *)

Definition INT_MIN : Z := (- 2 ^ 31)%Z.
Definition INT_MAX : Z := (2 ^ 31 - 1)%Z.
Definition LONG_MIN : Z := (- 2 ^ 63)%Z.
Definition LONG_MAX : Z := (2 ^ 63 - 1)%Z.

Definition is_int (z : Z) : Prop := (INT_MIN <= z <= INT_MAX)%Z.

(** Conversion to [int]: reduction modulo 2^32 into the signed range. *)
Definition to_int (z : Z) : Z := ((z + 2 ^ 31) mod 2 ^ 32 - 2 ^ 31)%Z.

(** ** Formatted output ([printf] conversions) *)

(** Decimal digits of a non-negative integer, most significant first;
    [fuel] bounds the number of digits after the first. *)
Fixpoint dec_digits (fuel : nat) (n : Z) (acc : cstr) : cstr :=
  let acc' := digit_chr (n mod 10) :: acc in
  match fuel with
  | O => acc'
  | S f => if (n / 10 =? 0)%Z then acc' else dec_digits f (n / 10) acc'
  end.

(** [%u] of a non-negative integer. *)
Definition fmt_u (n : Z) : cstr := dec_digits (Z.to_nat (Z.log2 n)) n [].

(** [%d] *)
Definition fmt_d (z : Z) : cstr :=
  if (z <? 0)%Z then lit "-" ++ fmt_u (- z) else fmt_u z.

(** Quotient of [num] by [den > 0] rounded to nearest, ties to even. *)
Definition round_half_even (num den : Z) : Z :=
  let q := (num / den)%Z in
  let r := (num mod den)%Z in
  match (2 * r ?= den)%Z with
  | Lt => q
  | Gt => (q + 1)%Z
  | Eq => if Z.even q then q else (q + 1)%Z
  end.

(** The magnitude [m * 2^e] in hundredths, rounded as [printf] does (the
    exact binary value, to nearest, ties to even). *)
Definition centis (m : positive) (e : Z) : Z :=
  if (0 <=? e)%Z then (Zpos m * 2 ^ e * 100)%Z
  else round_half_even (Zpos m * 100) (2 ^ (- e)).

Definition fmt_fixed2 (neg : bool) (n : Z) : cstr :=
  (if neg then lit "-" else []) ++ fmt_u (n / 100)
  ++ lit "." ++ [digit_chr (n mod 100 / 10); digit_chr (n mod 10)].

(** [%.2f] of a [float] argument (promoted to [double] without change of
    value). *)
Definition fmt_2f (x : f32) : cstr :=
  match x with
  | S754_zero s => fmt_fixed2 s 0
  | S754_finite s m e => fmt_fixed2 s (centis m e)
  | S754_infinity s => if s then lit "-inf" else lit "inf"
  | S754_nan => lit "nan"
  end.

(** Left-justified field of minimal width [w], as in [%-6d] or [%-20s]. *)
Definition pad_right (w : nat) (s : cstr) : cstr :=
  s ++ repeat (chr 32) (w - length s).

(** ** Numeric input ([atoi], [atof], and the [scanf] conversions) *)

Fixpoint skip_space (s : cstr) : cstr :=
  match s with
  | c :: r => if isspace c then skip_space r else s
  | [] => []
  end.

(** Longest prefix of decimal digits: its value on top of [acc], the
    number of digits read, and the remaining text. *)
Fixpoint span_digits (s : cstr) (acc : Z) (n : nat) : Z * nat * cstr :=
  match s with
  | c :: r =>
      if isdigit c then span_digits r (acc * 10 + digit_val c)%Z (S n)
      else (acc, n, s)
  | [] => (acc, n, [])
  end.

(** An optional sign: whether it is a minus, and the text after it. *)
Definition take_sign (s : cstr) : bool * cstr :=
  match s with
  | c :: r =>
      if Ascii.eqb c (chr 45) then (true, r)
      else if Ascii.eqb c (chr 43) then (false, r)
      else (false, s)
  | [] => (false, [])
  end.

(** [strtol] in base 10: the value, saturated to [long], and the rest of
    the text; [None] when no digit is found. *)
Definition strtol (s : cstr) : option (Z * cstr) :=
  let '(neg, s1) := take_sign (skip_space s) in
  let '(v, n, rest) := span_digits s1 0 0 in
  match n with
  | O => None
  | S _ =>
      let v' := if neg then (- v)%Z else v in
      Some (Z.max LONG_MIN (Z.min LONG_MAX v'), rest)
  end.

(** [atoi(s)] is [(int) strtol(s, NULL, 10)]. *)
Definition atoi (s : cstr) : Z :=
  match strtol s with
  | Some (v, _) => to_int v
  | None => 0%Z
  end.

(** Double precision, for the result of [atof]. *)
Module F64.
Definition prec : Z := 53.
Definition emax : Z := 1024.
Definition f64 := spec_float.
End F64.

(** The float of precision [prec] nearest to [num / den]. *)
Definition fp_of_ratio (prec emax : Z) (neg : bool) (num den : positive) : spec_float :=
  SFdiv prec emax (S754_finite neg num 0) (S754_finite false den 0).

(** [(float) d] for a double [d]. *)
Definition f32_of_f64 (d : F64.f64) : f32 :=
  match d with
  | S754_finite s m e => binary_round F32.prec F32.emax s m e
  | _ => d
  end.

(** Case-insensitive test that [p] (given in lower case) starts [s];
    returns the text after it. *)
Fixpoint strip_prefix_ci (p s : cstr) : option cstr :=
  match p, s with
  | [], _ => Some s
  | a :: p', c :: s' =>
      if Ascii.eqb a (tolower c) then strip_prefix_ci p' s' else None
  | _ :: _, [] => None
  end.

(** The decimal exponent part [e[+-]ddd], when present and well formed. *)
Definition take_exponent (s : cstr) : Z * cstr :=
  match s with
  | c :: r =>
      if Ascii.eqb (tolower c) (chr 101) then
        let '(neg, r1) := take_sign r in
        let '(v, n, rest) := span_digits r1 0 0 in
        match n with
        | O => (0%Z, s)
        | S _ => ((if neg then - v else v)%Z, rest)
        end
      else (0%Z, s)
  | [] => (0%Z, [])
  end.

(** [strtod] and [strtof] on decimal text: optional blanks and sign, then
    [inf], [infinity], [nan], or digits with an optional fraction and
    exponent; the correctly rounded value at the given precision and the
    rest of the text, [None] when nothing converts.  Hexadecimal forms
    are read as their leading zero. *)
Definition strtofp (prec emax : Z) (s : cstr) : option (spec_float * cstr) :=
  let '(neg, s1) := take_sign (skip_space s) in
  match strip_prefix_ci (lit "infinity") s1 with
  | Some rest => Some (S754_infinity neg, rest)
  | None =>
  match strip_prefix_ci (lit "inf") s1 with
  | Some rest => Some (S754_infinity neg, rest)
  | None =>
  match strip_prefix_ci (lit "nan") s1 with
  | Some rest => Some (S754_nan, rest)
  | None =>
      let '(ip, ni, s2) := span_digits s1 0 0 in
      let '(v, nf, s3) :=
        match s2 with
        | c :: r => if Ascii.eqb c (chr 46) then span_digits r ip 0 else (ip, O, s2)
        | [] => (ip, O, [])
        end in
      match (ni + nf)%nat with
      | O => None
      | S _ =>
          let '(ex, rest) := take_exponent s3 in
          let e10 := (ex - Z.of_nat nf)%Z in
          let d :=
            match v with
            | Zpos p =>
                if (0 <=? e10)%Z
                then fp_of_ratio prec emax neg (p * Z.to_pos (10 ^ e10)) 1
                else fp_of_ratio prec emax neg p (Z.to_pos (10 ^ (- e10)))
            | _ => S754_zero neg
            end in
          Some (d, rest)
      end
  end end end.

Definition strtod : cstr -> option (F64.f64 * cstr) := strtofp F64.prec F64.emax.
Definition strtof : cstr -> option (f32 * cstr) := strtofp F32.prec F32.emax.

(** [(float) atof(s)] *)
Definition atof_f (s : cstr) : f32 :=
  match strtod s with
  | Some (d, _) => f32_of_f64 d
  | None => F32.zero
  end.

(** ** Record codec

    Line format: [roll|name|m1|m2|m3\n]. *)

Definition BAR : ascii := chr 124.

(** The bytes [write_student_to_file] sends to the stream. *)
Definition write_student_to_file (s : Student) : cstr :=
  fmt_d (roll s) ++ lit "|" ++ name s
  ++ concat (map (fun i => lit "|" ++ fmt_2f (mark_at s i)) (seq 0 SUBJECTS))
  ++ [NL].

(** [strtok] with a one-character delimiter set.  The first call skips
    leading delimiters and cuts the token at the next one; the second
    component is the position saved for the following call. *)
Fixpoint skip_delims (d : ascii) (s : cstr) : cstr :=
  match s with
  | c :: r => if Ascii.eqb c d then skip_delims d r else s
  | [] => []
  end.

Fixpoint span_token (d : ascii) (s : cstr) : cstr * cstr :=
  match s with
  | [] => ([], [])
  | c :: r =>
      if Ascii.eqb c d then ([], r)
      else let '(t, rest) := span_token d r in (c :: t, rest)
  end.

Definition strtok (d : ascii) (s : cstr) : option (cstr * cstr) :=
  match skip_delims d s with
  | [] => None
  | s' => Some (span_token d s')
  end.

(** Removal of one trailing newline. *)
Fixpoint chomp (s : cstr) : cstr :=
  match s with
  | [] => []
  | [c] => if Ascii.eqb c NL then [] else [c]
  | c :: r => c :: chomp r
  end.

(** The loop over the mark fields: a missing token leaves [0.0f]. *)
Fixpoint parse_marks (n : nat) (rest : cstr) : list f32 :=
  match n with
  | O => []
  | S n' =>
      match strtok BAR rest with
      | Some (tok, rest') => atof_f tok :: parse_marks n' rest'
      | None => F32.zero :: parse_marks n' []
      end
  end.

Definition parse_line_to_student (line : cstr) : option Student :=
  let copy := chomp line in
  match strtok BAR copy with
  | None => None
  | Some (tok, r1) =>
      let roll' := atoi tok in
      match strtok BAR r1 with
      | None => None
      | Some (tok', r2) =>
          let name' := firstn (MAX_NAME - 1) tok' in
          Some (calculate_student
                  {| roll := roll'; name := name';
                     marks := parse_marks SUBJECTS r2;
                     total := F32.zero; percentage := F32.zero; grade := [] |})
      end
  end.

(** ** Files *)

Inductive path : Set :=
  | STUDENT_FILE | CREDENTIAL_FILE | BACKUP_FILE | REPORT_FILE | CSV_FILE.

Definition path_eqb (p q : path) : bool :=
  match p, q with
  | STUDENT_FILE, STUDENT_FILE | CREDENTIAL_FILE, CREDENTIAL_FILE
  | BACKUP_FILE, BACKUP_FILE | REPORT_FILE, REPORT_FILE
  | CSV_FILE, CSV_FILE => true
  | _, _ => false
  end.

Definition path_name (p : path) : cstr :=
  match p with
  | STUDENT_FILE => lit "students.txt"
  | CREDENTIAL_FILE => lit "credentials.txt"
  | BACKUP_FILE => lit "students_backup.txt"
  | REPORT_FILE => lit "report.txt"
  | CSV_FILE => lit "students.csv"
  end.

(** A file system: the content of each file that exists, and whether the
    file can be opened for writing. *)
Record filesys := mkFs {
  data : path -> option cstr;
  writable : path -> bool
}.

Definition fs_put (fs : filesys) (p : path) (c : cstr) : filesys :=
  {| data := fun q => if path_eqb q p then Some c else data fs q;
     writable := writable fs |}.

(** [fopen(p, "r")]: the content to read, when the file exists. *)
Definition fopen_r (fs : filesys) (p : path) : option cstr := data fs p.

(** [fopen(p, "w")]: the file is created or truncated. *)
Definition fopen_w (fs : filesys) (p : path) : option filesys :=
  if writable fs p then Some (fs_put fs p []) else None.

(** [fopen(p, "a")]: the file is created when absent. *)
Definition fopen_a (fs : filesys) (p : path) : option filesys :=
  if writable fs p then
    Some (match data fs p with Some _ => fs | None => fs_put fs p [] end)
  else None.

(** Output at the end of a file opened by [fopen_w] or [fopen_a]. *)
Definition fs_write (fs : filesys) (p : path) (text : cstr) : filesys :=
  match data fs p with
  | Some c => fs_put fs p (c ++ text)
  | None => fs
  end.

(** [fgets(buf, n, stream)]: at most [n - 1] bytes, up to and including
    the first newline; [None] at end of file. *)
Fixpoint fgets_aux (k : nat) (s : cstr) : cstr * cstr :=
  match k, s with
  | O, _ => ([], s)
  | _, [] => ([], [])
  | S k', c :: r =>
      if Ascii.eqb c NL then ([c], r)
      else let '(l, rest) := fgets_aux k' r in (c :: l, rest)
  end.

Definition fgets (n : nat) (s : cstr) : option (cstr * cstr) :=
  match s with
  | [] => None
  | _ => Some (fgets_aux (n - 1) s)
  end.

(** ** Student store *)

(** The [fgets]/[parse_line_to_student] loop of [read_all_students] and
    [roll_exists]; every pass consumes at least one byte, so a fuel equal
    to the length of the stream is never exhausted. *)
Fixpoint read_students_loop (fuel : nat) (stream : cstr) : list Student :=
  match fuel with
  | O => []
  | S fuel' =>
      match fgets 512 stream with
      | None => []
      | Some (line, rest) =>
          match parse_line_to_student (until_nul line) with
          | Some s => s :: read_students_loop fuel' rest
          | None => read_students_loop fuel' rest
          end
      end
  end.

(** [read_all_students]: [None] is the NULL result (file missing, or no
    line decoded: the array is never allocated). *)
Definition read_all_students (fs : filesys) : option (list Student) :=
  match fopen_r fs STUDENT_FILE with
  | None => None
  | Some c =>
      match read_students_loop (length c) c with
      | [] => None
      | arr => Some arr
      end
  end.

Definition roll_exists (fs : filesys) (r : Z) : bool :=
  match fopen_r fs STUDENT_FILE with
  | None => false
  | Some c => existsb (fun s => (roll s =? r)%Z) (read_students_loop (length c) c)
  end.

Definition append_student (fs : filesys) (s : Student) : bool * filesys :=
  match fopen_a fs STUDENT_FILE with
  | None => (false, fs)
  | Some fs' => (true, fs_write fs' STUDENT_FILE (write_student_to_file s))
  end.

Definition overwrite_students (fs : filesys) (arr : list Student) : bool * filesys :=
  match fopen_w fs STUDENT_FILE with
  | None => (false, fs)
  | Some fs' =>
      (true, fold_left (fun f s => fs_write f STUDENT_FILE (write_student_to_file s)) arr fs')
  end.

(** ** XOR transform of a file *)

Definition xor_byte (key c : ascii) : ascii :=
  match key, c with
  | Ascii k0 k1 k2 k3 k4 k5 k6 k7, Ascii c0 c1 c2 c3 c4 c5 c6 c7 =>
      Ascii (xorb c0 k0) (xorb c1 k1) (xorb c2 k2) (xorb c3 k3)
            (xorb c4 k4) (xorb c5 k5) (xorb c6 k6) (xorb c7 k7)
  end.

Definition XOR_BUF : nat := 4096.

(** The read/seek/write loop on a stream opened with ["rb+"]: [content]
    is the whole file and [pos] the offset of the next chunk.  A pass
    that reads nothing ends the loop; otherwise [pos] advances, so the
    fuel [length content] suffices. *)
Fixpoint xor_loop (fuel : nat) (key : ascii) (content : cstr) (pos : nat) : cstr :=
  match fuel with
  | O => content
  | S fuel' =>
      let buf := firstn XOR_BUF (skipn pos content) in
      match buf with
      | [] => content
      | _ =>
          let n := length buf in
          let buf' := map (xor_byte key) buf in
          let content' := firstn pos content ++ buf' ++ skipn (pos + n) content in
          xor_loop fuel' key content' (pos + n)
      end
  end.

Definition xor_file (fs : filesys) (p : path) (key : ascii) : filesys :=
  match data fs p with
  | Some c => if writable fs p then fs_put fs p (xor_loop (length c) key c 0) else fs
  | None => fs
  end.

(** ** Credential store

    Rows are read with [fscanf(fp, "%127s %127s %63s", ...)]. *)

(** A [%Ns] conversion: blanks are skipped, then at most [w] non-blank
    bytes are stored; [None] at end of file. *)
Fixpoint span_word (w : nat) (s : cstr) : cstr * cstr :=
  match w, s with
  | S w', c :: r =>
      if isspace c then ([], s)
      else let '(t, rest) := span_word w' r in (c :: t, rest)
  | _, _ => ([], s)
  end.

Definition scan_s (w : nat) (s : cstr) : option (cstr * cstr) :=
  match skip_space s with
  | [] => None
  | s' => let '(t, rest) := span_word w s' in Some (until_nul t, rest)
  end.

Definition cred_row : Type := cstr * cstr * cstr.

(** One call of [fscanf] that returns 3: the row and the remaining
    stream. *)
Definition fscanf_row (s : cstr) : option (cred_row * cstr) :=
  match scan_s 127 s with
  | None => None
  | Some (u, s1) =>
      match scan_s 127 s1 with
      | None => None
      | Some (p, s2) =>
          match scan_s 63 s2 with
          | None => None
          | Some (r, s3) => Some ((u, p, r), s3)
          end
      end
  end.

(** The loop of [check_credentials]; [Some role] when a row matches. *)
Fixpoint check_loop (fuel : nat) (stream username password : cstr) : option cstr :=
  match fuel with
  | O => None
  | S fuel' =>
      match fscanf_row stream with
      | None => None
      | Some ((user, pass, role), rest) =>
          if cstr_eqb user username && cstr_eqb pass password
          then Some (firstn (MAX_ROLE - 1) role)
          else check_loop fuel' rest username password
      end
  end.

Definition check_credentials (fs : filesys) (username password : cstr) : option cstr :=
  match fopen_r fs CREDENTIAL_FILE with
  | None => None
  | Some c => check_loop (length c) c username password
  end.

(** [fprintf(fp, "%s %s %s\n", ...)] *)
Definition cred_line (u p r : cstr) : cstr :=
  u ++ lit " " ++ p ++ lit " " ++ r ++ [NL].

Definition add_credential (fs : filesys) (user pass role : cstr) : bool * filesys :=
  match fopen_a fs CREDENTIAL_FILE with
  | None => (false, fs)
  | Some fs' => (true, fs_write fs' CREDENTIAL_FILE (cred_line user pass role))
  end.

Definition CRED_LINES : nat := 1024.
Definition CRED_LINE_SIZE : nat := 256.

(** [snprintf(lines[n], sizeof(lines[n]), "%s %s %s\n", ...)]: the text is
    cut to the size of the buffer less the terminator. *)
Definition snprintf_line (u p r : cstr) : cstr :=
  firstn (CRED_LINE_SIZE - 1) (cred_line u p r).

(** The loop of [reset_password]: the lines kept for rewriting and the
    [found] flag.  [n] is the index of the next line; storing a line past
    the end of [lines] is undefined behaviour, rendered by [None]. *)
Fixpoint reset_loop (fuel : nat) (stream user newpass : cstr) (n : nat)
  : option (list cstr * bool) :=
  match fuel with
  | O => Some ([], false)
  | S fuel' =>
      match fscanf_row stream with
      | None => Some ([], false)
      | Some ((u, p, r), rest) =>
          if (CRED_LINES <=? n)%nat then None
          else
            match reset_loop fuel' rest user newpass (S n) with
            | None => None
            | Some (lines, found) =>
                if cstr_eqb u user
                then Some (snprintf_line u newpass r :: lines, true)
                else Some (snprintf_line u p r :: lines, found)
            end
      end
  end.

(** Rewriting of the credential file from the kept lines. *)
Definition rewrite_credentials (fs : filesys) (lines : list cstr) : bool * filesys :=
  match fopen_w fs CREDENTIAL_FILE with
  | None => (false, fs)
  | Some fs' => (true, fold_left (fun f l => fs_write f CREDENTIAL_FILE l) lines fs')
  end.

(** [reset_password]: the returned flag and the file system; [None] when
    the behaviour is undefined. *)
Definition reset_password (fs : filesys) (user newpass : cstr) : option (bool * filesys) :=
  match fopen_r fs CREDENTIAL_FILE with
  | None => Some (false, fs)
  | Some c =>
      match reset_loop (length c) c user newpass 0 with
      | None => None
      | Some (lines, found) =>
          if found then Some (rewrite_credentials fs lines) else Some (false, fs)
      end
  end.

(** The loop of [remove_credential]; a matching row is skipped without
    using a line. *)
Fixpoint remove_loop (fuel : nat) (stream user : cstr) (n : nat)
  : option (list cstr * bool) :=
  match fuel with
  | O => Some ([], false)
  | S fuel' =>
      match fscanf_row stream with
      | None => Some ([], false)
      | Some ((u, p, r), rest) =>
          if cstr_eqb u user then
            match remove_loop fuel' rest user n with
            | None => None
            | Some (lines, _) => Some (lines, true)
            end
          else if (CRED_LINES <=? n)%nat then None
          else
            match remove_loop fuel' rest user (S n) with
            | None => None
            | Some (lines, found) => Some (snprintf_line u p r :: lines, found)
            end
      end
  end.

Definition remove_credential (fs : filesys) (user : cstr) : option (bool * filesys) :=
  match fopen_r fs CREDENTIAL_FILE with
  | None => Some (false, fs)
  | Some c =>
      match remove_loop (length c) c user 0 with
      | None => None
      | Some (lines, found) =>
          if found then Some (rewrite_credentials fs lines) else Some (false, fs)
      end
  end.

Definition default_credentials : cstr :=
  cred_line (lit "admin") (lit "admin") (lit "ADMIN")
  ++ cred_line (lit "staff") (lit "staff") (lit "STAFF")
  ++ cred_line (lit "guest") (lit "guest") (lit "GUEST")
  ++ cred_line (lit "principal") (lit "principal") (lit "PRINCIPAL")
  ++ cred_line (lit "student") (lit "student") (lit "STUDENT").

Definition ensure_default_credentials (fs : filesys) : filesys :=
  match fopen_r fs CREDENTIAL_FILE with
  | Some _ => fs
  | None =>
      match fopen_w fs CREDENTIAL_FILE with
      | None => fs
      | Some fs' => fs_write fs' CREDENTIAL_FILE default_credentials
      end
  end.

(** The rows the [fscanf] loop of the three functions reads from a
    stream, in order. *)
Fixpoint cred_rows (fuel : nat) (stream : cstr) : list cred_row :=
  match fuel with
  | O => []
  | S fuel' =>
      match fscanf_row stream with
      | None => []
      | Some (row, rest) => row :: cred_rows fuel' rest
      end
  end.

(** The rows of the credential file; none when the file is absent. *)
Definition file_rows (fs : filesys) : list cred_row :=
  match fopen_r fs CREDENTIAL_FILE with
  | None => []
  | Some c => cred_rows (length c) c
  end.

Definition row_user (row : cred_row) : cstr := fst (fst row).
Definition row_pass (row : cred_row) : cstr := snd (fst row).
Definition row_role (row : cred_row) : cstr := snd row.

(** The line of a row, as [fprintf] and an untruncated [snprintf] write
    it. *)
Definition row_line (row : cred_row) : cstr :=
  cred_line (row_user row) (row_pass row) (row_role row).

(** A row whose line fits the line buffer of [reset_password] and
    [remove_credential]. *)
Definition row_fits (row : cred_row) : Prop :=
  (length (row_line row) < CRED_LINE_SIZE)%nat.

(** The line [reset_password] keeps for a row. *)
Definition reset_line (user newpass : cstr) (row : cred_row) : cstr :=
  snprintf_line (row_user row)
    (if cstr_eqb (row_user row) user then newpass else row_pass row)
    (row_role row).

(** A row after a password reset for [user]: the new password in the
    rows of that user, every other row as it is. *)
Definition set_pass (user newpass : cstr) (row : cred_row) : cred_row :=
  if cstr_eqb (row_user row) user
  then (row_user row, newpass, row_role row)
  else row.

(** Whether some row has the user name. *)
Definition has_user (user : cstr) (rows : list cred_row) : bool :=
  existsb (fun row => cstr_eqb (row_user row) user) rows.

(** The rows [remove_credential] keeps. *)
Definition keeps (user : cstr) (row : cred_row) : bool :=
  negb (cstr_eqb (row_user row) user).

(** ** Operations of the credential store, for sequences of calls *)

Inductive cred_op : Type :=
  | Authenticate (username password : cstr)
  | AddCredential (user pass role : cstr)
  | ResetPassword (user newpass : cstr)
  | RemoveCredential (user : cstr).

(** One call; [None] when the call has undefined behaviour. *)
Definition run_cred_op (fs : filesys) (op : cred_op) : option filesys :=
  match op with
  | Authenticate u p => Some fs
  | AddCredential u p r => Some (snd (add_credential fs u p r))
  | ResetPassword u np => option_map snd (reset_password fs u np)
  | RemoveCredential u => option_map snd (remove_credential fs u)
  end.

(** A token of the credential file that fits a [%Ns] conversion of width
    [w]: non-empty, at most [w] bytes, none of them a blank or a NUL. *)
Definition token (w : nat) (t : cstr) : Prop :=
  t <> [] /\ (length t <= w)%nat
  /\ Forall (fun c => isspace c = false /\ c <> NUL) t.

Definition row_wf (row : cred_row) : Prop :=
  token 127 (row_user row) /\ token 127 (row_pass row) /\ token 63 (row_role row).

(** Decision procedures for the conditions above. *)
Definition tokenb (w : nat) (t : cstr) : bool :=
  match t with [] => false | _ => true end
  && (length t <=? w)%nat
  && forallb (fun c => negb (isspace c) && negb (Ascii.eqb c NUL)) t.

Definition row_wfb (row : cred_row) : bool :=
  tokenb 127 (row_user row) && tokenb 127 (row_pass row) && tokenb 63 (row_role row).

Definition row_fitsb (row : cred_row) : bool :=
  (length (row_line row) <? CRED_LINE_SIZE)%nat.

Fixpoint nodupb (l : list cstr) : bool :=
  match l with
  | [] => true
  | x :: r => negb (existsb (cstr_eqb x) r) && nodupb r
  end.

(** The text of a list of rows, one line each. *)
Definition render (rows : list cred_row) : cstr := concat (map row_line rows).

(** The credential file holds exactly the text of [rows] (no file, no
    row). *)
Definition file_holds (fs : filesys) (rows : list cred_row) : Prop :=
  data fs CREDENTIAL_FILE = Some (render rows)
  \/ (data fs CREDENTIAL_FILE = None /\ rows = []).

(** The state the allowed calls keep: a file written row by row, of
    well-formed rows that fit the line buffer, at most 1024 of them, no
    two with the same user name. *)
Definition store_inv (fs : filesys) : Prop :=
  exists rows : list cred_row,
    file_holds fs rows
    /\ Forall row_wf rows /\ Forall row_fits rows
    /\ (length rows <= CRED_LINES)%nat
    /\ NoDup (map row_user rows).

(** The calls under which one row per user name is kept: a new user gets
    a well-formed row under a name that has no row yet, and a new
    password is a token. *)
Definition op_allowed (fs : filesys) (op : cred_op) : Prop :=
  match op with
  | AddCredential u p r =>
      row_wf (u, p, r) /\ row_fits (u, p, r)
      /\ has_user u (file_rows fs) = false
      /\ (length (file_rows fs) < CRED_LINES)%nat
  | ResetPassword u np =>
      token 127 np /\ Forall row_fits (map (set_pass u np) (file_rows fs))
  | Authenticate _ _ | RemoveCredential _ => True
  end.

(** The stores reached from the bootstrap by allowed calls. *)
Inductive reachable : filesys -> Prop :=
  | reach_boot (fs0 : filesys) :
      data fs0 CREDENTIAL_FILE = None ->
      reachable (ensure_default_credentials fs0)
  | reach_op (fs fs' : filesys) (op : cred_op) :
      reachable fs -> op_allowed fs op -> run_cred_op fs op = Some fs' ->
      reachable fs'.

(** ** Program state and terminal *)

(** The state of a run: the files, the input still to be read, the text
    printed so far, the session globals, the calendar time [ctime]
    reports ([None] when it returns NULL), and whether the input is a
    terminal. *)
Record state := mkState {
  files : filesys;
  stdin : cstr;
  stdout : cstr;
  currentUser : cstr;
  currentRole : cstr;
  clock : option cstr;
  tty : bool
}.

Definition set_files (st : state) (fs : filesys) : state :=
  {| files := fs; stdin := stdin st; stdout := stdout st;
     currentUser := currentUser st; currentRole := currentRole st;
     clock := clock st; tty := tty st |}.

Definition set_stdin (st : state) (s : cstr) : state :=
  {| files := files st; stdin := s; stdout := stdout st;
     currentUser := currentUser st; currentRole := currentRole st;
     clock := clock st; tty := tty st |}.

Definition set_session (st : state) (user role : cstr) : state :=
  {| files := files st; stdin := stdin st; stdout := stdout st;
     currentUser := user; currentRole := role;
     clock := clock st; tty := tty st |}.

(** [printf] of an already formatted text. *)
Definition printf (st : state) (text : cstr) : state :=
  {| files := files st; stdin := stdin st; stdout := stdout st ++ text;
     currentUser := currentUser st; currentRole := currentRole st;
     clock := clock st; tty := tty st |}.

(** A text followed by a newline. *)
Definition line (s : string) : cstr := lit s ++ [NL].

(** The [getchar] loop that discards input up to and including the next
    newline, or to the end of input. *)
Fixpoint drop_line (s : cstr) : cstr :=
  match s with
  | [] => []
  | c :: r => if Ascii.eqb c NL then r else drop_line r
  end.

Definition clear_input_line (st : state) : state :=
  set_stdin st (drop_line (stdin st)).

Definition pause_and_wait (st : state) : state :=
  let st := printf st ([NL] ++ lit "Press ENTER to continue...") in
  set_stdin st (drop_line (stdin st)).

(** [system("clear")] acts on the terminal, not on the program's output. *)
Definition clear_screen (st : state) : state := st.

Definition yesno (st : state) (prompt : cstr) : bool * state :=
  let st := printf st (prompt ++ lit " (y/n): ") in
  match fgets 8 (stdin st) with
  | None => (false, st)
  | Some (buf, rest) =>
      (match buf with
       | c :: _ => Ascii.eqb c (chr 121) || Ascii.eqb c (chr 89)
       | [] => false
       end, set_stdin st rest)
  end.

(** The bytes before the first newline: [buf[strcspn(buf, "\n")] = 0]. *)
Fixpoint before_newline (s : cstr) : cstr :=
  match s with
  | [] => []
  | c :: r => if Ascii.eqb c NL then [] else c :: before_newline r
  end.

Definition safe_gets (st : state) (n : nat) : cstr * state :=
  match fgets n (stdin st) with
  | None => ([], st)
  | Some (buf, rest) => (before_newline (until_nul buf), set_stdin st rest)
  end.

(** [get_password] on POSIX: without a terminal it falls back to
    [fgets]; with one it reads with the echo off and prints a newline. *)
Definition get_password (st : state) (maxlen : nat) : cstr * state :=
  let '(out, st') := safe_gets st maxlen in
  (out, if tty st then printf st' [NL] else st').

(** [scanf("%d", &x)]: [Some] of the value when the call returns 1. *)
Definition scanf_d (st : state) : option Z * state :=
  match skip_space (stdin st) with
  | [] => (None, set_stdin st [])
  | s1 =>
      let '(neg, s2) := take_sign s1 in
      let '(v, n, rest) := span_digits s2 0 0 in
      match n with
      | O => (None, set_stdin st s2)
      | S _ =>
          let v' := if neg then (- v)%Z else v in
          (Some (to_int (Z.max LONG_MIN (Z.min LONG_MAX v'))), set_stdin st rest)
      end
  end.

(** [scanf("%f", &x)] *)
Definition scanf_f (st : state) : option f32 * state :=
  match strtof (stdin st) with
  | Some (v, rest) => (Some v, set_stdin st rest)
  | None => (None, set_stdin st (skip_space (stdin st)))
  end.

(** [scanf("%127s", buf)] *)
Definition scanf_s (st : state) (w : nat) : option cstr * state :=
  match scan_s w (stdin st) with
  | Some (t, rest) => (Some t, set_stdin st rest)
  | None => (None, set_stdin st [])
  end.

(** ** String comparison helpers *)

(** Whether [needle] starts [hay], letters compared without case. *)
Fixpoint prefix_ci (needle hay : cstr) : bool :=
  match needle, hay with
  | [], _ => true
  | a :: n', b :: h' => Ascii.eqb (tolower b) (tolower a) && prefix_ci n' h'
  | _ :: _, [] => false
  end.

(** The scan over the start positions [i] with [i + nn <= hn]. *)
Fixpoint contains_from (needle hay : cstr) : bool :=
  prefix_ci needle hay
  || match hay with
     | [] => false
     | _ :: h' => contains_from needle h'
     end.

Definition contains_case_insensitive (hay needle : cstr) : bool :=
  match needle with
  | [] => true
  | _ => contains_from needle hay
  end.

Fixpoint portable_strcasecmp (a b : cstr) : Z :=
  match a, b with
  | [], [] => 0%Z
  | c :: _, [] => code (tolower c)
  | [], d :: _ => (- code (tolower d))%Z
  | c :: a', d :: b' =>
      let ca := code (tolower c) in
      let cb := code (tolower d) in
      if (ca =? cb)%Z then portable_strcasecmp a' b' else (ca - cb)%Z
  end.

Definition ADMIN : cstr := lit "ADMIN".
Definition STAFF : cstr := lit "STAFF".
Definition PRINCIPAL : cstr := lit "PRINCIPAL".
Definition STUDENT : cstr := lit "STUDENT".
Definition GUEST : cstr := lit "GUEST".

(** [strcmp(currentRole, r) == 0] *)
Definition role_is (st : state) (r : cstr) : bool := cstr_eqb (currentRole st) r.

(** ** Features *)

Definition RULE44 : cstr := repeat (chr 61) 44.
Definition DASH44 : cstr := repeat (chr 45) 44.
Definition DASH79 : cstr := repeat (chr 45) 79.

Definition show_banner (st : state) : state :=
  let st := printf st (RULE44 ++ [NL]) in
  let st := printf st (line "     STUDENT RECORD MANAGEMENT SYSTEM       ") in
  let st := printf st (RULE44 ++ [NL]) in
  let st :=
    match currentUser st with
    | [] => st
    | _ => printf st (lit "Logged in as: " ++ currentUser st ++ lit " ["
                      ++ currentRole st ++ line "]")
    end in
  printf st (DASH44 ++ [NL]).

Definition SP : cstr := lit " ".

Definition print_students_header (st : state) : state :=
  let st := printf st ([NL] ++ pad_right 6 (lit "Roll") ++ SP ++ pad_right 20 (lit "Name")) in
  let st := fold_left (fun st sn => printf st (SP ++ pad_right 8 sn)) subjectNames st in
  let st := printf st (SP ++ pad_right 8 (lit "Total") ++ SP ++ pad_right 10 (lit "Percent")
                       ++ SP ++ pad_right 6 (lit "Grade") ++ [NL]) in
  printf st (DASH79 ++ [NL]).

(** One row of the table: [%-6d %-20s], the marks as [ %-8.2f], then
    [ %-8.2f %-10.2f %-6s\n]. *)
Definition student_row (s : Student) : cstr :=
  pad_right 6 (fmt_d (roll s)) ++ SP ++ pad_right 20 (name s)
  ++ concat (map (fun j => SP ++ pad_right 8 (fmt_2f (mark_at s j))) (seq 0 SUBJECTS))
  ++ SP ++ pad_right 8 (fmt_2f (total s)) ++ SP ++ pad_right 10 (fmt_2f (percentage s))
  ++ SP ++ pad_right 6 (grade s) ++ [NL].

Definition display_students_table (st : state) (arr : list Student) : bool * state :=
  match arr with
  | [] => (false, printf st (line "No student records."))
  | _ =>
      let st := print_students_header st in
      (true, fold_left (fun st s => printf st (student_row s)) arr st)
  end.

Definition feature_display_all (st : state) : state :=
  match read_all_students (files st) with
  | None => printf st (line "No records to display.")
  | Some arr => snd (display_students_table st arr)
  end.

(** A search loop: the records that satisfy [hit] are printed with
    [show], the header before the first of them. *)
Definition search_loop (hit : Student -> bool) (show : Student -> cstr)
    (arr : list Student) (st : state) : bool * state :=
  fold_left
    (fun (acc : bool * state) (s : Student) =>
       let '(found, st) := acc in
       if hit s then
         let st := if found then st else print_students_header st in
         (true, printf st (show s))
       else (found, st))
    arr (false, st).

Definition first_with_roll (r : Z) (arr : list Student) : option Student :=
  find (fun s => (roll s =? r)%Z) arr.

Definition no_match (found : bool) (st : state) : state :=
  if found then st else printf st (line "No matching records found.").

Definition feature_search (st : state) : state :=
  let st := printf st ([NL] ++ line "Search by:" ++ line "1) Name (partial)"
                       ++ line "2) Roll No" ++ line "3) Marks Range"
                       ++ line "4) Grade" ++ lit "Enter choice: ") in
  match scanf_d st with
  | (None, st) => printf (clear_input_line st) (line "Invalid.")
  | (Some ch, st) =>
      let st := clear_input_line st in
      match read_all_students (files st) with
      | None => printf st (line "No records.")
      | Some arr =>
          if (ch =? 1)%Z then
            let st := printf st (lit "Enter name or partial: ") in
            let '(q, st) := safe_gets st 128 in
            let '(found, st) :=
              search_loop (fun s => contains_case_insensitive (name s) q)
                          student_row arr st in
            no_match found st
          else if (ch =? 2)%Z then
            let st := printf st (lit "Enter roll: ") in
            match scanf_d st with
            | (None, st) => printf (clear_input_line st) (line "Invalid.")
            | (Some r, st) =>
                let st := clear_input_line st in
                match first_with_roll r arr with
                | Some s => snd (display_students_table st [s])
                | None => no_match false st
                end
            end
          else if (ch =? 3)%Z then
            let st := printf st (lit "Enter lower bound of percentage: ") in
            match scanf_f st with
            | (None, st) => printf (clear_input_line st) (line "Invalid.")
            | (Some lo, st) =>
                let st := printf st (lit "Enter upper bound of percentage: ") in
                match scanf_f st with
                | (None, st) => printf (clear_input_line st) (line "Invalid.")
                | (Some hi, st) =>
                    let st := clear_input_line st in
                    let '(found, st) :=
                      search_loop
                        (fun s => F32.geb (percentage s) lo && F32.leb (percentage s) hi)
                        (fun s => pad_right 6 (fmt_d (roll s)) ++ SP
                                  ++ pad_right 20 (name s) ++ SP
                                  ++ pad_right 8 (fmt_2f (percentage s)) ++ [NL])
                        arr st in
                    no_match found st
                end
            end
          else if (ch =? 4)%Z then
            let st := printf st (lit "Enter grade to search (A+, A, B, C, D, F): ") in
            let '(q, st) := safe_gets st 8 in
            let '(found, st) :=
              search_loop
                (fun s => (portable_strcasecmp (grade s) q =? 0)%Z)
                (fun s => pad_right 6 (fmt_d (roll s)) ++ SP
                          ++ pad_right 20 (name s) ++ SP
                          ++ pad_right 6 (grade s) ++ SP
                          ++ pad_right 8 (fmt_2f (percentage s)) ++ [NL])
                arr st in
            no_match found st
          else
            no_match false (printf st (line "Invalid option."))
      end
  end.

(** *** Statistics *)

Record stats := mkStats {
  maxPerc : f32;
  minPerc : f32;
  sum : f32;
  pass : Z;
  maxIdx : nat;
  minIdx : nat
}.

Definition stats_init : stats :=
  {| maxPerc := F32.of_Z (-1); minPerc := F32.of_Z 101; sum := F32.zero;
     pass := 0; maxIdx := 0; minIdx := 0 |}.

(** One pass of the loop, for the record at index [i]. *)
Definition stats_step (acc : stats) (i : nat) (s : Student) : stats :=
  let p := percentage s in
  let isMax := F32.gtb p (maxPerc acc) in
  let isMin := F32.ltb p (minPerc acc) in
  {| maxPerc := if isMax then p else maxPerc acc;
     minPerc := if isMin then p else minPerc acc;
     sum := F32.add (sum acc) p;
     pass := if F32.geb p (F32.of_Z 50) then (pass acc + 1)%Z else pass acc;
     maxIdx := if isMax then i else maxIdx acc;
     minIdx := if isMin then i else minIdx acc |}.

Fixpoint stats_loop (arr : list Student) (i : nat) (acc : stats) : stats :=
  match arr with
  | [] => acc
  | s :: rest => stats_loop rest (S i) (stats_step acc i s)
  end.

Definition stats_of (arr : list Student) : stats := stats_loop arr 0 stats_init.

(** The value printed as the average: [sum / n]. *)
Definition average (arr : list Student) : f32 :=
  F32.div (sum (stats_of arr)) (F32.of_Z (Z.of_nat (length arr))).

Definition dummy_student : Student :=
  {| roll := 0; name := []; marks := []; total := F32.zero;
     percentage := F32.zero; grade := [] |}.

Definition statistics_text (arr : list Student) : cstr :=
  let r := stats_of arr in
  let n := Z.of_nat (length arr) in
  let hi := nth (maxIdx r) arr dummy_student in
  let lo := nth (minIdx r) arr dummy_student in
  [NL] ++ lit "Total Students: " ++ fmt_d n ++ [NL]
  ++ lit "Average Percentage: " ++ fmt_2f (average arr) ++ [NL]
  ++ lit "Highest: " ++ fmt_2f (percentage hi) ++ lit " (" ++ name hi
  ++ lit ", Roll " ++ fmt_d (roll hi) ++ line ")"
  ++ lit "Lowest: " ++ fmt_2f (percentage lo) ++ lit " (" ++ name lo
  ++ lit ", Roll " ++ fmt_d (roll lo) ++ line ")"
  ++ lit "Pass Count: " ++ fmt_d (pass r) ++ [NL]
  ++ lit "Fail Count: " ++ fmt_d (n - pass r) ++ [NL].

Definition feature_statistics (st : state) : state :=
  match read_all_students (files st) with
  | None => printf st (line "No records.")
  | Some arr => printf st (statistics_text arr)
  end.

(** *** Export, backup and restore *)

Definition QUOTE : cstr := [chr 34].

Definition csv_header : cstr :=
  lit "Roll,Name" ++ concat (map (fun sn => lit "," ++ sn) subjectNames)
  ++ line ",Total,Percentage,Grade".

Definition csv_row (s : Student) : cstr :=
  fmt_d (roll s) ++ lit "," ++ QUOTE ++ name s ++ QUOTE
  ++ concat (map (fun j => lit "," ++ fmt_2f (mark_at s j)) (seq 0 SUBJECTS))
  ++ lit "," ++ fmt_2f (total s) ++ lit "," ++ fmt_2f (percentage s)
  ++ lit "," ++ grade s ++ [NL].

Definition csv_text (arr : list Student) : cstr :=
  csv_header ++ concat (map csv_row arr).

Definition report_entry (s : Student) : cstr :=
  lit "Roll: " ++ fmt_d (roll s) ++ [NL] ++ lit "Name: " ++ name s ++ [NL]
  ++ concat (map (fun j => nth j subjectNames [] ++ lit ": "
                           ++ fmt_2f (mark_at s j) ++ [NL]) (seq 0 SUBJECTS))
  ++ lit "Total: " ++ fmt_2f (total s) ++ [NL]
  ++ lit "Percentage: " ++ fmt_2f (percentage s) ++ [NL]
  ++ lit "Grade: " ++ grade s ++ [NL] ++ line "-----------------".

Definition timestamp (st : state) : cstr :=
  match clock st with
  | Some ts => ts
  | None => line "unknown time"
  end.

Definition report_text (ts : cstr) (arr : list Student) : cstr :=
  lit "Student Report Generated on " ++ ts ++ [NL; NL]
  ++ concat (map report_entry arr).

Definition feature_export (st : state) : state :=
  match read_all_students (files st) with
  | None => printf st (line "No records to export.")
  | Some arr =>
      let fs := files st in
      let '(csv_ok, fs) :=
        match fopen_w fs CSV_FILE with
        | Some fs' => (true, fs')
        | None => (false, fs)
        end in
      let '(report_ok, fs) :=
        match fopen_w fs REPORT_FILE with
        | Some fs' => (true, fs')
        | None => (false, fs)
        end in
      if csv_ok && report_ok then
        let fs := fs_write fs CSV_FILE (csv_text arr) in
        let fs := fs_write fs REPORT_FILE (report_text (timestamp st) arr) in
        printf (set_files st fs)
               (lit "Exported to " ++ path_name CSV_FILE ++ lit " and "
                ++ path_name REPORT_FILE ++ [NL])
      else
        printf (set_files st fs) (line "Error creating export files.")
  end.

(** The [fgets]/[fputs] copy loop with a 1024-byte buffer: each chunk is
    written as a C string. *)
Fixpoint copy_loop (fuel : nat) (stream : cstr) : cstr :=
  match fuel with
  | O => []
  | S fuel' =>
      match fgets 1024 stream with
      | None => []
      | Some (buf, rest) => until_nul buf ++ copy_loop fuel' rest
      end
  end.

Definition copy_text (c : cstr) : cstr := copy_loop (length c) c.

Definition feature_backup (st : state) : state :=
  match fopen_r (files st) STUDENT_FILE with
  | None => printf st (line "No data to backup.")
  | Some src =>
      match fopen_w (files st) BACKUP_FILE with
      | None => printf st (line "Error creating backup.")
      | Some fs =>
          printf (set_files st (fs_write fs BACKUP_FILE (copy_text src)))
                 (lit "Backup saved to " ++ path_name BACKUP_FILE ++ [NL])
      end
  end.

Definition feature_restore (st : state) : state :=
  let '(yes, st) :=
    yesno st (lit "Restore from backup? This will overwrite current records.") in
  if yes then
    match fopen_r (files st) BACKUP_FILE with
    | None => printf st (line "Backup file not found.")
    | Some src =>
        match fopen_w (files st) STUDENT_FILE with
        | None => printf st (line "Error restoring.")
        | Some fs =>
            printf (set_files st (fs_write fs STUDENT_FILE (copy_text src)))
                   (line "Restore complete.")
        end
    end
  else printf st (line "Restore cancelled.").

(** [(char) getchar()]; at end of input the value is [(char) EOF]. *)
Definition getchar (st : state) : ascii * state :=
  match stdin st with
  | [] => (chr 255, st)
  | c :: r => (c, set_stdin st r)
  end.

Definition feature_toggle_encryption (st : state) : state :=
  if negb (role_is st ADMIN) then printf st (line "Only ADMIN can toggle encryption.")
  else
    let '(yes, st) :=
      yesno st (lit "Toggle XOR encryption for student file? (this will apply XOR to current file)") in
    if yes then
      let st := printf st (lit "Enter single character key: ") in
      let '(keych, st) := getchar st in
      let st := clear_input_line st in
      let st := set_files st (xor_file (files st) STUDENT_FILE keych) in
      printf st (lit "XOR applied with key '" ++ [keych]
                 ++ line "'. (Run again with same key to decrypt)")
    else printf st (line "Cancelled.").

Definition common_reports_menu (st : state) : state :=
  let st := printf st ([NL] ++ line "1) Export (CSV & Report)" ++ line "2) Backup"
                       ++ line "3) Restore" ++ line "4) Toggle Encryption (ADMIN only)"
                       ++ line "5) Back" ++ lit "Enter choice: ") in
  match scanf_d st with
  | (None, st) => clear_input_line st
  | (Some c, st) =>
      let st := clear_input_line st in
      if (c =? 1)%Z then feature_export st
      else if (c =? 2)%Z then feature_backup st
      else if (c =? 3)%Z then feature_restore st
      else if (c =? 4)%Z then feature_toggle_encryption st
      else st
  end.

(** *** Mutations of the student store *)

Definition admin_or_staff (st : state) : bool := role_is st ADMIN || role_is st STAFF.

(** The loop that reads one mark per subject; [inl] carries the message
    of the early return. *)
Fixpoint read_marks (subjects : list cstr) (st : state) : (cstr + list f32) * state :=
  match subjects with
  | [] => (inr [], st)
  | sn :: rest =>
      let st := printf st (lit "Enter marks for " ++ sn ++ lit " (0-100): ") in
      match scanf_f st with
      | (None, st) => (inl (line "Invalid marks input."), clear_input_line st)
      | (Some m, st) =>
          if valid_marks m then
            match read_marks rest st with
            | (inr ms, st) => (inr (m :: ms), st)
            | (inl msg, st) => (inl msg, st)
            end
          else (inl (line "Marks must be 0-100."), st)
      end
  end.

Definition feature_add_student (st : state) : state :=
  if negb (admin_or_staff st)
  then printf st (line "Permission denied: Only ADMIN/STAFF can add students.")
  else
    let st := printf st (lit "Enter Roll Number: ") in
    match scanf_d st with
    | (None, st) => printf (clear_input_line st) (line "Invalid roll.")
    | (Some r, st) =>
        let st := clear_input_line st in
        if roll_exists (files st) r then printf st (line "Roll number already exists!")
        else
          let st := printf st (lit "Enter Name: ") in
          let '(nm, st) := safe_gets st MAX_NAME in
          if negb (valid_name nm) then printf st (line "Invalid name.")
          else
            match read_marks subjectNames st with
            | (inl msg, st) => printf st msg
            | (inr ms, st) =>
                let st := clear_input_line st in
                let s := calculate_student
                           {| roll := r; name := nm; marks := ms;
                              total := F32.zero; percentage := F32.zero; grade := [] |} in
                let '(ok, fs) := append_student (files st) s in
                if ok then printf (set_files st fs) (line "Student added successfully!")
                else printf (set_files st fs) (line "Error: could not append to file.")
            end
    end.

Fixpoint set_nth (A : Type) (l : list A) (j : nat) (x : A) : list A :=
  match l, j with
  | [], _ => []
  | _ :: r, O => x :: r
  | a :: r, S j' => a :: set_nth r j' x
  end.

(** The loop over the subjects of [feature_update_student]. *)
Fixpoint update_marks (js : list nat) (s : Student) (st : state) : Student * state :=
  match js with
  | [] => (s, st)
  | j :: rest =>
      let sn := nth j subjectNames [] in
      let st := printf st (lit "Current " ++ sn ++ lit ": " ++ fmt_2f (mark_at s j) ++ [NL]
                           ++ lit "New " ++ sn ++ lit " (-1 to keep): ") in
      match scanf_f st with
      | (None, st) =>
          update_marks rest s (printf (clear_input_line st) (line "Invalid input. Skipping."))
      | (Some m, st) =>
          let s' :=
            if F32.geb m F32.zero && F32.leb m (F32.of_Z 100)
            then {| roll := roll s; name := name s; marks := set_nth (marks s) j m;
                    total := total s; percentage := percentage s; grade := grade s |}
            else s in
          update_marks rest s' st
      end
  end.

Definition update_record (s : Student) (st : state) : Student * state :=
  let st := printf st (lit "Current name: " ++ name s ++ [NL]
                       ++ lit "New name (blank to keep): ") in
  let '(tmp, st) := safe_gets st MAX_NAME in
  let s :=
    match tmp with
    | [] => s
    | _ => {| roll := roll s; name := firstn (MAX_NAME - 1) tmp; marks := marks s;
              total := total s; percentage := percentage s; grade := grade s |}
    end in
  let '(s, st) := update_marks (seq 0 SUBJECTS) s st in
  (calculate_student s, clear_input_line st).

(** The first record with the roll is replaced by its update. *)
Fixpoint update_first (r : Z) (arr : list Student) (st : state)
  : option (list Student) * state :=
  match arr with
  | [] => (None, st)
  | s :: rest =>
      if (roll s =? r)%Z then
        let '(s', st) := update_record s st in (Some (s' :: rest), st)
      else
        match update_first r rest st with
        | (Some rest', st) => (Some (s :: rest'), st)
        | (None, st) => (None, st)
        end
  end.

Definition feature_update_student (st : state) : state :=
  if negb (admin_or_staff st)
  then printf st (line "Permission denied: Only ADMIN/STAFF can update students.")
  else
    let st := printf st (lit "Enter roll to update: ") in
    match scanf_d st with
    | (None, st) => printf (clear_input_line st) (line "Invalid.")
    | (Some r, st) =>
        let st := clear_input_line st in
        match read_all_students (files st) with
        | None => printf st (line "No records.")
        | Some arr =>
            match update_first r arr st with
            | (None, st) => printf st (line "Roll not found.")
            | (Some arr', st) =>
                let '(ok, fs) := overwrite_students (files st) arr' in
                if ok then printf (set_files st fs) (line "Record updated.")
                else printf (set_files st fs) (line "Error saving updates.")
            end
        end
    end.

(** Removal of the first record with the roll; [None] when there is
    none. *)
Fixpoint delete_first (r : Z) (arr : list Student) : option (list Student) :=
  match arr with
  | [] => None
  | s :: rest =>
      if (roll s =? r)%Z then Some rest
      else option_map (cons s) (delete_first r rest)
  end.

Definition feature_delete_student (st : state) : state :=
  if negb (admin_or_staff st) then printf st (line "Permission denied.")
  else
    let st := printf st (lit "Enter roll to delete: ") in
    match scanf_d st with
    | (None, st) => printf (clear_input_line st) (line "Invalid.")
    | (Some r, st) =>
        let st := clear_input_line st in
        match read_all_students (files st) with
        | None => printf st (line "No records.")
        | Some arr =>
            match delete_first r arr with
            | None => printf st (line "Roll not found.")
            | Some arr' =>
                let '(ok, fs) := overwrite_students (files st) arr' in
                if ok then printf (set_files st fs) (line "Deleted successfully.")
                else printf (set_files st fs) (line "Error deleting.")
            end
        end
    end.

Definition feature_delete_all (st : state) : state :=
  if negb (role_is st ADMIN) then printf st (line "Only ADMIN can delete all records.")
  else
    let '(yes, st) := yesno st (lit "Are you sure you want to DELETE ALL STUDENT RECORDS?") in
    if yes then
      match fopen_w (files st) STUDENT_FILE with
      | None => printf st (line "Error clearing file.")
      | Some fs => printf (set_files st fs) (line "All records deleted.")
      end
    else printf st (line "Operation cancelled.").

(** [feature_manage_credentials]; [None] when a store call has
    undefined behaviour. *)
Definition feature_manage_credentials (st : state) : option state :=
  if negb (role_is st ADMIN) then Some (printf st (line "Only ADMIN can manage users."))
  else
    let st := printf st ([NL] ++ line "Credentials Manager:" ++ line "1) Add User"
                         ++ line "2) Reset Password" ++ line "3) Remove User"
                         ++ lit "Enter choice: ") in
    match scanf_d st with
    | (None, st) => Some (printf (clear_input_line st) (line "Invalid."))
    | (Some ch, st) =>
        let st := clear_input_line st in
        if (ch =? 1)%Z then
          let '(user, st) := safe_gets (printf st (lit "Username: ")) 128 in
          let '(pw, st) := get_password (printf st (lit "Password: ")) 128 in
          let '(role, st) :=
            safe_gets (printf st (lit "Role (ADMIN/STAFF/PRINCIPAL/STUDENT/GUEST): ")) 64 in
          let '(ok, fs) := add_credential (files st) user pw (map toupper role) in
          Some (printf (set_files st fs) (if ok then line "User added." else line "Error."))
        else if (ch =? 2)%Z then
          let '(user, st) := safe_gets (printf st (lit "Username to reset: ")) 128 in
          let '(pw, st) := get_password (printf st (lit "New password: ")) 128 in
          match reset_password (files st) user pw with
          | None => None
          | Some (ok, fs) =>
              Some (printf (set_files st fs)
                           (if ok then line "Password reset." else line "User not found."))
          end
        else if (ch =? 3)%Z then
          let '(user, st) := safe_gets (printf st (lit "Username to remove: ")) 128 in
          match remove_credential (files st) user with
          | None => None
          | Some (ok, fs) =>
              Some (printf (set_files st fs)
                           (if ok then line "User removed." else line "User not found."))
          end
        else Some (printf st (line "Invalid."))
    end.

(** *** Sorting *)

Definition cmp_roll_asc (a b : Student) : Z := to_int (roll a - roll b).
Definition cmp_roll_desc (a b : Student) : Z := to_int (roll b - roll a).
Definition cmp_name (a b : Student) : Z := portable_strcasecmp (name a) (name b).

Definition cmp_marks_desc (a b : Student) : Z :=
  let diff := F32.sub (total b) (total a) in
  if F32.gtb diff F32.zero then 1%Z
  else if F32.ltb diff F32.zero then (-1)%Z
  else 0%Z.

(** The outcome of a loop that may run for ever or reach undefined
    behaviour. *)
Inductive outcome (A : Type) : Type :=
  | Returned (a : A)
  | OutOfFuel
  | Undefined.

Arguments Returned {A} a.
Arguments OutOfFuel {A}.
Arguments Undefined {A}.


Section WithQsort.

(** The library's [qsort], a parameter of the program. *)
Variable qsort : (Student -> Student -> Z) -> list Student -> list Student.

Definition feature_sorting (st : state) : state :=
  match read_all_students (files st) with
  | None => printf st (line "No records to sort.")
  | Some arr =>
      let st := printf st (line "Sort by:" ++ line "1) Roll Asc" ++ line "2) Roll Desc"
                           ++ line "3) Name" ++ line "4) Total Marks Desc"
                           ++ lit "Enter choice: ") in
      match scanf_d st with
      | (None, st) => printf (clear_input_line st) (line "Invalid.")
      | (Some ch, st) =>
          let st := clear_input_line st in
          let sorted :=
            if (ch =? 1)%Z then Some (qsort cmp_roll_asc arr)
            else if (ch =? 2)%Z then Some (qsort cmp_roll_desc arr)
            else if (ch =? 3)%Z then Some (qsort cmp_name arr)
            else if (ch =? 4)%Z then Some (qsort cmp_marks_desc arr)
            else None in
          match sorted with
          | None => printf st (line "Invalid choice.")
          | Some arr' =>
              let st := snd (display_students_table st arr') in
              let '(yes, st) := yesno st (lit "Save sorted order to file?") in
              if yes then
                let '(ok, fs) := overwrite_students (files st) arr' in
                printf (set_files st fs) (if ok then line "Saved." else line "Error saving.")
              else st
          end
      end
  end.

(** ** Menus *)

(** The start of every pass of a menu loop: the banner, the menu text,
    and the choice read ([-1] when [scanf] fails). *)
Definition menu_choice (st : state) (menu : cstr) : Z * state :=
  let st := show_banner (clear_screen st) in
  let st := printf st menu in
  match scanf_d st with
  | (None, st) => ((-1)%Z, clear_input_line (clear_input_line st))
  | (Some ch, st) => (ch, clear_input_line st)
  end.

Definition LOGOUT : cstr := line "Logging out...".

Definition admin_menu_text : cstr :=
  line "ADMIN MENU" ++ line "1) Add Student" ++ line "2) Display All" ++ line "3) Search"
  ++ line "4) Update" ++ line "5) Delete" ++ line "6) Delete All (Reset)"
  ++ line "7) Sorting" ++ line "8) Statistics" ++ line "9) Manage Credentials"
  ++ line "10) Reports/Backup" ++ line "11) Logout" ++ lit "Choose: ".

Fixpoint admin_menu (fuel : nat) (st : state) : outcome state :=
  match fuel with
  | O => OutOfFuel
  | S fuel' =>
      let '(ch, st) := menu_choice st admin_menu_text in
      if (ch =? 11)%Z then Returned (printf st LOGOUT)
      else
        let r :=
          if (ch =? 1)%Z then Some (feature_add_student st)
          else if (ch =? 2)%Z then Some (feature_display_all st)
          else if (ch =? 3)%Z then Some (feature_search st)
          else if (ch =? 4)%Z then Some (feature_update_student st)
          else if (ch =? 5)%Z then Some (feature_delete_student st)
          else if (ch =? 6)%Z then Some (feature_delete_all st)
          else if (ch =? 7)%Z then Some (feature_sorting st)
          else if (ch =? 8)%Z then Some (feature_statistics st)
          else if (ch =? 9)%Z then feature_manage_credentials st
          else if (ch =? 10)%Z then Some (common_reports_menu st)
          else Some (printf st (line "Invalid choice.")) in
        match r with
        | None => Undefined
        | Some st => admin_menu fuel' (pause_and_wait st)
        end
  end.

Definition staff_menu_text : cstr :=
  line "STAFF MENU" ++ line "1) Display All" ++ line "2) Search" ++ line "3) Add Student"
  ++ line "4) Update Student" ++ line "5) Delete Student" ++ line "6) Sorting"
  ++ line "7) Statistics" ++ line "8) Reports/Backup" ++ line "9) Logout"
  ++ lit "Choose: ".

Fixpoint staff_menu (fuel : nat) (st : state) : outcome state :=
  match fuel with
  | O => OutOfFuel
  | S fuel' =>
      let '(ch, st) := menu_choice st staff_menu_text in
      if (ch =? 9)%Z then Returned (printf st LOGOUT)
      else
        let st :=
          if (ch =? 1)%Z then feature_display_all st
          else if (ch =? 2)%Z then feature_search st
          else if (ch =? 3)%Z then feature_add_student st
          else if (ch =? 4)%Z then feature_update_student st
          else if (ch =? 5)%Z then feature_delete_student st
          else if (ch =? 6)%Z then feature_sorting st
          else if (ch =? 7)%Z then feature_statistics st
          else if (ch =? 8)%Z then common_reports_menu st
          else printf st (line "Invalid choice.") in
        staff_menu fuel' (pause_and_wait st)
  end.

End WithQsort.

Definition guest_menu_text : cstr :=
  line "GUEST MENU" ++ line "1) Display All" ++ line "2) Search"
  ++ line "3) Reports/Backup" ++ line "4) Logout" ++ lit "Choose: ".

(** One pass of the loop of [guest_menu]: [inl] when the menu returns. *)
Definition guest_menu_pass (st : state) : state + state :=
  let '(ch, st) := menu_choice st guest_menu_text in
  if (ch =? 4)%Z then inl (printf st LOGOUT)
  else
    let st :=
      if (ch =? 1)%Z then feature_display_all st
      else if (ch =? 2)%Z then feature_search st
      else if (ch =? 3)%Z then common_reports_menu st
      else printf st (line "Invalid choice.") in
    inr (pause_and_wait st).

Fixpoint guest_menu (fuel : nat) (st : state) : outcome state :=
  match fuel with
  | O => OutOfFuel
  | S fuel' =>
      match guest_menu_pass st with
      | inl st' => Returned st'
      | inr st' => guest_menu fuel' st'
      end
  end.

Definition principal_menu_text : cstr :=
  line "PRINCIPAL MENU" ++ line "1) Display All" ++ line "2) Search"
  ++ line "3) Statistics" ++ line "4) Reports/Backup" ++ line "5) Logout"
  ++ lit "Choose: ".

Definition principal_menu_pass (st : state) : state + state :=
  let '(ch, st) := menu_choice st principal_menu_text in
  if (ch =? 5)%Z then inl (printf st LOGOUT)
  else
    let st :=
      if (ch =? 1)%Z then feature_display_all st
      else if (ch =? 2)%Z then feature_search st
      else if (ch =? 3)%Z then feature_statistics st
      else if (ch =? 4)%Z then common_reports_menu st
      else printf st (line "Invalid choice.") in
    inr (pause_and_wait st).

Fixpoint principal_menu (fuel : nat) (st : state) : outcome state :=
  match fuel with
  | O => OutOfFuel
  | S fuel' =>
      match principal_menu_pass st with
      | inl st' => Returned st'
      | inr st' => principal_menu fuel' st'
      end
  end.

(** "View My Record" of the student menu. *)
Definition view_my_record (st : state) : state :=
  match read_all_students (files st) with
  | None => printf st (line "No records.")
  | Some arr =>
      let mine :=
        if forallb isdigit (currentUser st)
        then find (fun s => (roll s =? atoi (currentUser st))%Z) arr
        else find (fun s => (portable_strcasecmp (name s) (currentUser st) =? 0)%Z) arr in
      match mine with
      | Some s => snd (display_students_table st [s])
      | None => printf st (line "No record found for you.")
      end
  end.

Definition student_menu_text : cstr :=
  line "STUDENT MENU" ++ line "1) View My Record" ++ line "2) Logout" ++ lit "Choose: ".

Definition student_menu_pass (st : state) : state + state :=
  let '(ch, st) := menu_choice st student_menu_text in
  if (ch =? 1)%Z then inr (pause_and_wait (view_my_record st))
  else if (ch =? 2)%Z then inl (printf st LOGOUT)
  else inr (pause_and_wait (printf st (line "Invalid."))).

Fixpoint student_menu (fuel : nat) (st : state) : outcome state :=
  match fuel with
  | O => OutOfFuel
  | S fuel' =>
      match student_menu_pass st with
      | inl st' => Returned st'
      | inr st' => student_menu fuel' st'
      end
  end.

Definition main_menu_dispatch
    (qsort : (Student -> Student -> Z) -> list Student -> list Student)
    (fuel : nat) (st : state) : outcome state :=
  if role_is st ADMIN then admin_menu qsort fuel st
  else if role_is st STAFF then staff_menu qsort fuel st
  else if role_is st PRINCIPAL then principal_menu fuel st
  else if role_is st STUDENT then student_menu fuel st
  else guest_menu fuel st.

(** ** Login and bootstrap *)

(** The loop of [login_system]; a failed read of the user name starts
    the pass again without counting an attempt. *)
Fixpoint login_loop (fuel : nat) (attempts : Z) (st : state) : outcome (bool * state) :=
  match fuel with
  | O => OutOfFuel
  | S fuel' =>
      if (attempts <? 3)%Z then
        let st := show_banner (clear_screen st) in
        let st := printf st (lit "Username: ") in
        match scanf_s st 127 with
        | (None, st) => login_loop fuel' attempts (clear_input_line st)
        | (Some user, st) =>
            let st := clear_input_line st in
            let st := printf st (lit "Password: ") in
            let '(pw, st) := get_password st 128 in
            match check_credentials (files st) user pw with
            | Some rolebuf =>
                let st := set_session st (firstn (MAX_USER - 1) user)
                                      (firstn (MAX_ROLE - 1) rolebuf) in
                Returned (true,
                          printf st (lit "Login successful. Welcome " ++ currentUser st
                                     ++ lit " [" ++ currentRole st ++ line "]"))
            | None =>
                let attempts := (attempts + 1)%Z in
                let st := printf st (lit "Invalid credentials. Attempts left: "
                                     ++ fmt_d (3 - attempts) ++ [NL]) in
                login_loop fuel' attempts (pause_and_wait st)
            end
        end
      else Returned (false, printf st (line "Maximum attempts reached."))
  end.

Definition login_system (fuel : nat) (st : state) : outcome (bool * state) :=
  login_loop fuel 0 st.

Definition main
    (qsort : (Student -> Student -> Z) -> list Student -> list Student)
    (fuel : nat) (st : state) : outcome state :=
  let st := set_files st (ensure_default_credentials (files st)) in
  let st := printf (clear_screen st) (line "Advanced SRMS - Fixed portable version") in
  match login_system fuel st with
  | Returned (true, st) =>
      match main_menu_dispatch qsort fuel st with
      | Returned st => Returned (printf st (line "Goodbye."))
      | OutOfFuel => OutOfFuel
      | Undefined => Undefined
      end
  | Returned (false, st) => Returned (printf st (line "Exiting..."))
  | OutOfFuel => OutOfFuel
  | Undefined => Undefined
  end.

(** ** Notions of the specification

    Definitions that follow the words of the specification, against which
    the functions above are compared. *)

(** The sum of a sequence of floats, accumulated in order from [0.0f]. *)
Definition fsum (l : list f32) : f32 := fold_left F32.add l F32.zero.

(** The grade thresholds, highest first; the first row whose threshold the
    percentage reaches gives the grade, and ["F"] is the grade when no row
    matches. *)
Definition grade_table : list (f32 * cstr) :=
  [ (F32.of_Z 90, lit "A+"); (F32.of_Z 80, lit "A"); (F32.of_Z 70, lit "B");
    (F32.of_Z 60, lit "C"); (F32.of_Z 50, lit "D") ].

Fixpoint first_match (table : list (f32 * cstr)) (p : f32) : cstr :=
  match table with
  | [] => lit "F"
  | (t, g) :: rest => if F32.geb p t then g else first_match rest p
  end.

(** ** The order on floats *)

Module F32Order.

(** The order of [SFcompare] on non-NaN values is the lexicographic
    order of a key: the class of the value, then the exponent and the
    mantissa, both negated for negative values. *)
Definition key (x : f32) : Z * Z * Z :=
  match x with
  | S754_infinity true => (-2, 0, 0)%Z
  | S754_finite true m e => (-1, - e, Zneg m)%Z
  | S754_zero _ => (0, 0, 0)%Z
  | S754_finite false m e => (1, e, Zpos m)%Z
  | S754_infinity false => (2, 0, 0)%Z
  | S754_nan => (3, 0, 0)%Z
  end.

Definition lex3 (a b : Z * Z * Z) : comparison :=
  let '(a1, a2, a3) := a in
  let '(b1, b2, b3) := b in
  match (a1 ?= b1)%Z with
  | Eq => match (a2 ?= b2)%Z with Eq => (a3 ?= b3)%Z | c => c end
  | c => c
  end.

Definition lex_lt (a b : Z * Z * Z) : Prop :=
  let '(a1, a2, a3) := a in
  let '(b1, b2, b3) := b in
  (a1 < b1 \/ (a1 = b1 /\ (a2 < b2 \/ (a2 = b2 /\ a3 < b3))))%Z.

(** The C comparisons [<] and [<=] as propositions. *)
Definition lt (x y : f32) : Prop := F32.ltb x y = true.
Definition le (x y : f32) : Prop := F32.leb x y = true.

End F32Order.

(** ** Decimal text *)

(** One step of reading a decimal number: the accumulator and the next
    digit. *)
Definition dec_step (a : Z) (c : ascii) : Z := (a * 10 + digit_val c)%Z.

(** Structural equality of floats (the sign of zero counts). *)
Definition sf_eqb (x y : spec_float) : bool :=
  match x, y with
  | S754_zero a, S754_zero b => Bool.eqb a b
  | S754_infinity a, S754_infinity b => Bool.eqb a b
  | S754_nan, S754_nan => true
  | S754_finite a m e, S754_finite b m' e' =>
      Bool.eqb a b && Pos.eqb m m' && Z.eqb e e'
  | _, _ => false
  end.

(** A mark with two decimals, [k/100] for [0 <= k <= 10000]: the value
    [scanf("%f")] gives for text such as [89.99]. *)
Definition two_decimal_mark (m : f32) : Prop :=
  exists k : Z, (0 <= k <= 10000)%Z /\ m = F32.of_centi k.

(** The text of a mark is a bar-free token that [atof] reads back. *)
Definition mark_text_ok (m : f32) : bool :=
  let t := fmt_2f m in
  negb (existsb (Ascii.eqb BAR) t)
  && match t with [] => false | _ => true end
  && sf_eqb (atof_f t) m.

(** ** Sample data *)

(** The bootstrapped store: the credential file alone, with the five
    default rows; [w] tells whether files can be opened for writing. *)
Definition boot_fs (w : bool) : filesys :=
  {| data := fun p => match p with
                      | CREDENTIAL_FILE => Some default_credentials
                      | _ => None
                      end;
     writable := fun _ => w |}.

(** A store with no file yet, where files can be created. *)
Definition empty_fs : filesys :=
  {| data := fun _ => None; writable := fun _ => true |}.

(** The store after the bootstrap, the addition of a user, and a reset of
    that user's password. *)
Definition store_after_add : filesys :=
  snd (add_credential (ensure_default_credentials empty_fs)
         (lit "alice") (lit "pw") (lit "STAFF")).

Definition store_after_reset : filesys :=
  match reset_password store_after_add (lit "alice") (lit "s3cret") with
  | Some (_, fs) => fs
  | None => store_after_add
  end.

(** The student of the end-to-end scenario: marks 90, 85 and 95. *)
Definition alice : Student :=
  {| roll := 1; name := lit "Alice";
     marks := [F32.of_Z 90; F32.of_Z 85; F32.of_Z 95];
     total := F32.zero; percentage := F32.zero; grade := [] |}.

(** A record with the marks 89.99, 50.00 and 100.00. *)
Definition bob : Student :=
  {| roll := 42; name := lit "Bob Ray";
     marks := [F32.of_centi 8999; F32.of_centi 5000; F32.of_centi 10000];
     total := F32.zero; percentage := F32.zero; grade := [] |}.

(** A record whose first mark, 85.555, has three decimals: entered at the
    prompt it is accepted by [valid_marks]. *)
Definition carol : Student :=
  calculate_student
    {| roll := 7; name := lit "Carol";
       marks := [F32.div (F32.of_Z 85555) (F32.of_Z 1000); F32.of_Z 90; F32.of_Z 95];
       total := F32.zero; percentage := F32.zero; grade := [] |}.

(** ** Notions used for the statistics and the sorting *)

(** A percentage within [0,100]. *)
Definition valid_percentage (p : f32) : bool :=
  F32.geb p F32.zero && F32.leb p (F32.of_Z 100).

(** A record that counts as a pass. *)
Definition passes (s : Student) : bool := F32.geb (percentage s) (F32.of_Z 50).

(** The percentage of the record at an index of a snapshot. *)
Definition perc_at (arr : list Student) (i : nat) : f32 :=
  percentage (nth i arr dummy_student).

(** [i] is the first index of [arr] that holds the greatest percentage. *)
Definition first_max (arr : list Student) (i : nat) : Prop :=
  (i < length arr)%nat
  /\ (forall j, (j < length arr)%nat -> F32Order.le (perc_at arr j) (perc_at arr i))
  /\ (forall j, (j < i)%nat -> F32Order.lt (perc_at arr j) (perc_at arr i)).

(** [i] is the first index of [arr] that holds the least percentage. *)
Definition first_min (arr : list Student) (i : nat) : Prop :=
  (i < length arr)%nat
  /\ (forall j, (j < length arr)%nat -> F32Order.le (perc_at arr i) (perc_at arr j))
  /\ (forall j, (j < i)%nat -> F32Order.lt (perc_at arr i) (perc_at arr j)).

(** A record with the three marks equal to [m], derived fields computed. *)
Definition uniform (r : Z) (nm : cstr) (m : Z) : Student :=
  calculate_student
    {| roll := r; name := nm; marks := [F32.of_Z m; F32.of_Z m; F32.of_Z m];
       total := F32.zero; percentage := F32.zero; grade := [] |}.

(** Three records with the percentages 40, 70 and 70. *)
Definition sample_snapshot : list Student :=
  [uniform 1 (lit "Ann") 40; uniform 2 (lit "Ben") 70; uniform 3 (lit "Cy") 70].




(** The text [feature_statistics] prints, from the values it is given. *)
Definition stats_lines (n : Z) (avg : f32) (hi lo : Student) (npass nfail : Z) : cstr :=
  [NL] ++ lit "Total Students: " ++ fmt_d n ++ [NL]
  ++ lit "Average Percentage: " ++ fmt_2f avg ++ [NL]
  ++ lit "Highest: " ++ fmt_2f (percentage hi) ++ lit " (" ++ name hi
  ++ lit ", Roll " ++ fmt_d (roll hi) ++ line ")"
  ++ lit "Lowest: " ++ fmt_2f (percentage lo) ++ lit " (" ++ name lo
  ++ lit ", Roll " ++ fmt_d (roll lo) ++ line ")"
  ++ lit "Pass Count: " ++ fmt_d npass ++ [NL]
  ++ lit "Fail Count: " ++ fmt_d nfail ++ [NL].

(** A store whose student file holds the given records. *)
Definition store_of (arr : list Student) (w : bool) : filesys :=
  {| data := fun p => match p with
                      | STUDENT_FILE => Some (concat (map write_student_to_file arr))
                      | _ => None
                      end;
     writable := fun _ => w |}.

(** A session of [user] with [role], on a terminal, with the given input
    still to be read and nothing printed yet. *)
Definition session (fs : filesys) (user role input : cstr) : state :=
  {| files := fs; stdin := input; stdout := []; currentUser := user;
     currentRole := role; clock := None; tty := true |}.

Definition sample_session : state :=
  session (store_of sample_snapshot true) (lit "principal") PRINCIPAL [].

(** Two records with the same total, in snapshot order. *)
Definition tied_pair : list Student :=
  [uniform 2 (lit "Ben") 70; uniform 3 (lit "Cy") 70].

(** A store with the sample records and an earlier export in the CSV
    file, where the report file cannot be opened for writing. *)
Definition export_store : filesys :=
  {| data := fun p => match p with
                      | STUDENT_FILE => Some (concat (map write_student_to_file sample_snapshot))
                      | CSV_FILE => Some (csv_text tied_pair)
                      | _ => None
                      end;
     writable := fun p => match p with REPORT_FILE => false | _ => true end |}.

Definition export_session : state :=
  session export_store (lit "admin") ADMIN [].

(** A store with the sample records, and a backup that holds two of
    them; every file can be opened for writing. *)
Definition backed_up_store : filesys :=
  {| data := fun p => match p with
                      | STUDENT_FILE => Some (concat (map write_student_to_file sample_snapshot))
                      | BACKUP_FILE => Some (concat (map write_student_to_file tied_pair))
                      | CREDENTIAL_FILE => Some default_credentials
                      | _ => None
                      end;
     writable := fun _ => true |}.

(** Keys typed in a guest session: Reports/Backup, Restore, the
    confirmation, Enter at the pause, Logout. *)
Definition guest_keys : cstr :=
  line "3" ++ line "3" ++ line "y" ++ [NL] ++ line "4".

Definition guest_session : state :=
  session backed_up_store (lit "guest") GUEST guest_keys.

(** The same in a principal session, where Reports/Backup is entry 4 and
    Logout entry 5. *)
Definition principal_keys : cstr :=
  line "4" ++ line "3" ++ line "y" ++ [NL] ++ line "5".

Definition principal_session : state :=
  session backed_up_store (lit "principal") PRINCIPAL principal_keys.

(** What the loop has established after the records of [arr]. *)
Definition stats_inv (arr : list Student) (r : stats) : Prop :=
  sum r = fsum (map percentage arr)
  /\ pass r = Z.of_nat (length (filter passes arr))
  /\ match arr with
     | [] => r = stats_init
     | _ =>
         maxPerc r = perc_at arr (maxIdx r) /\ first_max arr (maxIdx r)
         /\ minPerc r = perc_at arr (minIdx r) /\ first_min arr (minIdx r)
     end.

(** Two records read from a file whose marks are out of range, with the
    percentages 150 and 120. *)
Definition overrange_snapshot : list Student :=
  [uniform 1 (lit "Ann") 150; uniform 2 (lit "Ben") 120].

Definition overrange_session : state :=
  session (store_of overrange_snapshot true) (lit "principal") PRINCIPAL [].

(** ** Records that survive the student file *)

(** The record [parse_line_to_student] gives for the line written for
    [s]. *)
Definition decoded (s : Student) : option Student :=
  parse_line_to_student (write_student_to_file s).

(** A record whose line is read back as one line with its roll and name:
    the roll is an [int], the name is not empty, shorter than [MAX_NAME]
    and free of ['|'], newline and NUL, and the line fits the 512-byte
    buffer of the readers. *)
Definition line_ok (s : Student) : Prop :=
  is_int (roll s)
  /\ name s <> [] /\ ~ In BAR (name s) /\ ~ In NL (name s) /\ ~ In NUL (name s)
  /\ (length (name s) < MAX_NAME)%nat
  /\ (length (write_student_to_file s) < 512)%nat.

(** A record that is read back as it is (derived fields aside): its three
    marks have two decimals. *)
Definition storable (s : Student) : Prop :=
  line_ok s
  /\ exists m1 m2 m3,
       marks s = [m1; m2; m3]
       /\ two_decimal_mark m1 /\ two_decimal_mark m2 /\ two_decimal_mark m3.

(** The student file holds the lines of [arr] (no file, no record). *)
Definition holds_students (fs : filesys) (arr : list Student) : Prop :=
  data fs STUDENT_FILE = Some (concat (map write_student_to_file arr))
  \/ (data fs STUDENT_FILE = None /\ arr = []).

(** Bytes that neither end a line nor a C string. *)
Definition plain (c : ascii) : Prop := c <> NL /\ c <> NUL.

(** ** What a step of the program may change *)

(** From [st] to [st'] the session is the same, no file outside [ps] has
    changed, and every file can be opened for writing as before. *)
Definition touches (ps : list path) (st st' : state) : Prop :=
  currentUser st' = currentUser st
  /\ currentRole st' = currentRole st
  /\ (forall q, ~ In q ps -> data (files st') q = data (files st) q)
  /\ (forall q, writable (files st') q = writable (files st) q).


(** A session at the end of its input: nothing is left to read. *)
Definition exhausted_session (role : cstr) : state :=
  session (boot_fs true) (lit "user") role [].

(** Before the login, with the user name and the password of the default
    guest typed. *)
Definition login_session : state :=
  session (boot_fs true) [] [] (line "guest" ++ line "guest").

(** ** Authentication against a list of rows *)

(** The test of [check_credentials] on one row. *)
Definition matches (username password : cstr) (row : cred_row) : bool :=
  cstr_eqb (row_user row) username && cstr_eqb (row_pass row) password.

(** The role of the first row that matches, cut to the size of the
    caller's buffer. *)
Definition role_of (rows : list cred_row) (username password : cstr) : option cstr :=
  option_map (fun row => firstn (MAX_ROLE - 1) (row_role row))
             (find (matches username password) rows).

(** A credential store in which every row is well formed and fits the
    line buffer, with room left in the line array. *)
Definition cred_store (fs : filesys) (rows : list cred_row) : Prop :=
  file_holds fs rows
  /\ Forall row_wf rows /\ Forall row_fits rows
  /\ (length rows <= CRED_LINES)%nat.

(** The answer [yesno] takes for a yes: the first byte typed is [y] or
    [Y]. *)
Definition says_yes (c : ascii) : bool :=
  Ascii.eqb c (chr 121) || Ascii.eqb c (chr 89).
(** * Facts *)

(** ** C strings *)

Lemma cstr_eqb_eq (a b : cstr) : cstr_eqb a b = true <-> a = b.
Proof.
  unfold cstr_eqb. destruct (list_eq_dec ascii_dec a b); split; congruence.
Qed.

Lemma cstr_eqb_refl (a : cstr) : cstr_eqb a a = true.
Proof. now apply cstr_eqb_eq. Qed.


(** ** Floating-point facts *)

Module F32Facts.
Import F32Order.

(** *** Rounding never produces a NaN from a non-negative mantissa *)

Lemma shr_1_nonneg mrs : (0 <= shr_m mrs)%Z -> (0 <= shr_m (shr_1 mrs))%Z.
Proof.
  destruct mrs as [m r s]; simpl.
  destruct m as [|p|p]; [ simpl; lia | | lia ].
  intros _. destruct p; simpl; lia.
Qed.

Lemma iter_pos_preserves (A : Type) (P : A -> Prop) (f : A -> A) :
  (forall x, P x -> P (f x)) ->
  forall p x, P x -> P (iter_pos f p x).
Proof.
  intros Hf. induction p as [p IH|p IH|]; intros x Hx; simpl; auto.
Qed.

Lemma shr_nonneg mrs e n :
  (0 <= shr_m mrs)%Z -> (0 <= shr_m (fst (shr mrs e n)))%Z.
Proof.
  intros H. unfold shr. destruct n; simpl; auto.
  apply iter_pos_preserves with (P := fun x => (0 <= shr_m x)%Z); auto.
  apply shr_1_nonneg.
Qed.

Lemma shr_record_of_loc_m m l : shr_m (shr_record_of_loc m l) = m.
Proof. destruct l as [|[]]; reflexivity. Qed.

Lemma shr_fexp_nonneg prec emax m e l :
  (0 <= m)%Z -> (0 <= shr_m (fst (shr_fexp prec emax m e l)))%Z.
Proof.
  intros H. unfold shr_fexp. apply shr_nonneg.
  now rewrite shr_record_of_loc_m.
Qed.

Lemma round_nearest_even_nonneg m l :
  (0 <= m)%Z -> (0 <= round_nearest_even m l)%Z.
Proof.
  intros H. unfold round_nearest_even.
  destruct l as [|[]]; try lia. destruct (Z.even m); lia.
Qed.

Lemma binary_round_aux_not_nan prec emax sx mx ex lx :
  (0 <= mx)%Z -> binary_round_aux prec emax sx mx ex lx <> S754_nan.
Proof.
  intros H. unfold binary_round_aux.
  pose proof (shr_fexp_nonneg prec emax ex lx H) as H1.
  destruct (shr_fexp prec emax mx ex lx) as [mrs' e'] eqn:E1. simpl in H1.
  pose proof (round_nearest_even_nonneg (loc_of_shr_record mrs') H1) as H2.
  pose proof (shr_fexp_nonneg prec emax e' loc_Exact H2) as H3.
  destruct (shr_fexp prec emax (round_nearest_even _ _) e' loc_Exact)
    as [mrs'' e''] eqn:E2. simpl in H3.
  destruct (shr_m mrs'') as [|p|p]; try discriminate; try lia.
  destruct (e'' <=? emax - prec)%Z; discriminate.
Qed.

Lemma binary_round_not_nan prec emax s m e :
  binary_round prec emax s m e <> S754_nan.
Proof.
  unfold binary_round. destruct (shl_align _ _ _) as [mz ez].
  apply binary_round_aux_not_nan. lia.
Qed.

Lemma binary_normalize_not_nan prec emax m e s :
  binary_normalize prec emax m e s <> S754_nan.
Proof.
  destruct m; simpl; try discriminate; apply binary_round_not_nan.
Qed.

(** *** Operations on non-NaN operands *)

Lemma add_not_nan x y :
  F32.is_nan x = false -> F32.is_finite y = true ->
  F32.is_nan (F32.add x y) = false.
Proof.
  intros Hx Hy.
  destruct (F32.add x y) eqn:E; try reflexivity. exfalso.
  destruct x as [sx|sx| |sx mx ex]; try discriminate;
    destruct y as [sy|sy| |sy my ey]; try discriminate;
    unfold F32.add in E; simpl in E;
    try (destruct sx, sy; discriminate).
  revert E. apply binary_normalize_not_nan.
Qed.

Lemma mul_not_nan x sy my ey :
  F32.is_nan x = false ->
  F32.is_nan (F32.mul x (S754_finite sy my ey)) = false.
Proof.
  intros Hx.
  destruct (F32.mul x (S754_finite sy my ey)) eqn:E; try reflexivity. exfalso.
  destruct x as [sx|sx| |sx mx ex]; try discriminate.
  unfold F32.mul in E; simpl in E.
  revert E. apply binary_round_aux_not_nan. lia.
Qed.

Lemma div_core_nonneg prec emax m1 e1 m2 e2 :
  (0 <= fst (fst (SFdiv_core_binary prec emax (Zpos m1) e1 (Zpos m2) e2)))%Z.
Proof.
  unfold SFdiv_core_binary.
  set (s := (e1 - e2 - _)%Z).
  set (m' := match s with Zpos _ => Z.shiftl (Zpos m1) s | Z0 => Zpos m1 | Zneg _ => 0%Z end).
  assert (Hm : (0 <= m')%Z).
  { subst m'. destruct s; try lia. apply Z.shiftl_nonneg. lia. }
  pose proof (Z_div_mod m' (Zpos m2) ltac:(lia)) as Hd.
  destruct (Z.div_eucl m' (Zpos m2)) as [q r]. simpl.
  destruct Hd as [Hq Hr]. nia.
Qed.

Lemma div_not_nan x sy my ey :
  F32.is_nan x = false ->
  F32.is_nan (F32.div x (S754_finite sy my ey)) = false.
Proof.
  intros Hx.
  destruct (F32.div x (S754_finite sy my ey)) eqn:E; try reflexivity. exfalso.
  destruct x as [sx|sx| |sx mx ex]; try discriminate.
  unfold F32.div in E; simpl in E.
  pose proof (div_core_nonneg F32.prec F32.emax mx ex my ey) as Hq.
  destruct (SFdiv_core_binary _ _ _ _ _ _) as [[mz ez] lz]. simpl in Hq.
  revert E. now apply binary_round_aux_not_nan.
Qed.

(** *** The order on floats *)

Lemma pos_compare_cont_antisym (p q : positive) :
  PosDef.Pos.compare_cont Eq q p = CompOpp (PosDef.Pos.compare_cont Eq p q).
Proof. symmetry. exact (Pos.compare_cont_antisym p q Eq). Qed.

Lemma compare_antisym x y :
  SFcompare y x = option_map CompOpp (SFcompare x y).
Proof.
  destruct x as [sx|sx| |sx mx ex]; destruct y as [sy|sy| |sy my ey]; simpl;
    try reflexivity;
    try (destruct sx; try destruct sy; reflexivity).
  destruct sx, sy; simpl; try reflexivity;
    rewrite (Z.compare_antisym ex ey);
    destruct (ex ?= ey)%Z; simpl; try reflexivity;
    rewrite (pos_compare_cont_antisym mx my); simpl;
    now rewrite ?CompOpp_involutive.
Qed.

Lemma compare_not_nan x y :
  F32.is_nan x = false -> F32.is_nan y = false ->
  exists c, SFcompare x y = Some c.
Proof.
  destruct x, y; simpl; try discriminate; eauto.
Qed.

Lemma geb_false_ltb x y :
  F32.is_nan x = false -> F32.is_nan y = false ->
  F32.geb x y = false -> F32.ltb x y = true.
Proof.
  unfold F32.geb, F32.ltb, SFleb, SFltb. intros Hx Hy.
  rewrite (compare_antisym x y).
  destruct (compare_not_nan x y Hx Hy) as [c ->].
  destruct c; simpl; congruence.
Qed.

Lemma lex3_Lt a b : lex3 a b = Lt <-> lex_lt a b.
Proof.
  destruct a as [[a1 a2] a3], b as [[b1 b2] b3]; simpl.
  destruct (Z.compare_spec a1 b1); [ | intuition (congruence || lia) .. ].
  destruct (Z.compare_spec a2 b2); [ | intuition (congruence || lia) .. ].
  destruct (Z.compare_spec a3 b3); intuition (congruence || lia).
Qed.

Lemma lex3_Eq a b : lex3 a b = Eq <-> a = b.
Proof.
  destruct a as [[a1 a2] a3], b as [[b1 b2] b3]; simpl.
  destruct (Z.compare_spec a1 b1);
    [ | split; [discriminate | intros [= -> _ _]; lia] .. ].
  destruct (Z.compare_spec a2 b2);
    [ | split; [discriminate | intros [= _ -> _]; lia] .. ].
  destruct (Z.compare_spec a3 b3);
    [ | split; [discriminate | intros [= _ _ ->]; lia] .. ].
  subst. split; reflexivity.
Qed.

Lemma lex3_Gt a b : lex3 a b = Gt <-> lex_lt b a.
Proof.
  destruct a as [[a1 a2] a3], b as [[b1 b2] b3]; simpl.
  destruct (Z.compare_spec a1 b1); [ | intuition (congruence || lia) .. ].
  destruct (Z.compare_spec a2 b2); [ | intuition (congruence || lia) .. ].
  destruct (Z.compare_spec a3 b3); intuition (congruence || lia).
Qed.

Lemma compare_key x y :
  F32.is_nan x = false -> F32.is_nan y = false ->
  SFcompare x y = Some (lex3 (key x) (key y)).
Proof.
  destruct x as [sx|sx| |sx mx ex]; try discriminate;
    destruct y as [sy|sy| |sy my ey]; try discriminate; intros _ _; simpl;
    try (destruct sx; try destruct sy; reflexivity).
  destruct sx, sy; simpl; try reflexivity.
  rewrite Z.compare_opp, (Z.compare_antisym ex ey).
  destruct (ex ?= ey)%Z; reflexivity.
Qed.

Lemma lt_key x y :
  F32.is_nan x = false -> F32.is_nan y = false ->
  (lt x y <-> lex_lt (key x) (key y)).
Proof.
  intros Hx Hy. unfold lt, F32.ltb, SFltb. rewrite (compare_key x y Hx Hy).
  rewrite <- lex3_Lt. destruct (lex3 (key x) (key y)); intuition congruence.
Qed.

Lemma le_key x y :
  F32.is_nan x = false -> F32.is_nan y = false ->
  (le x y <-> lex_lt (key x) (key y) \/ key x = key y).
Proof.
  intros Hx Hy. unfold le, F32.leb, SFleb. rewrite (compare_key x y Hx Hy).
  rewrite <- lex3_Lt, <- lex3_Eq.
  destruct (lex3 (key x) (key y)); intuition congruence.
Qed.

Lemma lex_lt_trans a b c : lex_lt a b -> lex_lt b c -> lex_lt a c.
Proof.
  destruct a as [[a1 a2] a3], b as [[b1 b2] b3], c as [[c1 c2] c3]; simpl. lia.
Qed.

Lemma lex_lt_irrefl a : ~ lex_lt a a.
Proof. destruct a as [[a1 a2] a3]; simpl. lia. Qed.

Lemma lex_lt_total a b : lex_lt a b \/ a = b \/ lex_lt b a.
Proof.
  destruct a as [[a1 a2] a3], b as [[b1 b2] b3]; simpl.
  destruct (Z.lt_total a1 b1) as [|[|]]; try lia.
  destruct (Z.lt_total a2 b2) as [|[|]]; try lia.
  destruct (Z.lt_total a3 b3) as [|[|]]; try lia.
  subst. auto.
Qed.

Lemma lt_not_nan x y : lt x y -> F32.is_nan x = false /\ F32.is_nan y = false.
Proof. unfold lt, F32.ltb, SFltb. destruct x, y; simpl; auto; discriminate. Qed.

Lemma le_not_nan x y : le x y -> F32.is_nan x = false /\ F32.is_nan y = false.
Proof. unfold le, F32.leb, SFleb. destruct x, y; simpl; auto; discriminate. Qed.

Lemma lt_le_trans x y z : lt x y -> le y z -> lt x z.
Proof.
  intros H1 H2.
  destruct (lt_not_nan H1) as [Hx Hy]. destruct (le_not_nan H2) as [_ Hz].
  apply (lt_key x y Hx Hy) in H1. apply (le_key y z Hy Hz) in H2.
  apply (lt_key x z Hx Hz). destruct H2 as [H2| <-]; eauto using lex_lt_trans.
Qed.

Lemma le_lt_trans x y z : le x y -> lt y z -> lt x z.
Proof.
  intros H1 H2.
  destruct (le_not_nan H1) as [Hx Hy]. destruct (lt_not_nan H2) as [_ Hz].
  apply (le_key x y Hx Hy) in H1. apply (lt_key y z Hy Hz) in H2.
  apply (lt_key x z Hx Hz). destruct H1 as [H1| ->]; eauto using lex_lt_trans.
Qed.

Lemma le_trans x y z : le x y -> le y z -> le x z.
Proof.
  intros H1 H2.
  destruct (le_not_nan H1) as [Hx Hy]. destruct (le_not_nan H2) as [_ Hz].
  apply (le_key x y Hx Hy) in H1. apply (le_key y z Hy Hz) in H2.
  apply (le_key x z Hx Hz).
  destruct H1 as [H1| ->]; destruct H2 as [H2| <-]; eauto using lex_lt_trans.
Qed.

Lemma lt_le x y : lt x y -> le x y.
Proof.
  unfold lt, le, F32.ltb, F32.leb, SFltb, SFleb.
  destruct (SFcompare x y) as [[]|]; congruence.
Qed.

Lemma le_refl x : F32.is_nan x = false -> le x x.
Proof. intros Hx. apply (le_key x x Hx Hx). auto. Qed.

Lemma lt_irrefl x : ~ lt x x.
Proof.
  intros H. destruct (lt_not_nan H) as [Hx _].
  apply (lt_key x x Hx Hx) in H. now apply lex_lt_irrefl in H.
Qed.

Lemma not_lt_le x y :
  F32.is_nan x = false -> F32.is_nan y = false ->
  F32.ltb x y = false -> le y x.
Proof.
  intros Hx Hy H. apply (le_key y x Hy Hx).
  destruct (lex_lt_total (key x) (key y)) as [H1|[H1|H1]]; auto.
  apply (lt_key x y Hx Hy) in H1. unfold lt in H1. congruence.
Qed.

Lemma le_not_lt x y : le x y -> F32.ltb y x = false.
Proof.
  intros H. destruct (F32.ltb y x) eqn:E; auto. exfalso.
  apply (lt_irrefl (x := x)). eapply le_lt_trans; eauto.
Qed.

Lemma lt_not_le x y : lt x y -> F32.leb y x = false.
Proof.
  intros H. destruct (F32.leb y x) eqn:E; auto. exfalso.
  apply (lt_irrefl (x := x)). eapply lt_le_trans; eauto.
Qed.

Lemma valid_mark_finite m : valid_marks m = true -> F32.is_finite m = true.
Proof.
  unfold valid_marks.
  change (F32.of_Z 100) with (S754_finite false 13107200 (-17)).
  destruct m as [s|s| |s mm e]; try reflexivity.
  - destruct s; vm_compute; discriminate.
  - vm_compute; discriminate.
Qed.

Lemma finite_not_nan x : F32.is_finite x = true -> F32.is_nan x = false.
Proof. destruct x; simpl; congruence. Qed.

End F32Facts.

(** ** Derived fields *)

Lemma calculate_student_total (s : Student) :
  total (calculate_student s) =
  fsum [mark_at s 0; mark_at s 1; mark_at s 2].
Proof. reflexivity. Qed.

Lemma calculate_student_percentage (s : Student) :
  percentage (calculate_student s) =
  F32.mul (F32.div (total (calculate_student s)) (F32.of_Z 300)) (F32.of_Z 100).
Proof. reflexivity. Qed.

Lemma grade_of_first_match (p : f32) : grade_of p = first_match grade_table p.
Proof. reflexivity. Qed.

(** With valid marks neither the total nor the percentage is a NaN. *)
Lemma valid_marks_percentage_not_nan (s : Student) (m1 m2 m3 : f32) :
  marks s = [m1; m2; m3] ->
  valid_marks m1 = true -> valid_marks m2 = true -> valid_marks m3 = true ->
  F32.is_nan (percentage (calculate_student s)) = false.
Proof.
  intros Hm H1 H2 H3.
  rewrite calculate_student_percentage, calculate_student_total.
  unfold mark_at. rewrite Hm. unfold fsum. cbn [nth fold_left].
  apply F32Facts.valid_mark_finite in H1, H2, H3.
  change (F32.of_Z 100) with (S754_finite false 13107200 (-17)).
  change (F32.of_Z 300) with (S754_finite false 9830400 (-15)).
  apply F32Facts.mul_not_nan, F32Facts.div_not_nan.
  repeat (apply F32Facts.add_not_nan; [|assumption]).
  reflexivity.
Qed.

Lemma grade_F_iff (p : f32) :
  F32.is_nan p = false ->
  (grade_of p = lit "F" <-> F32.ltb p (F32.of_Z 50) = true).
Proof.
  intros Hp. split.
  - unfold grade_of.
    destruct (F32.geb p (F32.of_Z 90)); [discriminate|].
    destruct (F32.geb p (F32.of_Z 80)); [discriminate|].
    destruct (F32.geb p (F32.of_Z 70)); [discriminate|].
    destruct (F32.geb p (F32.of_Z 60)); [discriminate|].
    destruct (F32.geb p (F32.of_Z 50)) eqn:E; [discriminate|].
    intros _. now apply F32Facts.geb_false_ltb.
  - intros Hlt.
    assert (Hge : forall t, F32Order.le (F32.of_Z 50) t -> F32.geb p t = false).
    { intros t Ht. apply (F32Facts.lt_not_le (x := p) (y := t)).
      eapply F32Facts.lt_le_trans; eauto. }
    unfold grade_of.
    rewrite !Hge by reflexivity. reflexivity.
Qed.

(** C1. For a student whose three marks lie in [0,100], [calculate_student]
    sets [total] to the float sum of the marks, [percentage] to
    [total / 300 * 100], and [grade] by the first matching row of the
    threshold table (>= 90 "A+", >= 80 "A", >= 70 "B", >= 60 "C", >= 50 "D",
    otherwise "F", which is the case exactly when the percentage is below
    50); a percentage of 90.00 yields "A+", 89.99 yields "A", 50.00 yields
    "D" and 49.99 yields "F".  The other fields are left alone. *)
Theorem calculate_student_correct (s : Student) (m1 m2 m3 : f32) :
  marks s = [m1; m2; m3] ->
  valid_marks m1 = true -> valid_marks m2 = true -> valid_marks m3 = true ->
  let s' := calculate_student s in
  let p := percentage s' in
  total s' = fsum [m1; m2; m3]
  /\ p = F32.mul (F32.div (total s') (F32.of_Z 300)) (F32.of_Z 100)
  /\ grade s' = first_match grade_table p
  /\ (grade s' = lit "F" <-> F32.ltb p (F32.of_Z 50) = true)
  /\ (p = F32.of_centi 9000 -> grade s' = lit "A+")
  /\ (p = F32.of_centi 8999 -> grade s' = lit "A")
  /\ (p = F32.of_centi 5000 -> grade s' = lit "D")
  /\ (p = F32.of_centi 4999 -> grade s' = lit "F")
  /\ roll s' = roll s /\ name s' = name s /\ marks s' = marks s.
Proof.
  intros Hm H1 H2 H3 s' p.
  assert (Hg : grade s' = grade_of p) by reflexivity.
  split; [|split; [|split; [|split; [|split; [|split; [|split; [|split]]]]]]].
  - subst s'. rewrite calculate_student_total. unfold mark_at. now rewrite Hm.
  - apply calculate_student_percentage.
  - rewrite Hg. apply grade_of_first_match.
  - rewrite Hg. apply grade_F_iff.
    exact (valid_marks_percentage_not_nan s Hm H1 H2 H3).
  - intros E. rewrite Hg, E. reflexivity.
  - intros E. rewrite Hg, E. reflexivity.
  - intros E. rewrite Hg, E. reflexivity.
  - intros E. rewrite Hg, E. reflexivity.
  - repeat split.
Qed.

Lemma calculate_student_correct_witness :
  percentage (calculate_student alice) = F32.of_centi 9000
  /\ grade (calculate_student alice) = lit "A+".
Proof.
  pose proof (calculate_student_correct alice
                (m1 := F32.of_Z 90) (m2 := F32.of_Z 85) (m3 := F32.of_Z 95)
                eq_refl eq_refl eq_refl eq_refl) as H.
  split; [reflexivity|].
  apply H. reflexivity.
Defined.

(** ** The XOR transform *)

Lemma xor_byte_involutive (key c : ascii) : xor_byte key (xor_byte key c) = c.
Proof.
  destruct key, c; simpl.
  now rewrite !xorb_assoc, !xorb_nilpotent, !xorb_false_r.
Qed.

Lemma map_xor_involutive (key : ascii) (l : cstr) :
  map (xor_byte key) (map (xor_byte key) l) = l.
Proof.
  rewrite map_map. rewrite <- (map_id l) at 2.
  apply map_ext. intros c. apply xor_byte_involutive.
Qed.

Lemma XOR_BUF_pos : (0 < XOR_BUF)%nat.
Proof. unfold XOR_BUF. apply Nat.lt_0_succ. Qed.

Lemma firstn_nil_inv (A : Type) (n : nat) (l : list A) :
  (0 < n)%nat -> firstn n l = [] -> l = [].
Proof. destruct n, l; simpl; intros; try lia; congruence. Qed.

(** The chunked loop transforms every byte from [pos] on, once. *)
Lemma xor_loop_spec (key : ascii) :
  forall fuel content pos,
    (length content - pos <= fuel)%nat ->
    xor_loop fuel key content pos =
    firstn pos content ++ map (xor_byte key) (skipn pos content).
Proof.
  induction fuel as [|fuel IH]; intros content pos Hf.
  - simpl. rewrite skipn_all2 by lia. rewrite firstn_all2 by lia.
    now rewrite app_nil_r.
  - cbn [xor_loop].
    destruct (firstn XOR_BUF (skipn pos content)) as [|b buf] eqn:E.
    + apply firstn_nil_inv in E; [|apply XOR_BUF_pos].
      rewrite E. simpl. rewrite app_nil_r.
      assert (length (skipn pos content) = 0%nat) as Hl by now rewrite E.
      rewrite length_skipn in Hl. rewrite firstn_all2 by lia. reflexivity.
    + rewrite <- E. set (chunk := firstn XOR_BUF (skipn pos content)) in *.
      set (n := length chunk).
      assert (Hn : (0 < n)%nat) by (unfold n; rewrite E; simpl; lia).
      assert (Hlen : n = Nat.min XOR_BUF (length content - pos)).
      { unfold n, chunk. now rewrite length_firstn, length_skipn. }
      assert (Hle : (pos + n <= length content)%nat) by lia.
      assert (Hp : length (firstn pos content ++ map (xor_byte key) chunk)
                   = (pos + n)%nat).
      { rewrite length_app, length_firstn, length_map. fold n. lia. }
      rewrite IH.
      * rewrite app_assoc.
        rewrite firstn_app, Hp, Nat.sub_diag, firstn_O, app_nil_r.
        rewrite firstn_all2 by lia.
        rewrite skipn_app, Hp, Nat.sub_diag, skipn_O.
        rewrite (skipn_all2 (n := pos + n)) by lia. simpl.
        rewrite <- app_assoc. f_equal. rewrite <- map_app. f_equal.
        transitivity (chunk ++ skipn XOR_BUF (skipn pos content));
          [|apply firstn_skipn].
        f_equal. rewrite skipn_skipn.
        assert (Hc : (n = XOR_BUF \/ length content <= pos + n)%nat) by lia.
        destruct Hc as [->|Hc].
        -- now rewrite Nat.add_comm.
        -- rewrite !skipn_all2; auto; lia.
      * rewrite !length_app, length_firstn, length_map, length_skipn.
        fold n. lia.
Qed.

Lemma xor_loop_all (key : ascii) (content : cstr) :
  xor_loop (length content) key content 0 = map (xor_byte key) content.
Proof. rewrite xor_loop_spec by lia. reflexivity. Qed.

Lemma path_eqb_refl (p : path) : path_eqb p p = true.
Proof. destruct p; reflexivity. Qed.

Lemma path_eqb_eq (p q : path) : path_eqb p q = true <-> p = q.
Proof. destruct p, q; simpl; split; congruence. Qed.

(** One application: when the file exists and can be opened for update,
    every byte is combined with the key; otherwise nothing changes. *)
Lemma xor_file_data (fs : filesys) (p : path) (key : ascii) (q : path) :
  data (xor_file fs p key) q =
  if path_eqb q p && writable fs p
  then option_map (map (xor_byte key)) (data fs p)
  else data fs q.
Proof.
  unfold xor_file.
  destruct (data fs p) as [c|] eqn:E.
  - destruct (writable fs p); simpl.
    + rewrite xor_loop_all. destruct (path_eqb q p); reflexivity.
    + now rewrite andb_false_r.
  - destruct (path_eqb q p) eqn:Eq; simpl; auto.
    apply path_eqb_eq in Eq. subst q. rewrite E.
    now destruct (writable fs p).
Qed.

Lemma xor_file_writable (fs : filesys) (p : path) (key : ascii) (q : path) :
  writable (xor_file fs p key) q = writable fs q.
Proof.
  unfold xor_file. destruct (data fs p); [destruct (writable fs p)|]; reflexivity.
Qed.

(** C8. For every file content and every one-byte key, applying [xor_file]
    twice with the same key gives back the original bytes, and no other
    file is touched. *)
Theorem xor_file_twice (fs : filesys) (p : path) (key : ascii) :
  forall q : path,
    data (xor_file (xor_file fs p key) p key) q = data fs q
    /\ writable (xor_file (xor_file fs p key) p key) q = writable fs q.
Proof.
  intros q. split.
  - rewrite xor_file_data, xor_file_writable, !xor_file_data.
    rewrite path_eqb_refl.
    destruct (path_eqb q p) eqn:Eq; simpl; auto.
    apply path_eqb_eq in Eq. subst q.
    destruct (writable fs p); simpl; auto.
    destruct (data fs p); simpl; auto.
    now rewrite map_xor_involutive.
  - now rewrite !xor_file_writable.
Qed.

(** ** The record codec *)

(** *** Decimal integers *)

Lemma digit_cases (d : Z) :
  (0 <= d < 10)%Z ->
  d = 0%Z \/ d = 1%Z \/ d = 2%Z \/ d = 3%Z \/ d = 4%Z \/ d = 5%Z \/ d = 6%Z
  \/ d = 7%Z \/ d = 8%Z \/ d = 9%Z.
Proof. lia. Qed.

Lemma digit_chr_isdigit (d : Z) : (0 <= d < 10)%Z -> isdigit (digit_chr d) = true.
Proof.
  intros H. destruct (digit_cases H) as [->|[->|[->|[->|[->|[->|[->|[->|[->| ->]]]]]]]]];
    reflexivity.
Qed.

Lemma digit_val_chr (d : Z) : (0 <= d < 10)%Z -> digit_val (digit_chr d) = d.
Proof.
  intros H. destruct (digit_cases H) as [->|[->|[->|[->|[->|[->|[->|[->|[->| ->]]]]]]]]];
    reflexivity.
Qed.

Lemma dec_digits_isdigit :
  forall fuel n acc,
    (0 <= n)%Z -> Forall (fun c => isdigit c = true) acc ->
    Forall (fun c => isdigit c = true) (dec_digits fuel n acc).
Proof.
  induction fuel as [|fuel IH]; intros n acc Hn Hacc; cbn [dec_digits].
  - constructor; auto. apply digit_chr_isdigit. now apply Z.mod_pos_bound.
  - assert (Hd : isdigit (digit_chr (n mod 10)) = true)
      by (apply digit_chr_isdigit; now apply Z.mod_pos_bound).
    destruct (n / 10 =? 0)%Z.
    + constructor; auto.
    + apply IH; [apply Z.div_pos; lia | constructor; auto].
Qed.

Lemma dec_digits_nonempty fuel n acc : dec_digits fuel n acc <> [].
Proof.
  revert n acc. induction fuel as [|fuel IH]; intros n acc; cbn [dec_digits].
  - discriminate.
  - destruct (n / 10 =? 0)%Z; [discriminate | apply IH].
Qed.

(** Reading the digits of [n] from 0 and then [acc] is reading [acc]
    from [n]. *)
Lemma dec_digits_value :
  forall fuel n acc,
    (0 <= n < 10 ^ Z.of_nat (S fuel))%Z ->
    fold_left dec_step (dec_digits fuel n acc) 0%Z = fold_left dec_step acc n.
Proof.
  induction fuel as [|fuel IH]; intros n acc Hn; cbn [dec_digits].
  - change (10 ^ Z.of_nat 1)%Z with 10%Z in Hn.
    cbn [fold_left]. unfold dec_step at 2.
    rewrite digit_val_chr by (apply Z.mod_pos_bound; lia).
    rewrite Z.mod_small by lia. reflexivity.
  - pose proof (Z.div_mod n 10 ltac:(lia)) as Hdm.
    pose proof (Z.mod_pos_bound n 10 ltac:(lia)) as Hmod.
    destruct (n / 10 =? 0)%Z eqn:E.
    + apply Z.eqb_eq in E. cbn [fold_left]. unfold dec_step at 2.
      rewrite digit_val_chr by lia. f_equal. lia.
    + rewrite IH.
      * cbn [fold_left]. unfold dec_step at 2.
        rewrite digit_val_chr by lia. f_equal. lia.
      * split; [apply Z.div_pos; lia|].
        apply Z.div_lt_upper_bound; [lia|].
        rewrite Nat2Z.inj_succ, Z.pow_succ_r in Hn by lia. lia.
Qed.

Lemma fmt_u_bound (n : Z) :
  (0 <= n)%Z -> (0 <= n < 10 ^ Z.of_nat (S (Z.to_nat (Z.log2 n))))%Z.
Proof.
  intros Hn. split; auto.
  rewrite Nat2Z.inj_succ, Z2Nat.id by apply Z.log2_nonneg.
  destruct (Z.eq_dec n 0) as [->|Hnz]; [reflexivity|].
  pose proof (Z.log2_spec n ltac:(lia)) as [_ Hlt].
  eapply Z.lt_le_trans; [exact Hlt|].
  apply Z.pow_le_mono_l. pose proof (Z.log2_nonneg n). lia.
Qed.

Lemma span_digits_all :
  forall ds acc n,
    Forall (fun c => isdigit c = true) ds ->
    span_digits ds acc n = (fold_left dec_step ds acc, (n + length ds)%nat, []).
Proof.
  induction ds as [|c ds IH]; intros acc n H; cbn [span_digits fold_left length].
  - now rewrite Nat.add_0_r.
  - inversion H as [|? ? Hc Hds]; subst. rewrite Hc, IH by assumption.
    now rewrite Nat.add_succ_r.
Qed.

Lemma fmt_u_digits (n : Z) :
  (0 <= n)%Z -> Forall (fun c => isdigit c = true) (fmt_u n).
Proof. intros H. now apply dec_digits_isdigit. Qed.

Lemma fmt_u_value (n : Z) :
  (0 <= n)%Z -> fold_left dec_step (fmt_u n) 0%Z = n.
Proof. intros H. unfold fmt_u. rewrite dec_digits_value; auto using fmt_u_bound. Qed.

Lemma isdigit_range (c : ascii) : isdigit c = true -> (48 <= code c <= 57)%Z.
Proof.
  unfold isdigit. intros H. apply andb_true_iff in H as [H1 H2].
  apply Z.leb_le in H1, H2. lia.
Qed.

Lemma isdigit_head (c : ascii) (s : cstr) :
  isdigit c = true ->
  skip_space (c :: s) = c :: s /\ take_sign (c :: s) = (false, c :: s).
Proof.
  intros H. apply isdigit_range in H.
  cbn [skip_space take_sign]. unfold isspace.
  assert (E32 : (code c =? 32)%Z = false) by (apply Z.eqb_neq; lia).
  assert (E13 : (code c <=? 13)%Z = false) by (apply Z.leb_gt; lia).
  rewrite E32, E13, andb_false_r. cbn [orb].
  split; [reflexivity|].
  destruct (Ascii.eqb c (chr 45)) eqn:E1.
  { apply Ascii.eqb_eq in E1. subst c. change (code (chr 45)) with 45%Z in H. lia. }
  destruct (Ascii.eqb c (chr 43)) eqn:E2.
  { apply Ascii.eqb_eq in E2. subst c. change (code (chr 43)) with 43%Z in H. lia. }
  reflexivity.
Qed.

Lemma strtol_fmt_u (n : Z) :
  (0 <= n <= LONG_MAX)%Z -> strtol (fmt_u n) = Some (n, []).
Proof.
  intros Hn. pose proof (fmt_u_digits (proj1 Hn)) as Hd.
  pose proof (fmt_u_value (proj1 Hn)) as Hv.
  destruct (fmt_u n) as [|c ds] eqn:E.
  { exfalso. revert E. apply dec_digits_nonempty. }
  unfold strtol. pose proof Hd as Hd'. apply Forall_cons_iff in Hd' as [Hc _].
  destruct (@isdigit_head c ds Hc) as [-> ->].
  rewrite span_digits_all by assumption. rewrite Hv. cbn [Nat.add length].
  f_equal. f_equal. unfold LONG_MIN, LONG_MAX in *. lia.
Qed.

Lemma strtol_minus (ds : cstr) :
  strtol (chr 45 :: ds) =
  let '(v, n, rest) := span_digits ds 0 0 in
  match n with
  | O => None
  | S _ => Some (Z.max LONG_MIN (Z.min LONG_MAX (- v)), rest)
  end.
Proof. reflexivity. Qed.

Lemma strtol_fmt_neg (n : Z) :
  (0 < n <= - LONG_MIN)%Z -> strtol (lit "-" ++ fmt_u n) = Some ((- n)%Z, []).
Proof.
  intros Hn. assert (H0 : (0 <= n)%Z) by lia.
  pose proof (fmt_u_digits H0) as Hd. pose proof (fmt_u_value H0) as Hv.
  change (lit "-" ++ fmt_u n) with (chr 45 :: fmt_u n).
  rewrite strtol_minus.
  rewrite span_digits_all by assumption. rewrite Hv.
  destruct (fmt_u n) as [|c ds] eqn:E.
  { exfalso. revert E. apply dec_digits_nonempty. }
  cbn [Nat.add length]. f_equal. f_equal. unfold LONG_MIN, LONG_MAX in *. lia.
Qed.

Lemma to_int_id (z : Z) : is_int z -> to_int z = z.
Proof.
  unfold is_int, INT_MIN, INT_MAX, to_int. intros H.
  rewrite Z.mod_small; lia.
Qed.

(** [atoi] reads back what [%d] printed. *)
Lemma atoi_fmt_d (z : Z) : is_int z -> atoi (fmt_d z) = z.
Proof.
  intros Hz. pose proof Hz as Hz'. unfold is_int, INT_MIN, INT_MAX in Hz'.
  unfold atoi, fmt_d. destruct (z <? 0)%Z eqn:E.
  - apply Z.ltb_lt in E. rewrite strtol_fmt_neg.
    + rewrite Z.opp_involutive. now apply to_int_id.
    + unfold LONG_MIN. lia.
  - apply Z.ltb_ge in E. rewrite strtol_fmt_u.
    + now apply to_int_id.
    + unfold LONG_MAX. lia.
Qed.

Lemma isdigit_not_bar (c : ascii) : isdigit c = true -> c <> BAR.
Proof. intros H ->. discriminate H. Qed.

Lemma fmt_d_no_bar (z : Z) : ~ In BAR (fmt_d z).
Proof.
  assert (Hu : forall n, (0 <= n)%Z -> ~ In BAR (fmt_u n)).
  { intros n Hn Hin. pose proof (fmt_u_digits Hn) as Hd.
    rewrite Forall_forall in Hd. now apply (isdigit_not_bar (Hd _ Hin)). }
  unfold fmt_d. destruct (z <? 0)%Z eqn:E.
  - apply Z.ltb_lt in E. intros [H|H]; [discriminate H|].
    revert H. apply Hu. lia.
  - apply Z.ltb_ge in E. now apply Hu.
Qed.

Lemma fmt_d_nonempty (z : Z) : fmt_d z <> [].
Proof.
  unfold fmt_d. destruct (z <? 0)%Z; [discriminate|apply dec_digits_nonempty].
Qed.

(** *** Tokens *)

Lemma span_token_app (d : ascii) (tok rest : cstr) :
  ~ In d tok -> span_token d (tok ++ d :: rest) = (tok, rest).
Proof.
  induction tok as [|c tok IH]; intros H; cbn [app span_token].
  - now rewrite Ascii.eqb_refl.
  - destruct (Ascii.eqb c d) eqn:E.
    + apply Ascii.eqb_eq in E. subst. exfalso. apply H. now left.
    + rewrite IH; [reflexivity|]. intros Hin. apply H. now right.
Qed.

Lemma span_token_end (d : ascii) (tok : cstr) :
  ~ In d tok -> span_token d tok = (tok, []).
Proof.
  induction tok as [|c tok IH]; intros H; cbn [span_token]; [reflexivity|].
  destruct (Ascii.eqb c d) eqn:E.
  - apply Ascii.eqb_eq in E. subst. exfalso. apply H. now left.
  - rewrite IH; [reflexivity|]. intros Hin. apply H. now right.
Qed.

Lemma skip_delims_token (d : ascii) (tok rest : cstr) :
  tok <> [] -> ~ In d tok -> skip_delims d (tok ++ rest) = tok ++ rest.
Proof.
  destruct tok as [|c tok]; [congruence|]. intros _ H. cbn [app skip_delims].
  destruct (Ascii.eqb c d) eqn:E; [|reflexivity].
  apply Ascii.eqb_eq in E. subst. exfalso. apply H. now left.
Qed.

Lemma strtok_app (d : ascii) (tok rest : cstr) :
  tok <> [] -> ~ In d tok -> strtok d (tok ++ d :: rest) = Some (tok, rest).
Proof.
  intros Hne Hd. unfold strtok. rewrite skip_delims_token by assumption.
  rewrite <- (@span_token_app d tok rest Hd).
  destruct tok; [congruence|reflexivity].
Qed.

Lemma strtok_end (d : ascii) (tok : cstr) :
  tok <> [] -> ~ In d tok -> strtok d tok = Some (tok, []).
Proof.
  intros Hne Hd. unfold strtok.
  rewrite <- (app_nil_r tok) at 1. rewrite skip_delims_token by assumption.
  rewrite app_nil_r, <- (@span_token_end d tok Hd).
  destruct tok; [congruence|reflexivity].
Qed.

Lemma chomp_app_nl (s : cstr) : chomp (s ++ [NL]) = s.
Proof.
  induction s as [|c s IH]; [reflexivity|].
  cbn [app]. destruct s as [|c' s'].
  - cbn [app chomp]. reflexivity.
  - change (chomp (c :: (c' :: s') ++ [NL])) with (c :: chomp ((c' :: s') ++ [NL])).
    now rewrite IH.
Qed.

(** *** Marks *)

Lemma sf_eqb_eq (x y : spec_float) : sf_eqb x y = true -> x = y.
Proof.
  destruct x as [a|a| |a m e], y as [b|b| |b m' e']; simpl; try discriminate;
    try reflexivity.
  - intros H. apply Bool.eqb_prop in H. now subst.
  - intros H. apply Bool.eqb_prop in H. now subst.
  - intros H. apply andb_true_iff in H as [H H3]. apply andb_true_iff in H as [H1 H2].
    apply Bool.eqb_prop in H1. apply Pos.eqb_eq in H2. apply Z.eqb_eq in H3.
    now subst.
Qed.

(** Every mark with two decimals is printed as a token that reads back
    to the same float: checked on the 10001 values. *)
Lemma two_decimal_marks_table :
  forallb (fun n => mark_text_ok (F32.of_centi (Z.of_nat n))) (seq 0 (Z.to_nat 10001)) = true.
Proof. vm_compute. reflexivity. Qed.

Lemma two_decimal_mark_ok (m : f32) :
  two_decimal_mark m -> mark_text_ok m = true.
Proof.
  intros [k [Hk ->]].
  pose proof two_decimal_marks_table as H. rewrite forallb_forall in H.
  specialize (H (Z.to_nat k)). rewrite Z2Nat.id in H by lia.
  apply H. apply in_seq. lia.
Qed.

Lemma mark_text_ok_spec (m : f32) :
  mark_text_ok m = true ->
  fmt_2f m <> [] /\ ~ In BAR (fmt_2f m) /\ atof_f (fmt_2f m) = m.
Proof.
  unfold mark_text_ok. intros H.
  apply andb_true_iff in H as [H H3]. apply andb_true_iff in H as [H1 H2].
  split; [|split].
  - destruct (fmt_2f m); [discriminate H2|discriminate].
  - intros Hin. apply negb_true_iff in H1.
    assert (existsb (Ascii.eqb BAR) (fmt_2f m) = true); [|congruence].
    apply existsb_exists. exists BAR. split; [assumption | apply Ascii.eqb_refl].
  - now apply sf_eqb_eq.
Qed.

(** *** Decoding an encoded line *)

Lemma parse_marks_three (m1 m2 m3 : f32) :
  mark_text_ok m1 = true -> mark_text_ok m2 = true -> mark_text_ok m3 = true ->
  parse_marks SUBJECTS (fmt_2f m1 ++ BAR :: fmt_2f m2 ++ BAR :: fmt_2f m3)
  = [m1; m2; m3].
Proof.
  intros H1 H2 H3.
  apply mark_text_ok_spec in H1 as [N1 [B1 A1]].
  apply mark_text_ok_spec in H2 as [N2 [B2 A2]].
  apply mark_text_ok_spec in H3 as [N3 [B3 A3]].
  unfold SUBJECTS. cbn [parse_marks].
  rewrite strtok_app by assumption. rewrite strtok_app by assumption.
  rewrite strtok_end by assumption.
  now rewrite A1, A2, A3.
Qed.

Lemma write_student_to_file_eq (s : Student) (m1 m2 m3 : f32) :
  marks s = [m1; m2; m3] ->
  write_student_to_file s =
  (fmt_d (roll s) ++ BAR :: name s ++ BAR ::
     (fmt_2f m1 ++ BAR :: fmt_2f m2 ++ BAR :: fmt_2f m3)) ++ [NL].
Proof.
  intros Hm. unfold write_student_to_file, mark_at. rewrite Hm.
  unfold SUBJECTS. cbn [seq map concat nth].
  change (lit "|") with [BAR].
  repeat (rewrite <- ?app_assoc; cbn [app]). reflexivity.
Qed.

Lemma decode_encode_fields (s : Student) (m1 m2 m3 : f32) :
  is_int (roll s) ->
  name s <> [] -> ~ In BAR (name s) -> (length (name s) < MAX_NAME)%nat ->
  marks s = [m1; m2; m3] ->
  mark_text_ok m1 = true -> mark_text_ok m2 = true -> mark_text_ok m3 = true ->
  parse_line_to_student (write_student_to_file s) = Some (calculate_student s).
Proof.
  intros Hr Hn Hb Hl Hm H1 H2 H3.
  rewrite (write_student_to_file_eq s Hm).
  unfold parse_line_to_student. rewrite chomp_app_nl.
  rewrite strtok_app by auto using fmt_d_nonempty, fmt_d_no_bar.
  rewrite strtok_app by assumption.
  rewrite parse_marks_three by assumption.
  rewrite atoi_fmt_d by assumption.
  rewrite firstn_all2 by (unfold MAX_NAME in *; lia).
  unfold calculate_student, mark_at. cbn [roll name marks]. now rewrite Hm.
Qed.

Lemma calculate_student_idem (s : Student) :
  calculate_student (calculate_student s) = calculate_student s.
Proof. reflexivity. Qed.

(** C2, amended. For a student with a roll in the range of [int], a
    non-empty name shorter than [MAX_NAME] that holds no ['|'], and three
    marks in [0,100] with two decimals, decoding the encoded line of the
    record with recomputed derived fields succeeds and gives that record
    back. *)
Theorem decode_encode_roundtrip (s : Student) (m1 m2 m3 : f32) :
  is_int (roll s) ->
  name s <> [] -> ~ In BAR (name s) -> (length (name s) < MAX_NAME)%nat ->
  marks s = [m1; m2; m3] ->
  two_decimal_mark m1 -> two_decimal_mark m2 -> two_decimal_mark m3 ->
  let s' := calculate_student s in
  parse_line_to_student (write_student_to_file s') = Some s'.
Proof.
  intros Hr Hn Hb Hl Hm H1 H2 H3. cbv zeta.
  change (Some (calculate_student s))
    with (Some (calculate_student (calculate_student s))).
  apply (@decode_encode_fields (calculate_student s) m1 m2 m3);
    auto using two_decimal_mark_ok.
Qed.

Lemma decode_encode_roundtrip_witness :
  parse_line_to_student (lit "42|Bob Ray|89.99|50.00|100.00" ++ [NL])
  = Some (calculate_student bob).
Proof.
  refine (@decode_encode_roundtrip bob
            (F32.of_centi 8999) (F32.of_centi 5000) (F32.of_centi 10000)
            _ _ _ _ eq_refl _ _ _).
  - unfold is_int, INT_MIN, INT_MAX. simpl. lia.
  - discriminate.
  - simpl. intros H. repeat (destruct H as [H|H]; [discriminate H|]). exact H.
  - simpl. unfold MAX_NAME. lia.
  - exists 8999%Z. split; [lia|reflexivity].
  - exists 5000%Z. split; [lia|reflexivity].
  - exists 10000%Z. split; [lia|reflexivity].
Defined.

(** C2 as stated fails: a valid record whose encoded line decodes to a
    different record, the mark having been printed with two decimals. *)
Lemma decode_encode_counterexample :
  is_int (roll carol)
  /\ valid_name (name carol) = true
  /\ forallb valid_marks (marks carol) = true
  /\ calculate_student carol = carol
  /\ write_student_to_file carol = lit "7|Carol|85.56|90.00|95.00" ++ [NL]
  /\ parse_line_to_student (write_student_to_file carol) <> Some carol.
Proof.
  split; [|split; [|split; [|split; [|split]]]].
  - unfold is_int, INT_MIN, INT_MAX. simpl. lia.
  - reflexivity.
  - vm_compute. reflexivity.
  - reflexivity.
  - vm_compute. reflexivity.
  - intros H.
    apply (f_equal (option_map (fun s => sf_eqb (mark_at s 0) (mark_at carol 0)))) in H.
    vm_compute in H. discriminate H.
Qed.

(** ** The credential store *)

Lemma fs_put_same (fs : filesys) (p : path) (c : cstr) :
  data (fs_put fs p c) p = Some c.
Proof. simpl. now rewrite path_eqb_refl. Qed.

Lemma fs_put_other (fs : filesys) (p q : path) (c : cstr) :
  q <> p -> data (fs_put fs p c) q = data fs q.
Proof.
  intros H. simpl. destruct (path_eqb q p) eqn:E; auto.
  apply path_eqb_eq in E. congruence.
Qed.

(** Writing a list of texts in turn to a file just opened by [fopen_w]. *)
Lemma fold_fs_write (p : path) (texts : list cstr) :
  forall fs c,
    data fs p = Some c ->
    let fs' := fold_left (fun f l => fs_write f p l) texts fs in
    data fs' p = Some (c ++ concat texts)
    /\ (forall q, q <> p -> data fs' q = data fs q)
    /\ (forall q, writable fs' q = writable fs q).
Proof.
  induction texts as [|t texts IH]; intros fs c Hc; cbn [fold_left concat].
  - rewrite app_nil_r. auto.
  - assert (Hw : data (fs_write fs p t) p = Some (c ++ t)).
    { unfold fs_write. rewrite Hc. apply fs_put_same. }
    destruct (IH _ _ Hw) as [H1 [H2 H3]]. cbv zeta in *.
    rewrite H1, <- app_assoc. split; [reflexivity|]. split.
    + intros q Hq. rewrite (H2 q Hq). unfold fs_write. rewrite Hc.
      now apply fs_put_other.
    + intros q. rewrite H3. unfold fs_write. rewrite Hc. reflexivity.
Qed.

Lemma rewrite_credentials_ok (fs : filesys) (lines : list cstr) :
  writable fs CREDENTIAL_FILE = true ->
  exists fs',
    rewrite_credentials fs lines = (true, fs')
    /\ data fs' CREDENTIAL_FILE = Some (concat lines)
    /\ (forall q, q <> CREDENTIAL_FILE -> data fs' q = data fs q)
    /\ (forall q, writable fs' q = writable fs q).
Proof.
  intros Hw. unfold rewrite_credentials, fopen_w. rewrite Hw.
  eexists. split; [reflexivity|].
  destruct (@fold_fs_write CREDENTIAL_FILE lines
              (fs_put fs CREDENTIAL_FILE []) [] (fs_put_same _ _ _))
    as [H1 [H2 H3]].
  cbv zeta in *. split; [exact H1|]. split.
  - intros q Hq. rewrite (H2 q Hq). now apply fs_put_other.
  - intros q. now rewrite H3.
Qed.

Lemma rewrite_credentials_denied (fs : filesys) (lines : list cstr) :
  writable fs CREDENTIAL_FILE = false -> rewrite_credentials fs lines = (false, fs).
Proof. intros Hw. unfold rewrite_credentials, fopen_w. now rewrite Hw. Qed.

(** *** The loops, in terms of the rows read *)

Lemma reset_loop_rows (user newpass : cstr) :
  forall fuel stream n,
    (n <= CRED_LINES)%nat ->
    reset_loop fuel stream user newpass n =
    if (n + length (cred_rows fuel stream) <=? CRED_LINES)%nat
    then Some (map (reset_line user newpass) (cred_rows fuel stream),
               existsb (fun row => cstr_eqb (row_user row) user)
                       (cred_rows fuel stream))
    else None.
Proof.
  induction fuel as [|fuel IH]; intros stream n Hn; cbn [reset_loop cred_rows].
  - cbn [length map existsb]. rewrite Nat.add_0_r.
    apply Nat.leb_le in Hn. now rewrite Hn.
  - destruct (fscanf_row stream) as [[[[u p] r] rest]|].
    + cbn [length map existsb].
      destruct (CRED_LINES <=? n)%nat eqn:E.
      * apply Nat.leb_le in E.
        assert (E' : (n + S (length (cred_rows fuel rest)) <=? CRED_LINES)%nat = false)
          by (apply Nat.leb_gt; lia).
        now rewrite E'.
      * apply Nat.leb_gt in E. rewrite IH by lia.
        rewrite Nat.add_succ_r. cbn [Nat.add].
        destruct (S (n + length (cred_rows fuel rest)) <=? CRED_LINES)%nat;
          [|reflexivity].
        unfold reset_line, row_user, row_pass, row_role. cbn [fst snd].
        destruct (cstr_eqb u user); reflexivity.
    + cbn [length map existsb]. rewrite Nat.add_0_r.
      apply Nat.leb_le in Hn. now rewrite Hn.
Qed.

Lemma remove_loop_rows (user : cstr) :
  forall fuel stream n,
    (n <= CRED_LINES)%nat ->
    remove_loop fuel stream user n =
    if (n + length (filter (keeps user) (cred_rows fuel stream)) <=? CRED_LINES)%nat
    then Some (map (fun row => snprintf_line (row_user row) (row_pass row) (row_role row))
                   (filter (keeps user) (cred_rows fuel stream)),
               existsb (fun row => cstr_eqb (row_user row) user)
                       (cred_rows fuel stream))
    else None.
Proof.
  induction fuel as [|fuel IH]; intros stream n Hn; cbn [remove_loop cred_rows].
  - cbn [filter length map existsb]. rewrite Nat.add_0_r.
    apply Nat.leb_le in Hn. now rewrite Hn.
  - destruct (fscanf_row stream) as [[[[u p] r] rest]|].
    + cbn [filter existsb].
      change (keeps user (u, p, r)) with (negb (cstr_eqb u user)).
      change (row_user (u, p, r)) with u.
      destruct (cstr_eqb u user) eqn:Eu; cbn [negb orb].
      * rewrite IH by assumption.
        destruct (n + length (filter (keeps user) (cred_rows fuel rest)) <=? CRED_LINES)%nat;
          reflexivity.
      * cbn [length map].
        destruct (CRED_LINES <=? n)%nat eqn:E.
        -- apply Nat.leb_le in E.
           assert (E' : (n + S (length (filter (keeps user) (cred_rows fuel rest)))
                         <=? CRED_LINES)%nat = false)
             by (apply Nat.leb_gt; lia).
           now rewrite E'.
        -- apply Nat.leb_gt in E. rewrite IH by lia.
           rewrite Nat.add_succ_r. cbn [Nat.add].
           destruct (S (n + length (filter (keeps user) (cred_rows fuel rest)))
                     <=? CRED_LINES)%nat; reflexivity.
    + cbn [filter length map existsb]. rewrite Nat.add_0_r.
      apply Nat.leb_le in Hn. now rewrite Hn.
Qed.

Lemma snprintf_line_fits (row : cred_row) :
  row_fits row ->
  snprintf_line (row_user row) (row_pass row) (row_role row) = row_line row.
Proof.
  unfold row_fits, snprintf_line, row_line. intros H.
  apply firstn_all2. lia.
Qed.

Lemma reset_line_set_pass (user newpass : cstr) (row : cred_row) :
  row_fits (set_pass user newpass row) ->
  reset_line user newpass row = row_line (set_pass user newpass row).
Proof.
  intros H. rewrite <- (snprintf_line_fits H).
  unfold reset_line, set_pass. destruct row as [[u p] r].
  unfold row_user, row_pass, row_role. cbn [fst snd].
  destruct (cstr_eqb u user); reflexivity.
Qed.

Lemma reset_password_eq (fs : filesys) (user newpass : cstr) :
  (length (file_rows fs) <= CRED_LINES)%nat ->
  reset_password fs user newpass =
  Some (if has_user user (file_rows fs)
        then rewrite_credentials fs (map (reset_line user newpass) (file_rows fs))
        else (false, fs)).
Proof.
  unfold file_rows, reset_password, has_user.
  destruct (fopen_r fs CREDENTIAL_FILE) as [c|]; [|reflexivity].
  intros Hn. rewrite reset_loop_rows by lia. cbn [Nat.add].
  apply Nat.leb_le in Hn. rewrite Hn.
  destruct (existsb _ _); reflexivity.
Qed.

Lemma remove_credential_eq (fs : filesys) (user : cstr) :
  (length (filter (keeps user) (file_rows fs)) <= CRED_LINES)%nat ->
  remove_credential fs user =
  Some (if has_user user (file_rows fs)
        then rewrite_credentials fs
               (map (fun row => snprintf_line (row_user row) (row_pass row) (row_role row))
                    (filter (keeps user) (file_rows fs)))
        else (false, fs)).
Proof.
  unfold file_rows, remove_credential, has_user.
  destruct (fopen_r fs CREDENTIAL_FILE) as [c|]; [|reflexivity].
  intros Hn. rewrite remove_loop_rows by lia. cbn [Nat.add].
  apply Nat.leb_le in Hn. rewrite Hn.
  destruct (existsb _ _); reflexivity.
Qed.

(** The credential file after [reset_password], within the capacity of
    its buffers. *)
Lemma reset_password_data (fs : filesys) (user newpass : cstr) :
  (length (file_rows fs) <= CRED_LINES)%nat ->
  Forall row_fits (map (set_pass user newpass) (file_rows fs)) ->
  exists (ok : bool) (fs' : filesys),
    reset_password fs user newpass = Some (ok, fs')
    /\ ok = has_user user (file_rows fs) && writable fs CREDENTIAL_FILE
    /\ data fs' CREDENTIAL_FILE =
         (if ok
          then Some (render (map (set_pass user newpass) (file_rows fs)))
          else data fs CREDENTIAL_FILE).
Proof.
  intros Hn Hfit. rewrite reset_password_eq by assumption.
  destruct (has_user user (file_rows fs)); [|now exists false, fs].
  destruct (writable fs CREDENTIAL_FILE) eqn:Hw.
  - destruct (rewrite_credentials_ok fs
                (map (reset_line user newpass) (file_rows fs)) Hw)
      as [fs' [E [Hd _]]].
    exists true, fs'. split; [now rewrite E|]. split; [reflexivity|].
    rewrite Hd. unfold render. f_equal. f_equal. rewrite map_map.
    apply map_ext_in. intros row Hin. apply reset_line_set_pass.
    rewrite Forall_forall in Hfit. apply Hfit. now apply in_map.
  - exists false, fs. now rewrite rewrite_credentials_denied.
Qed.

(** The credential file after [remove_credential], within the capacity
    of its buffers. *)
Lemma remove_credential_data (fs : filesys) (user : cstr) :
  (length (filter (keeps user) (file_rows fs)) <= CRED_LINES)%nat ->
  Forall row_fits (filter (keeps user) (file_rows fs)) ->
  exists (ok : bool) (fs' : filesys),
    remove_credential fs user = Some (ok, fs')
    /\ ok = has_user user (file_rows fs) && writable fs CREDENTIAL_FILE
    /\ data fs' CREDENTIAL_FILE =
         (if ok
          then Some (render (filter (keeps user) (file_rows fs)))
          else data fs CREDENTIAL_FILE).
Proof.
  intros Hn Hfit. rewrite remove_credential_eq by assumption.
  destruct (has_user user (file_rows fs)); [|now exists false, fs].
  destruct (writable fs CREDENTIAL_FILE) eqn:Hw.
  - destruct (rewrite_credentials_ok fs
                (map (fun row => snprintf_line (row_user row) (row_pass row) (row_role row))
                     (filter (keeps user) (file_rows fs))) Hw)
      as [fs' [E [Hd _]]].
    exists true, fs'. split; [now rewrite E|]. split; [reflexivity|].
    rewrite Hd. unfold render. f_equal. f_equal.
    apply map_ext_in. intros row Hin. apply snprintf_line_fits.
    rewrite Forall_forall in Hfit. now apply Hfit.
  - exists false, fs. now rewrite rewrite_credentials_denied.
Qed.

(** C9, amended. When the credential file holds at most 1024 rows and
    every row, with the new password where it applies, fits the line
    buffer: if a row with the user name exists and the file can be
    reopened for writing, [reset_password] succeeds and the file becomes
    its rows in their order, one per line, with the new password in the
    rows of that user and every other row unchanged; otherwise it fails
    and the file is unchanged.  No other file is touched. *)
Theorem reset_password_frame (fs : filesys) (user newpass : cstr) :
  (length (file_rows fs) <= CRED_LINES)%nat ->
  Forall row_fits (map (set_pass user newpass) (file_rows fs)) ->
  exists (ok : bool) (fs' : filesys),
    reset_password fs user newpass = Some (ok, fs')
    /\ ok = has_user user (file_rows fs) && writable fs CREDENTIAL_FILE
    /\ data fs' CREDENTIAL_FILE =
         (if ok
          then Some (concat (map row_line (map (set_pass user newpass) (file_rows fs))))
          else data fs CREDENTIAL_FILE)
    /\ (forall q, q <> CREDENTIAL_FILE -> data fs' q = data fs q)
    /\ (forall q, writable fs' q = writable fs q).
Proof.
  intros Hn Hfit. rewrite reset_password_eq by assumption.
  destruct (has_user user (file_rows fs)) eqn:Hfound; cbn [andb].
  - destruct (writable fs CREDENTIAL_FILE) eqn:Hw.
    + destruct (rewrite_credentials_ok fs
                  (map (reset_line user newpass) (file_rows fs)) Hw)
        as [fs' [E [Hd [Ho Hwr]]]].
      exists true, fs'. rewrite E. repeat split; auto.
      rewrite Hd. f_equal. f_equal. rewrite map_map.
      apply map_ext_in. intros row Hin. apply reset_line_set_pass.
      rewrite Forall_forall in Hfit. apply Hfit. now apply in_map.
    + exists false, fs. rewrite rewrite_credentials_denied by assumption.
      repeat split; auto.
  - exists false, fs. repeat split; auto.
Qed.

(** C10, amended. When the rows kept number at most 1024 and each fits
    the line buffer: [remove_credential] succeeds exactly when some row
    has the user name and the file can be reopened for writing; the file
    then becomes the rows of the other users, all of them, in their
    order; otherwise the file is unchanged.  No other file is touched. *)
Theorem remove_credential_frame (fs : filesys) (user : cstr) :
  (length (filter (keeps user) (file_rows fs)) <= CRED_LINES)%nat ->
  Forall row_fits (filter (keeps user) (file_rows fs)) ->
  exists (ok : bool) (fs' : filesys),
    remove_credential fs user = Some (ok, fs')
    /\ ok = has_user user (file_rows fs) && writable fs CREDENTIAL_FILE
    /\ data fs' CREDENTIAL_FILE =
         (if ok
          then Some (concat (map row_line (filter (keeps user) (file_rows fs))))
          else data fs CREDENTIAL_FILE)
    /\ (forall q, q <> CREDENTIAL_FILE -> data fs' q = data fs q)
    /\ (forall q, writable fs' q = writable fs q).
Proof.
  intros Hn Hfit. rewrite remove_credential_eq by assumption.
  destruct (has_user user (file_rows fs)) eqn:Hfound; cbn [andb].
  - destruct (writable fs CREDENTIAL_FILE) eqn:Hw.
    + destruct (rewrite_credentials_ok fs
                  (map (fun row => snprintf_line (row_user row) (row_pass row) (row_role row))
                       (filter (keeps user) (file_rows fs))) Hw)
        as [fs' [E [Hd [Ho Hwr]]]].
      exists true, fs'. rewrite E. repeat split; auto.
      rewrite Hd. f_equal. f_equal.
      apply map_ext_in. intros row Hin. apply snprintf_line_fits.
      rewrite Forall_forall in Hfit. now apply Hfit.
    + exists false, fs. rewrite rewrite_credentials_denied by assumption.
      repeat split; auto.
  - exists false, fs. repeat split; auto.
Qed.

Lemma default_rows :
  file_rows (boot_fs true) =
  [ (lit "admin", lit "admin", lit "ADMIN");
    (lit "staff", lit "staff", lit "STAFF");
    (lit "guest", lit "guest", lit "GUEST");
    (lit "principal", lit "principal", lit "PRINCIPAL");
    (lit "student", lit "student", lit "STUDENT") ].
Proof. vm_compute. reflexivity. Qed.

(** ** Reading back a written credential file *)

Lemma skip_space_nonspace (c : ascii) (s : cstr) :
  isspace c = false -> skip_space (c :: s) = c :: s.
Proof. intros H. cbn [skip_space]. now rewrite H. Qed.

Lemma span_word_token (t rest : cstr) (sp : ascii) :
  forall w,
    (length t <= w)%nat ->
    Forall (fun c => isspace c = false /\ c <> NUL) t ->
    isspace sp = true ->
    span_word w (t ++ sp :: rest) = (t, sp :: rest).
Proof.
  induction t as [|c t IH]; intros w Hl Ht Hsp.
  - cbn [app]. destruct w; cbn [span_word]; [reflexivity|]. now rewrite Hsp.
  - cbn [length] in Hl. destruct w as [|w]; [lia|].
    apply Forall_cons_iff in Ht as [[Hc _] Ht].
    cbn [app span_word]. rewrite Hc, (IH w) by (auto; lia). reflexivity.
Qed.

Lemma until_nul_id (t : cstr) :
  Forall (fun c => isspace c = false /\ c <> NUL) t -> until_nul t = t.
Proof.
  induction t as [|c t IH]; intros H; [reflexivity|].
  apply Forall_cons_iff in H as [[_ Hc] Ht]. cbn [until_nul].
  destruct (Ascii.eqb c NUL) eqn:E.
  - apply Ascii.eqb_eq in E. contradiction.
  - now rewrite IH.
Qed.

Lemma scan_s_token (w : nat) (t rest : cstr) (sp : ascii) :
  token w t -> isspace sp = true ->
  scan_s w (t ++ sp :: rest) = Some (t, sp :: rest).
Proof.
  intros [Hne [Hl Ht]] Hsp. unfold scan_s.
  destruct t as [|c t]; [congruence|].
  pose proof Ht as Ht'. apply Forall_cons_iff in Ht' as [[Hc _] _].
  change ((c :: t) ++ sp :: rest) with (c :: (t ++ sp :: rest)).
  rewrite skip_space_nonspace by assumption.
  change (c :: (t ++ sp :: rest)) with ((c :: t) ++ sp :: rest).
  rewrite span_word_token by assumption.
  now rewrite until_nul_id.
Qed.

Lemma scan_s_skip (w : nat) (sp : ascii) (s : cstr) :
  isspace sp = true -> scan_s w (sp :: s) = scan_s w s.
Proof. intros H. unfold scan_s. cbn [skip_space]. now rewrite H. Qed.

Lemma fscanf_row_skip (sp : ascii) (s : cstr) :
  isspace sp = true -> fscanf_row (sp :: s) = fscanf_row s.
Proof. intros H. unfold fscanf_row. now rewrite scan_s_skip. Qed.

Lemma fscanf_row_line (row : cred_row) (rest : cstr) :
  row_wf row -> fscanf_row (row_line row ++ rest) = Some (row, NL :: rest).
Proof.
  destruct row as [[u p] r]. unfold row_wf, row_line, row_user, row_pass, row_role.
  cbn [fst snd]. intros [Hu [Hp Hr]].
  unfold cred_line. change (lit " ") with [chr 32].
  repeat (rewrite <- ?app_assoc; cbn [app]).
  unfold fscanf_row.
  rewrite scan_s_token by (auto; reflexivity).
  rewrite scan_s_skip by reflexivity.
  rewrite scan_s_token by (auto; reflexivity).
  rewrite scan_s_skip by reflexivity.
  rewrite scan_s_token by (auto; reflexivity).
  reflexivity.
Qed.

Lemma row_line_length (row : cred_row) : (2 <= length (row_line row))%nat.
Proof.
  unfold row_line, cred_line. change (lit " ") with [chr 32].
  rewrite !length_app. cbn [length]. lia.
Qed.

Lemma cred_rows_render :
  forall rows fuel,
    Forall row_wf rows ->
    ((length (render rows) <= fuel)%nat -> cred_rows fuel (render rows) = rows)
    /\ ((S (length (render rows)) <= fuel)%nat ->
        cred_rows fuel (NL :: render rows) = rows).
Proof.
  induction rows as [|row rows IH]; intros fuel Hwf.
  - split; intros _; destruct fuel; reflexivity.
  - apply Forall_cons_iff in Hwf as [Hrow Hwf].
    unfold render in *. cbn [map concat]. rewrite length_app.
    pose proof (row_line_length row) as Hpos.
    split; intros Hf; (destruct fuel as [|fuel]; [lia|]); cbn [cred_rows].
    + rewrite fscanf_row_line by assumption. f_equal.
      apply IH; [assumption | lia].
    + rewrite fscanf_row_skip by reflexivity.
      rewrite fscanf_row_line by assumption. f_equal.
      apply IH; [assumption | lia].
Qed.

Lemma file_rows_render (fs : filesys) (rows : list cred_row) :
  data fs CREDENTIAL_FILE = Some (render rows) ->
  Forall row_wf rows ->
  file_rows fs = rows.
Proof.
  intros Hd Hwf. unfold file_rows, fopen_r. rewrite Hd.
  now apply cred_rows_render.
Qed.

Lemma file_holds_rows (fs : filesys) (rows : list cred_row) :
  file_holds fs rows -> Forall row_wf rows -> file_rows fs = rows.
Proof.
  intros [H|[H ->]] Hwf.
  - now apply file_rows_render.
  - unfold file_rows, fopen_r. now rewrite H.
Qed.

Lemma has_user_false (user : cstr) (rows : list cred_row) :
  has_user user rows = false -> ~ In user (map row_user rows).
Proof.
  unfold has_user. intros H Hin. apply in_map_iff in Hin as [row [<- Hin]].
  assert (existsb (fun r => cstr_eqb (row_user r) (row_user row)) rows = true);
    [|congruence].
  apply existsb_exists. exists row. split; [assumption|apply cstr_eqb_refl].
Qed.

Lemma render_app (rows1 rows2 : list cred_row) :
  render (rows1 ++ rows2) = render rows1 ++ render rows2.
Proof. unfold render. now rewrite map_app, concat_app. Qed.

Lemma set_pass_user (user newpass : cstr) (row : cred_row) :
  row_user (set_pass user newpass row) = row_user row.
Proof. unfold set_pass. destruct (cstr_eqb (row_user row) user); reflexivity. Qed.

Lemma set_pass_wf (user newpass : cstr) (row : cred_row) :
  token 127 newpass -> row_wf row -> row_wf (set_pass user newpass row).
Proof.
  intros Hn [Hu [Hp Hr]]. unfold set_pass.
  destruct (cstr_eqb (row_user row) user); unfold row_wf; auto.
Qed.

Lemma NoDup_map_filter (A B : Type) (f : A -> B) (g : A -> bool) (l : list A) :
  NoDup (map f l) -> NoDup (map f (filter g l)).
Proof.
  induction l as [|a l IH]; intros H; cbn [filter map] in *; [constructor|].
  apply NoDup_cons_iff in H as [Hn Hd]. destruct (g a); cbn [map]; auto.
  constructor; auto. intros Hin. apply Hn.
  apply in_map_iff in Hin as [x [Hx Hin]]. apply filter_In in Hin as [Hin _].
  apply in_map_iff. eauto.
Qed.

Lemma Forall_filter (A : Type) (P : A -> Prop) (g : A -> bool) (l : list A) :
  Forall P l -> Forall P (filter g l).
Proof.
  rewrite !Forall_forall. intros H x Hin. apply filter_In in Hin as [Hin _]. auto.
Qed.

Lemma default_credentials_render :
  default_credentials =
  render [ (lit "admin", lit "admin", lit "ADMIN");
           (lit "staff", lit "staff", lit "STAFF");
           (lit "guest", lit "guest", lit "GUEST");
           (lit "principal", lit "principal", lit "PRINCIPAL");
           (lit "student", lit "student", lit "STUDENT") ].
Proof. reflexivity. Qed.

Lemma tokenb_ok (w : nat) (t : cstr) : tokenb w t = true -> token w t.
Proof.
  unfold tokenb, token. intros H.
  apply andb_true_iff in H as [H H3]. apply andb_true_iff in H as [H1 H2].
  split; [|split].
  - intros ->. discriminate H1.
  - now apply Nat.leb_le.
  - rewrite forallb_forall in H3. apply Forall_forall. intros c Hin.
    specialize (H3 c Hin). apply andb_true_iff in H3 as [Ha Hb].
    apply negb_true_iff in Ha, Hb. split; [assumption|].
    intros ->. now rewrite Ascii.eqb_refl in Hb.
Qed.

Lemma row_wfb_ok (row : cred_row) : row_wfb row = true -> row_wf row.
Proof.
  unfold row_wfb, row_wf. intros H.
  apply andb_true_iff in H as [H H3]. apply andb_true_iff in H as [H1 H2].
  auto using tokenb_ok.
Qed.

Lemma row_fitsb_ok (row : cred_row) : row_fitsb row = true -> row_fits row.
Proof. unfold row_fitsb, row_fits. apply Nat.ltb_lt. Qed.

Lemma forallb_Forall (A : Type) (f : A -> bool) (P : A -> Prop) (l : list A) :
  (forall x, f x = true -> P x) -> forallb f l = true -> Forall P l.
Proof.
  intros Hf H. rewrite forallb_forall in H. apply Forall_forall. auto.
Qed.

Lemma nodupb_ok (l : list cstr) : nodupb l = true -> NoDup l.
Proof.
  induction l as [|x l IH]; intros H; [constructor|].
  cbn [nodupb] in H. apply andb_true_iff in H as [H1 H2].
  constructor; auto. intros Hin. apply negb_true_iff in H1.
  assert (existsb (cstr_eqb x) l = true); [|congruence].
  apply existsb_exists. exists x. split; [assumption|apply cstr_eqb_refl].
Qed.

Lemma boot_inv (fs0 : filesys) :
  data fs0 CREDENTIAL_FILE = None -> store_inv (ensure_default_credentials fs0).
Proof.
  intros H0. unfold ensure_default_credentials, fopen_r, fopen_w. rewrite H0.
  destruct (writable fs0 CREDENTIAL_FILE).
  - eexists. split; [|split; [|split; [|split]]].
    + left. unfold fs_write. rewrite fs_put_same. rewrite fs_put_same.
      cbn [app]. f_equal. apply default_credentials_render.
    + apply forallb_Forall with (f := row_wfb); [exact row_wfb_ok|].
      vm_compute. reflexivity.
    + apply forallb_Forall with (f := row_fitsb); [exact row_fitsb_ok|].
      vm_compute. reflexivity.
    + apply Nat.leb_le. vm_compute. reflexivity.
    + apply nodupb_ok. vm_compute. reflexivity.
  - exists []. split; [right; auto|].
    split; [constructor|]. split; [constructor|].
    split; [apply Nat.le_0_l|constructor].
Qed.

Lemma step_inv (fs fs' : filesys) (op : cred_op) :
  store_inv fs -> op_allowed fs op -> run_cred_op fs op = Some fs' ->
  store_inv fs'.
Proof.
  intros [rows [Hh [Hwf [Hfit [Hlen Hnd]]]]] Hop Hrun.
  pose proof (file_holds_rows Hh Hwf) as Hrows.
  destruct op as [u p|u p r|u np|u]; cbn [run_cred_op op_allowed] in *.
  - (* authenticate *)
    injection Hrun as <-. exists rows. auto.
  - (* add *)
    rewrite Hrows in Hop. destruct Hop as [Hrow [Hrfit [Hfresh Hroom]]].
    injection Hrun as <-. unfold add_credential, fopen_a.
    destruct (writable fs CREDENTIAL_FILE); [|exists rows; auto].
    exists (rows ++ [(u, p, r)]). split; [|split; [|split; [|split]]].
    + left. cbn [snd]. rewrite render_app.
      assert (Hone : render [(u, p, r)] = cred_line u p r)
        by (unfold render; cbn [map concat]; apply app_nil_r).
      rewrite Hone.
      destruct Hh as [Hd|[Hd ->]]; rewrite Hd; unfold fs_write.
      * now rewrite Hd, fs_put_same.
      * now rewrite fs_put_same, fs_put_same.
    + apply Forall_app. auto.
    + apply Forall_app. auto.
    + rewrite length_app. cbn [length]. lia.
    + rewrite map_app. cbn [map].
      apply NoDup_app_remove_l with (l := []).
      cbn [app]. apply Permutation_NoDup with (l := row_user (u, p, r) :: map row_user rows).
      * change (row_user (u, p, r) :: map row_user rows)
          with ([row_user (u, p, r)] ++ map row_user rows).
        apply Permutation_app_comm.
      * constructor; [|assumption]. now apply has_user_false.
  - (* reset password *)
    rewrite Hrows in Hop. destruct Hop as [Hnp Hfits].
    destruct (@reset_password_data fs u np) as [ok [fs1 [E [_ Hd]]]];
      rewrite ?Hrows; auto.
    rewrite E in Hrun. cbn [option_map snd] in Hrun. injection Hrun as <-.
    rewrite Hrows in Hd. destruct ok.
    + exists (map (set_pass u np) rows). split; [|split; [|split; [|split]]].
      * left. exact Hd.
      * rewrite Forall_forall in *. intros x Hin.
        apply in_map_iff in Hin as [row [<- Hin]]. apply set_pass_wf; auto.
      * assumption.
      * now rewrite length_map.
      * rewrite map_map. erewrite map_ext; [exact Hnd|].
        intros row. apply set_pass_user.
    + exists rows. split; [|auto].
      destruct Hh as [Hd0|[Hd0 ->]]; [left|right; split]; congruence.
  - (* remove *)
    destruct (@remove_credential_data fs u) as [ok [fs1 [E [_ Hd]]]];
      rewrite ?Hrows.
    { pose proof (filter_length_le (keeps u) rows). lia. }
    { now apply Forall_filter. }
    rewrite E in Hrun. cbn [option_map snd] in Hrun. injection Hrun as <-.
    rewrite Hrows in Hd. destruct ok.
    + exists (filter (keeps u) rows). split; [|split; [|split; [|split]]].
      * left. exact Hd.
      * now apply Forall_filter.
      * now apply Forall_filter.
      * pose proof (filter_length_le (keeps u) rows). lia.
      * now apply NoDup_map_filter.
    + exists rows. split; [|auto].
      destruct Hh as [Hd0|[Hd0 ->]]; [left|right; split]; congruence.
Qed.

Lemma reachable_inv (fs : filesys) : reachable fs -> store_inv fs.
Proof.
  induction 1 as [fs0 H0|fs fs' op _ IH Hop Hrun].
  - now apply boot_inv.
  - eapply step_inv; eauto.
Qed.

(** C4, amended. Starting from the bootstrapped credential file, after
    any sequence of [check_credentials], [add_credential],
    [reset_password] and [remove_credential] calls in which every added
    row is well formed and has a user name with no row yet, and every new
    password is a token, the file holds exactly one row per user name. *)
Theorem one_row_per_username (fs : filesys) :
  reachable fs -> NoDup (map row_user (file_rows fs)).
Proof.
  intros H. destruct (reachable_inv H) as [rows [Hh [Hwf [_ [_ Hnd]]]]].
  now rewrite (file_holds_rows Hh Hwf).
Qed.

(** ** The credential store on sample data *)

Lemma store_after_add_reachable : reachable store_after_add.
Proof.
  apply reach_op with (fs := ensure_default_credentials empty_fs)
                      (op := AddCredential (lit "alice") (lit "pw") (lit "STAFF")).
  - now apply reach_boot.
  - cbn [op_allowed]. split; [|split; [|split]].
    + apply row_wfb_ok. vm_compute. reflexivity.
    + apply row_fitsb_ok. vm_compute. reflexivity.
    + vm_compute. reflexivity.
    + apply Nat.ltb_lt. vm_compute. reflexivity.
  - reflexivity.
Defined.

Lemma store_after_reset_reachable : reachable store_after_reset.
Proof.
  apply reach_op with (fs := store_after_add)
                      (op := ResetPassword (lit "alice") (lit "s3cret")).
  - exact store_after_add_reachable.
  - cbn [op_allowed]. split.
    + apply tokenb_ok. vm_compute. reflexivity.
    + apply forallb_Forall with (f := row_fitsb); [exact row_fitsb_ok|].
      vm_compute. reflexivity.
  - vm_compute. reflexivity.
Defined.

Lemma one_row_per_username_witness :
  NoDup (map row_user (file_rows store_after_reset)).
Proof. exact (one_row_per_username store_after_reset_reachable). Defined.

(** C4 as stated fails: [add_credential] does not look for a row of the
    same user; called on the bootstrapped file with the name [admin] it
    appends a second row for it. *)
Lemma add_credential_duplicate :
  let fs' := snd (add_credential (boot_fs true) (lit "admin") (lit "x") (lit "GUEST")) in
  has_user (lit "admin") (file_rows (boot_fs true)) = true
  /\ map row_user (file_rows fs') =
       [lit "admin"; lit "staff"; lit "guest"; lit "principal"; lit "student";
        lit "admin"]
  /\ ~ NoDup (map row_user (file_rows fs')).
Proof.
  cbv zeta.
  assert (E : map row_user
                (file_rows (snd (add_credential (boot_fs true)
                                   (lit "admin") (lit "x") (lit "GUEST")))) =
              [lit "admin"; lit "staff"; lit "guest"; lit "principal";
               lit "student"; lit "admin"])
    by (vm_compute; reflexivity).
  split; [vm_compute; reflexivity|]. split; [exact E|].
  rewrite E. intros H. apply NoDup_cons_iff in H as [Hn _]. apply Hn.
  do 4 right. left. reflexivity.
Qed.

Lemma reset_password_frame_witness :
  exists fs',
    reset_password (boot_fs true) (lit "staff") (lit "s3cret") = Some (true, fs')
    /\ data fs' CREDENTIAL_FILE =
       Some (cred_line (lit "admin") (lit "admin") (lit "ADMIN")
             ++ cred_line (lit "staff") (lit "s3cret") (lit "STAFF")
             ++ cred_line (lit "guest") (lit "guest") (lit "GUEST")
             ++ cred_line (lit "principal") (lit "principal") (lit "PRINCIPAL")
             ++ cred_line (lit "student") (lit "student") (lit "STUDENT")).
Proof.
  assert (H1 : (length (file_rows (boot_fs true)) <= CRED_LINES)%nat)
    by (apply Nat.leb_le; vm_compute; reflexivity).
  assert (H2 : Forall row_fits
                 (map (set_pass (lit "staff") (lit "s3cret")) (file_rows (boot_fs true)))).
  { apply forallb_Forall with (f := row_fitsb); [exact row_fitsb_ok|].
    vm_compute. reflexivity. }
  destruct (reset_password_frame (boot_fs true) (lit "staff") (lit "s3cret") H1 H2)
    as [ok [fs' [E [Hok [Hd _]]]]].
  assert (Hok' : ok = true) by (rewrite Hok; vm_compute; reflexivity).
  subst ok. exists fs'. split; [exact E|].
  rewrite Hd. vm_compute. reflexivity.
Defined.

(** C9 as stated fails: with a row for the user in the file,
    [reset_password] still returns failure when the file cannot be
    reopened for writing. *)
Lemma reset_password_unwritable :
  has_user (lit "admin") (file_rows (boot_fs false)) = true
  /\ option_map fst (reset_password (boot_fs false) (lit "admin") (lit "new"))
     = Some false.
Proof. split; vm_compute; reflexivity. Qed.

Lemma remove_credential_frame_witness :
  exists fs',
    remove_credential (boot_fs true) (lit "guest") = Some (true, fs')
    /\ data fs' CREDENTIAL_FILE =
       Some (cred_line (lit "admin") (lit "admin") (lit "ADMIN")
             ++ cred_line (lit "staff") (lit "staff") (lit "STAFF")
             ++ cred_line (lit "principal") (lit "principal") (lit "PRINCIPAL")
             ++ cred_line (lit "student") (lit "student") (lit "STUDENT")).
Proof.
  assert (H1 : (length (filter (keeps (lit "guest")) (file_rows (boot_fs true)))
                <= CRED_LINES)%nat)
    by (apply Nat.leb_le; vm_compute; reflexivity).
  assert (H2 : Forall row_fits (filter (keeps (lit "guest")) (file_rows (boot_fs true)))).
  { apply forallb_Forall with (f := row_fitsb); [exact row_fitsb_ok|].
    vm_compute. reflexivity. }
  destruct (remove_credential_frame (boot_fs true) (lit "guest") H1 H2)
    as [ok [fs' [E [Hok [Hd _]]]]].
  assert (Hok' : ok = true) by (rewrite Hok; vm_compute; reflexivity).
  subst ok. exists fs'. split; [exact E|].
  rewrite Hd. vm_compute. reflexivity.
Defined.

(** C10 as stated fails: a row matches, yet [remove_credential] returns
    failure when the file cannot be reopened for writing. *)
Lemma remove_credential_unwritable :
  has_user (lit "guest") (file_rows (boot_fs false)) = true
  /\ option_map fst (remove_credential (boot_fs false) (lit "guest")) = Some false.
Proof. split; vm_compute; reflexivity. Qed.

(** ** Statistics *)

Lemma gtb_ltb (x y : f32) : F32.gtb x y = F32.ltb y x.
Proof. reflexivity. Qed.

Lemma stats_loop_app (l1 l2 : list Student) :
  forall i acc,
    stats_loop (l1 ++ l2) i acc = stats_loop l2 (i + length l1) (stats_loop l1 i acc).
Proof.
  induction l1 as [|s l1 IH]; intros i acc; cbn [app stats_loop length].
  - now rewrite Nat.add_0_r.
  - rewrite IH. f_equal. lia.
Qed.

Lemma stats_of_snoc (arr : list Student) (s : Student) :
  stats_of (arr ++ [s]) = stats_step (stats_of arr) (length arr) s.
Proof. unfold stats_of. rewrite stats_loop_app. reflexivity. Qed.

Lemma valid_percentage_bounds (p : f32) :
  valid_percentage p = true ->
  F32.is_nan p = false
  /\ F32Order.lt (F32.of_Z (-1)) p /\ F32Order.lt p (F32.of_Z 101).
Proof.
  unfold valid_percentage, F32.geb. intros H.
  apply andb_true_iff in H as [H0 H100].
  change (F32.leb F32.zero p = true) with (F32Order.le F32.zero p) in H0.
  change (F32Order.le p (F32.of_Z 100)) in H100.
  split; [apply (F32Facts.le_not_nan H0)|]. split.
  - eapply F32Facts.lt_le_trans; [|exact H0]. reflexivity.
  - eapply F32Facts.le_lt_trans; [exact H100|]. reflexivity.
Qed.

Lemma perc_at_app1 (arr : list Student) (s : Student) (j : nat) :
  (j < length arr)%nat -> perc_at (arr ++ [s]) j = perc_at arr j.
Proof. intros H. unfold perc_at. now rewrite app_nth1. Qed.

Lemma perc_at_last (arr : list Student) (s : Student) :
  perc_at (arr ++ [s]) (length arr) = percentage s.
Proof. unfold perc_at. now rewrite nth_middle. Qed.

Lemma stats_inv_holds (arr : list Student) :
  Forall (fun s => valid_percentage (percentage s) = true) arr ->
  stats_inv arr (stats_of arr).
Proof.
  induction arr as [|s arr IH] using rev_ind; intros Hv.
  - repeat split.
  - apply Forall_app in Hv as [Hv Hs]. apply Forall_cons_iff in Hs as [Hs _].
    destruct (valid_percentage_bounds _ Hs) as [Hnan [Hlo Hhi]].
    specialize (IH Hv). destruct IH as [Hsum [Hpass Hrest]].
    rewrite stats_of_snoc. remember (stats_of arr) as r eqn:Er.
    assert (Hall : forall j, (j < length arr)%nat ->
                     F32.is_nan (perc_at arr j) = false).
    { intros j Hj. rewrite Forall_forall in Hv.
      apply (valid_percentage_bounds (perc_at arr j)).
      apply Hv. unfold perc_at. now apply nth_In. }
    split; [|split].
    + cbn [stats_step sum]. rewrite Hsum, map_app. unfold fsum.
      now rewrite fold_left_app.
    + cbn [stats_step pass]. rewrite Hpass, filter_app, length_app.
      cbn [filter]. change (passes s) with (F32.geb (percentage s) (F32.of_Z 50)).
      destruct (F32.geb (percentage s) (F32.of_Z 50)); cbn [length]; lia.
    + destruct (arr ++ [s]) as [|x xs] eqn:Eapp;
        [destruct arr; discriminate|]. rewrite <- Eapp. clear x xs Eapp.
      assert (Hlen : length (arr ++ [s]) = S (length arr))
        by (rewrite length_app; cbn [length]; lia).
      destruct arr as [|a arr'] eqn:Earr.
      * (* the first record beats both sentinels *)
        rewrite Hrest. cbn [stats_step stats_init maxPerc minPerc maxIdx minIdx].
        rewrite !gtb_ltb. unfold F32Order.lt in Hlo, Hhi. rewrite Hlo, Hhi.
        unfold first_max, first_min, perc_at. cbn [app length nth].
        assert (Hrefl : F32Order.le (percentage s) (percentage s))
          by now apply F32Facts.le_refl.
        split; [reflexivity|]. split.
        { split; [lia|]. split; intros j Hj; [|lia].
          replace j with 0%nat by lia. exact Hrefl. }
        split; [reflexivity|].
        split; [lia|]. split; intros j Hj; [|lia].
        replace j with 0%nat by lia. exact Hrefl.
      * rewrite <- Earr in *. clear a arr' Earr.
        destruct Hrest as [Hmx [[Hmi1 [Hmi2 Hmi3]] [Hmn [Hni1 [Hni2 Hni3]]]]].
        cbn [stats_step maxPerc minPerc maxIdx minIdx]. rewrite !gtb_ltb.
        assert (Hpa : forall j, (j <= length arr)%nat ->
                        F32.is_nan (perc_at (arr ++ [s]) j) = false).
        { intros j Hj. destruct (Nat.eq_dec j (length arr)) as [->|Hne].
          - now rewrite perc_at_last.
          - rewrite perc_at_app1 by lia. apply Hall. lia. }
        split; [|split; [|split]].
        -- destruct (F32.ltb (maxPerc r) (percentage s)); [now rewrite perc_at_last|].
           now rewrite perc_at_app1.
        -- destruct (F32.ltb (maxPerc r) (percentage s)) eqn:E.
           ++ rewrite Hmx in E. split; [lia|]. rewrite perc_at_last. split.
              ** intros j Hj. destruct (Nat.eq_dec j (length arr)) as [->|Hne].
                 --- rewrite perc_at_last. now apply F32Facts.le_refl.
                 --- rewrite perc_at_app1 by lia. apply F32Facts.lt_le.
                     eapply F32Facts.le_lt_trans; [apply Hmi2; lia|exact E].
              ** intros j Hj. rewrite perc_at_app1 by lia.
                 eapply F32Facts.le_lt_trans; [apply Hmi2; lia|exact E].
           ++ rewrite Hmx in E. split; [lia|]. rewrite perc_at_app1 by lia. split.
              ** intros j Hj. destruct (Nat.eq_dec j (length arr)) as [->|Hne].
                 --- rewrite perc_at_last. apply F32Facts.not_lt_le; auto.
                 --- rewrite perc_at_app1 by lia. apply Hmi2. lia.
              ** intros j Hj. rewrite perc_at_app1 by lia. now apply Hmi3.
        -- destruct (F32.ltb (percentage s) (minPerc r)); [now rewrite perc_at_last|].
           now rewrite perc_at_app1.
        -- destruct (F32.ltb (percentage s) (minPerc r)) eqn:E.
           ++ rewrite Hmn in E. split; [lia|]. rewrite perc_at_last. split.
              ** intros j Hj. destruct (Nat.eq_dec j (length arr)) as [->|Hne].
                 --- rewrite perc_at_last. now apply F32Facts.le_refl.
                 --- rewrite perc_at_app1 by lia. apply F32Facts.lt_le.
                     eapply F32Facts.lt_le_trans; [exact E|apply Hni2; lia].
              ** intros j Hj. rewrite perc_at_app1 by lia.
                 eapply F32Facts.lt_le_trans; [exact E|apply Hni2; lia].
           ++ rewrite Hmn in E. split; [lia|]. rewrite perc_at_app1 by lia. split.
              ** intros j Hj. destruct (Nat.eq_dec j (length arr)) as [->|Hne].
                 --- rewrite perc_at_last. apply F32Facts.not_lt_le; auto.
                 --- rewrite perc_at_app1 by lia. apply Hni2. lia.
              ** intros j Hj. rewrite perc_at_app1 by lia. now apply Hni3.
Qed.

Lemma read_all_students_nonempty (fs : filesys) (arr : list Student) :
  read_all_students fs = Some arr -> arr <> [].
Proof.
  unfold read_all_students. destruct (fopen_r fs STUDENT_FILE); [|discriminate].
  destruct (read_students_loop _ _); [discriminate|].
  intros H. injection H as <-. discriminate.
Qed.

(** C7, amended.  For a snapshot whose percentages lie in [0,100],
    [feature_statistics] prints the record count, the average [sum / n]
    of the percentages added in snapshot order, as highest the first
    record that holds the greatest percentage and as lowest the first
    record that holds the least, as pass count the number of records with
    percentage >= 50 and as fail count the rest.  On the three records
    with the percentages 40, 70 and 70 it prints the average 60.00, the
    second record as highest, the first as lowest, 2 passes and 1 fail. *)
Theorem feature_statistics_correct (st : state) (arr : list Student) :
  read_all_students (files st) = Some arr ->
  Forall (fun s => valid_percentage (percentage s) = true) arr ->
  (exists hi lo,
      first_max arr hi /\ first_min arr lo
      /\ let n := Z.of_nat (length arr) in
         let npass := Z.of_nat (length (filter passes arr)) in
         feature_statistics st =
         printf st (stats_lines n (F32.div (fsum (map percentage arr)) (F32.of_Z n))
                      (nth hi arr dummy_student) (nth lo arr dummy_student)
                      npass (n - npass)))
  /\ map percentage sample_snapshot = [F32.of_Z 40; F32.of_Z 70; F32.of_Z 70]
  /\ statistics_text sample_snapshot =
     [NL] ++ line "Total Students: 3" ++ line "Average Percentage: 60.00"
     ++ line "Highest: 70.00 (Ben, Roll 2)" ++ line "Lowest: 40.00 (Ann, Roll 1)"
     ++ line "Pass Count: 2" ++ line "Fail Count: 1".
Proof.
  intros Hread Hv. split; [|split; vm_compute; reflexivity].
  destruct (stats_inv_holds Hv) as [Hsum [Hpass Hrest]].
  pose proof (read_all_students_nonempty _ Hread) as Hne.
  destruct arr as [|a arr']; [congruence|].
  destruct Hrest as [_ [Hmax [_ Hmin]]].
  exists (maxIdx (stats_of (a :: arr'))), (minIdx (stats_of (a :: arr'))).
  split; [exact Hmax|]. split; [exact Hmin|].
  unfold feature_statistics. rewrite Hread. cbv zeta.
  rewrite <- Hsum, <- Hpass. reflexivity.
Qed.

Lemma feature_statistics_correct_witness :
  exists hi lo,
    first_max sample_snapshot hi /\ first_min sample_snapshot lo
    /\ feature_statistics sample_session =
       printf sample_session
         (stats_lines 3 (F32.div (fsum (map percentage sample_snapshot)) (F32.of_Z 3))
            (nth hi sample_snapshot dummy_student) (nth lo sample_snapshot dummy_student)
            2 1).
Proof.
  refine (proj1 (@feature_statistics_correct sample_session sample_snapshot _ _)).
  - vm_compute. reflexivity.
  - repeat constructor.
Defined.

(** C7 as stated fails: the student file is read without a check of the
    marks, and on a snapshot with the percentages 150 and 120 no record
    is below the starting value 101 of the minimum, so that the first
    record (150) is printed as the lowest. *)
Lemma statistics_out_of_range :
  read_all_students (files overrange_session) = Some overrange_snapshot
  /\ map (fun s => fmt_2f (percentage s)) overrange_snapshot = [lit "150.00"; lit "120.00"]
  /\ stdout (feature_statistics overrange_session) =
     [NL] ++ line "Total Students: 2" ++ line "Average Percentage: 135.00"
     ++ line "Highest: 150.00 (Ann, Roll 1)" ++ line "Lowest: 150.00 (Ann, Roll 1)"
     ++ line "Pass Count: 2" ++ line "Fail Count: 0"
  /\ ~ first_min overrange_snapshot (minIdx (stats_of overrange_snapshot)).
Proof.
  split; [vm_compute; reflexivity|]. split; [vm_compute; reflexivity|].
  split; [vm_compute; reflexivity|].
  change (minIdx (stats_of overrange_snapshot)) with 0%nat.
  intros [_ [H _]]. specialize (H 1%nat). vm_compute in H.
  assert (E : false = true) by (apply H; repeat constructor). discriminate E.
Qed.

(** ** Sorting by total *)


Lemma sub_diag (x : f32) :
  F32.gtb (F32.sub x x) F32.zero = false /\ F32.ltb (F32.sub x x) F32.zero = false.
Proof.
  destruct x as [s|s| |s m e].
  - destruct s; split; reflexivity.
  - destruct s; split; reflexivity.
  - split; reflexivity.
  - unfold F32.sub, SFsub. rewrite Z.sub_diag. split; reflexivity.
Qed.









(** ** Export *)

Lemma fs_write_data (fs : filesys) (p q : path) (text : cstr) :
  data (fs_write fs p text) q
  = if path_eqb q p then option_map (fun c => c ++ text) (data fs p) else data fs q.
Proof.
  unfold fs_write. destruct (data fs p) as [c|] eqn:E; cbn [data fs_put option_map].
  - reflexivity.
  - destruct (path_eqb q p) eqn:Eq; [|reflexivity].
    apply path_eqb_eq in Eq. now subst.
Qed.

Lemma fs_write_writable (fs : filesys) (p : path) (text : cstr) :
  writable (fs_write fs p text) = writable fs.
Proof. unfold fs_write. now destruct (data fs p). Qed.

(** C5 (divergence).  When the CSV file can be opened for writing and the
    report file cannot, [feature_export] reports the error and writes no
    row, but the CSV file is left empty whatever it held before: it was
    truncated when it was opened, before the test of the two streams. *)
Theorem feature_export_truncates_csv (st : state) (arr : list Student) :
  read_all_students (files st) = Some arr ->
  writable (files st) CSV_FILE = true ->
  writable (files st) REPORT_FILE = false ->
  stdout (feature_export st) = stdout st ++ line "Error creating export files."
  /\ data (files (feature_export st)) CSV_FILE = Some []
  /\ forall p, p <> CSV_FILE ->
       data (files (feature_export st)) p = data (files st) p.
Proof.
  intros Hread Hcsv Hrep. unfold feature_export. rewrite Hread.
  unfold fopen_w. rewrite Hcsv. cbn [writable fs_put]. rewrite Hrep.
  cbn [andb printf set_files stdout files data fs_put path_eqb].
  split; [reflexivity|]. split; [reflexivity|].
  intros p Hp. destruct p; try reflexivity. congruence.
Qed.

Lemma feature_export_truncates_csv_witness :
  data (files export_session) CSV_FILE = Some (csv_text tied_pair)
  /\ stdout (feature_export export_session) = line "Error creating export files."
  /\ data (files (feature_export export_session)) CSV_FILE = Some []
  /\ forall p, p <> CSV_FILE ->
       data (files (feature_export export_session)) p = data (files export_session) p.
Proof.
  split; [reflexivity|].
  refine (@feature_export_truncates_csv export_session sample_snapshot _ _ _).
  - vm_compute. reflexivity.
  - reflexivity.
  - reflexivity.
Defined.

(** ** Read-only sessions *)

(** C3 (divergence).  [feature_restore] never looks at the session: with
    any user and role it leaves the same files.  A guest who chooses
    Reports/Backup, then Restore, and confirms, has the student file
    replaced by the backup; so has a principal. *)
Theorem guest_session_overwrites_students :
  (forall st user role,
      files (feature_restore (set_session st user role)) = files (feature_restore st))
  /\ (exists st', guest_menu 2 guest_session = Returned st'
        /\ data (files st') STUDENT_FILE = data (files guest_session) BACKUP_FILE
        /\ data (files st') STUDENT_FILE <> data (files guest_session) STUDENT_FILE)
  /\ (exists st', principal_menu 2 principal_session = Returned st'
        /\ data (files st') STUDENT_FILE = data (files principal_session) BACKUP_FILE
        /\ data (files st') STUDENT_FILE <> data (files principal_session) STUDENT_FILE).
Proof.
  split; [|split].
  - intros [fs i o u r c t] user role.
    unfold feature_restore, yesno, printf, set_session, set_stdin, set_files.
    cbn [files stdin stdout currentUser currentRole clock tty].
    destruct (fgets 8 i) as [[buf rest]|]; [|reflexivity].
    destruct (match buf with [] => false | c :: _ => _ end); [|reflexivity].
    cbn [files stdin stdout currentUser currentRole clock tty].
    destruct (fopen_r fs BACKUP_FILE); [|reflexivity].
    destruct (fopen_w fs STUDENT_FILE); reflexivity.
  - eexists. split; [vm_compute; reflexivity|].
    split; [vm_compute; reflexivity|]. vm_compute. discriminate.
  - eexists. split; [vm_compute; reflexivity|].
    split; [vm_compute; reflexivity|]. vm_compute. discriminate.
Qed.

(** ** String helpers *)

Lemma code_inj (c d : ascii) : code c = code d -> c = d.
Proof.
  unfold code. intros H. apply N2Z.inj in H.
  rewrite <- (ascii_N_embedding c), <- (ascii_N_embedding d). now rewrite H.
Qed.

Lemma prefix_ci_spec (needle hay : cstr) :
  prefix_ci needle hay = true <->
  exists post, map tolower hay = map tolower needle ++ post.
Proof.
  revert hay. induction needle as [|a n IH]; intros hay; cbn [prefix_ci map app].
  - split; [intros _; now exists (map tolower hay)|reflexivity].
  - destruct hay as [|b h]; cbn [map].
    + split; [discriminate|]. intros [post H]. discriminate.
    + rewrite andb_true_iff, Ascii.eqb_eq, IH. split.
      * intros [-> [post ->]]. now exists post.
      * intros [post H]. injection H as -> ->. split; [reflexivity|now exists post].
Qed.

Lemma contains_from_spec (needle hay : cstr) :
  contains_from needle hay = true <->
  exists pre post, map tolower hay = pre ++ map tolower needle ++ post.
Proof.
  induction hay as [|b h IH].
  - cbn [contains_from]. rewrite orb_false_r, prefix_ci_spec. split.
    + intros [post H]. now exists [], post.
    + intros [pre [post H]]. cbn [map] in H.
      symmetry in H. apply app_eq_nil in H as [-> H]. now exists post.
  - cbn [contains_from]. rewrite orb_true_iff, prefix_ci_spec, IH. split.
    + intros [[post H]|[pre [post H]]].
      * now exists [], post.
      * exists (tolower b :: pre), post. cbn [map app]. now rewrite H.
    + intros [pre [post H]]. destruct pre as [|c pre].
      * left. now exists post.
      * right. cbn [map app] in H. injection H as _ H. now exists pre, post.
Qed.

(** X1.  [contains_case_insensitive] tells whether the needle occurs in the
    text as a run of consecutive bytes, letters compared without case; an
    empty needle occurs in every text. *)
Theorem contains_case_insensitive_spec (hay needle : cstr) :
  (contains_case_insensitive hay needle = true <->
   exists pre post, map tolower hay = pre ++ map tolower needle ++ post)
  /\ contains_case_insensitive hay [] = true.
Proof.
  split; [|reflexivity].
  destruct needle as [|a n].
  - cbn [contains_case_insensitive map app]. split; [|reflexivity].
    intros _. now exists [], (map tolower hay).
  - apply contains_from_spec.
Qed.

Lemma tolower_nul (c : ascii) : c <> NUL -> code (tolower c) <> 0%Z.
Proof.
  intros Hc H. apply Hc. apply code_inj.
  change (code NUL) with 0%Z. unfold tolower in H.
  destruct ((65 <=? code c)%Z && (code c <=? 90)%Z) eqn:E; [|exact H].
  apply andb_true_iff in E as [E1 E2]. apply Z.leb_le in E1, E2.
  unfold code, chr in *. rewrite N_ascii_embedding in H.
  - rewrite Z2N.id in H by lia. lia.
  - apply N2Z.inj_lt. rewrite Z2N.id by lia. change (Z.of_N 256) with 256%Z. lia.
Qed.

Lemma portable_strcasecmp_zero (a b : cstr) :
  no_nul a -> no_nul b ->
  (portable_strcasecmp a b = 0%Z <-> map tolower a = map tolower b).
Proof.
  unfold no_nul. revert b. induction a as [|c a IH]; intros [|d b] Ha Hb;
    cbn [portable_strcasecmp map].
  - tauto.
  - split; [|discriminate]. intros H. exfalso.
    apply (@tolower_nul d); [intros ->; apply Hb; now left|lia].
  - split; [|discriminate]. intros H. exfalso.
    apply (@tolower_nul c); [intros ->; apply Ha; now left|exact H].
  - destruct (code (tolower c) =? code (tolower d))%Z eqn:E.
    + apply Z.eqb_eq, code_inj in E. rewrite E, IH.
      * split; [now intros ->|]. intros H. now injection H.
      * intros H. apply Ha. now right.
      * intros H. apply Hb. now right.
    + apply Z.eqb_neq in E. split; [lia|].
      intros H. injection H as H _. now rewrite H in E.
Qed.

Lemma portable_strcasecmp_antisym (a b : cstr) :
  portable_strcasecmp b a = (- portable_strcasecmp a b)%Z.
Proof.
  revert b. induction a as [|c a IH]; intros [|d b]; cbn [portable_strcasecmp];
    try lia.
  rewrite Z.eqb_sym. destruct (code (tolower c) =? code (tolower d))%Z; [apply IH|lia].
Qed.

(** X2.  [portable_strcasecmp] returns 0 exactly for strings that are equal up
    to the case of their letters, and exchanging its arguments negates the
    result. *)
Theorem portable_strcasecmp_spec (a b : cstr) :
  no_nul a -> no_nul b ->
  (portable_strcasecmp a b = 0%Z <-> map tolower a = map tolower b)
  /\ portable_strcasecmp b a = (- portable_strcasecmp a b)%Z.
Proof.
  intros Ha Hb. split.
  - now apply portable_strcasecmp_zero.
  - apply portable_strcasecmp_antisym.
Qed.

Lemma portable_strcasecmp_spec_witness :
  (portable_strcasecmp (lit "a+") (lit "A+") = 0%Z
   <-> map tolower (lit "a+") = map tolower (lit "A+"))
  /\ portable_strcasecmp (lit "A+") (lit "a+") = (- portable_strcasecmp (lit "a+") (lit "A+"))%Z.
Proof.
  apply (@portable_strcasecmp_spec (lit "a+") (lit "A+")).
  - unfold no_nul. cbn. intros [H|[H|[]]]; discriminate.
  - unfold no_nul. cbn. intros [H|[H|[]]]; discriminate.
Defined.

(** ** Sorting by roll *)




(** ** Decoding of partial and foreign lines *)

Lemma write_student_to_file_shape (s : Student) :
  exists tail,
    write_student_to_file s = (fmt_d (roll s) ++ BAR :: name s ++ BAR :: tail) ++ [NL].
Proof.
  exists (fmt_2f (mark_at s 0) ++ BAR :: fmt_2f (mark_at s 1) ++ BAR :: fmt_2f (mark_at s 2)).
  unfold write_student_to_file, SUBJECTS. cbn [seq map concat].
  change (lit "|") with [BAR]. rewrite app_nil_r.
  repeat (rewrite <- ?app_assoc; cbn [app]). reflexivity.
Qed.

Lemma parse_marks_length (n : nat) : forall rest, length (parse_marks n rest) = n.
Proof.
  induction n as [|n IH]; intros rest; cbn [parse_marks]; [reflexivity|].
  destruct (strtok BAR rest) as [[tok rest']|]; cbn [length]; now rewrite IH.
Qed.

Lemma parse_written_line (s : Student) :
  is_int (roll s) -> name s <> [] -> ~ In BAR (name s) ->
  exists ms,
    length ms = SUBJECTS
    /\ decoded s =
       Some (calculate_student
               {| roll := roll s; name := firstn (MAX_NAME - 1) (name s); marks := ms;
                  total := F32.zero; percentage := F32.zero; grade := [] |}).
Proof.
  intros Hr Hn Hb. unfold decoded.
  destruct (write_student_to_file_shape s) as [tail ->].
  unfold parse_line_to_student. rewrite chomp_app_nl.
  rewrite strtok_app by auto using fmt_d_nonempty, fmt_d_no_bar.
  rewrite strtok_app by assumption. rewrite atoi_fmt_d by assumption.
  eexists. split; [|reflexivity]. apply parse_marks_length.
Qed.

(** X4.  Whatever its marks, a record with a roll in the range of [int] and a
    non-empty name without ['|'] is decoded from its line with the same
    roll and with its name, cut to [MAX_NAME - 1] bytes. *)
Theorem decode_keeps_roll_and_name (s : Student) :
  is_int (roll s) -> name s <> [] -> ~ In BAR (name s) ->
  exists s',
    parse_line_to_student (write_student_to_file s) = Some s'
    /\ roll s' = roll s
    /\ name s' = firstn (MAX_NAME - 1) (name s)
    /\ length (marks s') = SUBJECTS.
Proof.
  intros Hr Hn Hb.
  destruct (parse_written_line s Hr Hn Hb) as [ms [Hlen Hdec]].
  unfold decoded in Hdec. rewrite Hdec. eexists. split; [reflexivity|].
  cbn [calculate_student roll name marks]. auto.
Qed.

Lemma decode_keeps_roll_and_name_witness :
  exists s',
    parse_line_to_student (write_student_to_file carol) = Some s'
    /\ roll s' = roll carol
    /\ name s' = firstn (MAX_NAME - 1) (name carol)
    /\ length (marks s') = SUBJECTS.
Proof.
  apply (@decode_keeps_roll_and_name carol).
  - unfold is_int, INT_MIN, INT_MAX. cbn. lia.
  - discriminate.
  - cbn. intros [H|[H|[H|[H|[H|[]]]]]]; discriminate.
Defined.

Lemma skip_delims_no_delim (d : ascii) (s : cstr) : ~ In d s -> skip_delims d s = s.
Proof.
  destruct s as [|c s]; [reflexivity|]. intros H. cbn [skip_delims].
  destruct (Ascii.eqb c d) eqn:E; [|reflexivity].
  apply Ascii.eqb_eq in E. subst. exfalso. apply H. now left.
Qed.

(** X5.  A line without a ['|'], in particular an empty line, is not a
    record: [parse_line_to_student] returns 0. *)
Theorem parse_line_needs_two_fields (text : cstr) :
  ~ In BAR (chomp text) -> parse_line_to_student text = None.
Proof.
  intros H. unfold parse_line_to_student, strtok.
  rewrite skip_delims_no_delim by assumption.
  destruct (chomp text) as [|c copy] eqn:E; [reflexivity|].
  rewrite span_token_end by assumption. reflexivity.
Qed.

Lemma parse_line_needs_two_fields_witness :
  parse_line_to_student (line "42 Bob Ray 89.99") = None.
Proof.
  apply (@parse_line_needs_two_fields (line "42 Bob Ray 89.99")).
  vm_compute. intuition discriminate.
Defined.

(** X6.  A line that stops after the name is a record whose three marks are
    0: its total and percentage are 0 and its grade is F. *)
Theorem parse_line_missing_marks (r : Z) (nm : cstr) :
  is_int r -> nm <> [] -> ~ In BAR nm -> (length nm < MAX_NAME)%nat ->
  parse_line_to_student (fmt_d r ++ BAR :: nm ++ [NL])
  = Some {| roll := r; name := nm;
            marks := [F32.zero; F32.zero; F32.zero];
            total := F32.zero; percentage := F32.zero; grade := lit "F" |}.
Proof.
  intros Hr Hn Hb Hl. unfold parse_line_to_student.
  change (fmt_d r ++ BAR :: nm ++ [NL]) with (fmt_d r ++ (BAR :: nm) ++ [NL]).
  rewrite app_assoc, chomp_app_nl.
  rewrite strtok_app by auto using fmt_d_nonempty, fmt_d_no_bar.
  rewrite strtok_end by assumption. rewrite atoi_fmt_d by assumption.
  rewrite firstn_all2 by (unfold MAX_NAME in *; lia).
  reflexivity.
Qed.

Lemma parse_line_missing_marks_witness :
  parse_line_to_student (line "7|Carol")
  = Some {| roll := 7; name := lit "Carol";
            marks := [F32.zero; F32.zero; F32.zero];
            total := F32.zero; percentage := F32.zero; grade := lit "F" |}.
Proof.
  apply (@parse_line_missing_marks 7 (lit "Carol")).
  - unfold is_int, INT_MIN, INT_MAX. lia.
  - discriminate.
  - cbn. intros [H|[H|[H|[H|[H|[]]]]]]; discriminate.
  - unfold MAX_NAME. cbn. lia.
Defined.

(** ** The student file read back *)

Lemma isdigit_plain (c : ascii) : isdigit c = true -> plain c.
Proof.
  intros H. apply isdigit_range in H.
  split; intros ->; vm_compute in H; destruct H as [H _]; now apply H.
Qed.

Lemma digits_plain (l : cstr) : Forall (fun c => isdigit c = true) l -> Forall plain l.
Proof. intros H. eapply Forall_impl; [|exact H]. exact isdigit_plain. Qed.

Lemma plain_chr (z : Z) : chr z <> NL -> chr z <> NUL -> plain (chr z).
Proof. now split. Qed.

Lemma fmt_d_plain (z : Z) : Forall plain (fmt_d z).
Proof.
  unfold fmt_d. destruct (z <? 0)%Z eqn:E.
  - apply Z.ltb_lt in E. apply Forall_app. split.
    + repeat constructor; discriminate.
    + apply digits_plain, fmt_u_digits. lia.
  - apply Z.ltb_ge in E. now apply digits_plain, fmt_u_digits.
Qed.

Lemma centis_nonneg (m : positive) (e : Z) : (0 <= centis m e)%Z.
Proof.
  unfold centis. destruct (0 <=? e)%Z eqn:E.
  - apply Z.leb_le in E. pose proof (Z.pow_nonneg 2 e). nia.
  - apply Z.leb_gt in E. unfold round_half_even.
    assert (Hden : (0 < 2 ^ (- e))%Z) by (apply Z.pow_pos_nonneg; lia).
    assert (Hq : (0 <= Z.pos m * 100 / 2 ^ (- e))%Z) by (apply Z.div_pos; lia).
    destruct (2 * ((Z.pos m * 100) mod 2 ^ (- e)) ?= 2 ^ (- e))%Z;
      [destruct (Z.even _)| |]; lia.
Qed.

Lemma fmt_fixed2_plain (neg : bool) (n : Z) : (0 <= n)%Z -> Forall plain (fmt_fixed2 neg n).
Proof.
  intros Hn. unfold fmt_fixed2. repeat (apply Forall_app; split).
  - destruct neg; repeat constructor; discriminate.
  - apply digits_plain, fmt_u_digits. apply Z.div_pos; lia.
  - repeat constructor; discriminate.
  - assert (H100 : (0 <= n mod 100 < 100)%Z) by (apply Z.mod_pos_bound; lia).
    apply digits_plain. repeat constructor; apply digit_chr_isdigit.
    + split; [apply Z.div_pos; lia|]. apply Z.div_lt_upper_bound; lia.
    + apply Z.mod_pos_bound. lia.
Qed.

Lemma fmt_2f_plain (x : f32) : Forall plain (fmt_2f x).
Proof.
  destruct x as [s|s| |s m e]; cbn [fmt_2f].
  - now apply fmt_fixed2_plain.
  - destruct s; repeat constructor; discriminate.
  - repeat constructor; discriminate.
  - apply fmt_fixed2_plain, centis_nonneg.
Qed.

Lemma write_student_to_file_body (s : Student) :
  Forall plain (name s) ->
  exists body,
    write_student_to_file s = body ++ [NL] /\ Forall plain body.
Proof.
  intros Hn.
  exists (fmt_d (roll s) ++ lit "|" ++ name s
          ++ concat (map (fun i => lit "|" ++ fmt_2f (mark_at s i)) (seq 0 SUBJECTS))).
  split.
  - unfold write_student_to_file. now rewrite <- !app_assoc.
  - assert (Hbar : Forall plain (lit "|")) by (repeat constructor; discriminate).
    apply Forall_app. split; [apply fmt_d_plain|].
    apply Forall_app. split; [exact Hbar|].
    apply Forall_app. split; [exact Hn|].
    unfold SUBJECTS. cbn [seq map concat].
    repeat (apply Forall_app; split); auto using fmt_2f_plain.
Qed.

Lemma fgets_aux_line (body rest : cstr) :
  forall k, ~ In NL body -> (length body < k)%nat ->
    fgets_aux k (body ++ NL :: rest) = (body ++ [NL], rest).
Proof.
  induction body as [|c body IH]; intros k Hnl Hk.
  - destruct k; [cbn in Hk; lia|]. cbn [app fgets_aux]. now rewrite Ascii.eqb_refl.
  - destruct k; [cbn in Hk; lia|]. cbn [app fgets_aux].
    destruct (Ascii.eqb c NL) eqn:E.
    + apply Ascii.eqb_eq in E. subst. exfalso. apply Hnl. now left.
    + rewrite IH; [reflexivity| |cbn [length] in Hk; lia].
      intros H. apply Hnl. now right.
Qed.

Lemma until_nul_plain (l : cstr) : ~ In NUL l -> until_nul l = l.
Proof.
  induction l as [|c l IH]; intros H; cbn [until_nul]; [reflexivity|].
  destruct (Ascii.eqb c NUL) eqn:E.
  - apply Ascii.eqb_eq in E. subst. exfalso. apply H. now left.
  - rewrite IH; [reflexivity|]. intros Hin. apply H. now right.
Qed.

Lemma plain_not_in (l : cstr) : Forall plain l -> ~ In NL l /\ ~ In NUL l.
Proof.
  intros H. rewrite Forall_forall in H.
  split; intros Hin; destruct (H _ Hin) as [H1 H2]; congruence.
Qed.

Lemma line_ok_name_plain (s : Student) : line_ok s -> Forall plain (name s).
Proof.
  intros [_ [_ [_ [Hnl [Hnul _]]]]]. apply Forall_forall. intros c Hc.
  split; intros ->; auto.
Qed.

(** Reading the lines written for a list of records: each record is
    decoded from its own line. *)
Lemma read_students_loop_written (arr : list Student) :
  forall fuel,
    Forall line_ok arr ->
    (length (concat (map write_student_to_file arr)) <= fuel)%nat ->
    read_students_loop fuel (concat (map write_student_to_file arr))
    = flat_map (fun s => match decoded s with Some s' => [s'] | None => [] end) arr.
Proof.
  induction arr as [|s arr IH]; intros fuel Hok Hfuel.
  - destruct fuel; reflexivity.
  - apply Forall_cons_iff in Hok as [Hs Hok].
    destruct (write_student_to_file_body s (line_ok_name_plain Hs))
      as [body [Hw Hplain]].
    assert (Hlen : (length body < 511)%nat).
    { destruct Hs as [_ [_ [_ [_ [_ [_ Hl]]]]]]. rewrite Hw, length_app in Hl.
      cbn [length] in Hl. lia. }
    destruct (plain_not_in Hplain) as [Hnl Hnul0].
    assert (Hnul : ~ In NUL (body ++ [NL])).
    { intros H. apply in_app_or in H as [H|[H|[]]]; [auto|discriminate]. }
    cbn [map concat flat_map] in *. unfold decoded at 1. rewrite Hw in *.
    rewrite length_app in Hfuel. rewrite length_app in Hfuel. cbn [length] in Hfuel.
    destruct fuel as [|fuel]; [lia|]. cbn [read_students_loop].
    rewrite <- app_assoc. cbn [app]. unfold fgets.
    destruct (body ++ NL :: concat (map write_student_to_file arr)) eqn:E;
      [destruct body; discriminate|]. rewrite <- E. clear E.
    change (512 - 1)%nat with 511%nat. rewrite fgets_aux_line by assumption.
    rewrite until_nul_plain by assumption.
    rewrite IH by (auto; lia).
    destruct (parse_line_to_student (body ++ [NL])); reflexivity.
Qed.

Lemma storable_decoded (s : Student) : storable s -> decoded s = Some (calculate_student s).
Proof.
  intros [[Hr [Hn [Hb [_ [_ [Hl _]]]]]] [m1 [m2 [m3 [Hm [H1 [H2 H3]]]]]]].
  unfold decoded. apply decode_encode_fields with (m1 := m1) (m2 := m2) (m3 := m3);
    auto using two_decimal_mark_ok.
Qed.

Lemma read_storable (arr : list Student) (fuel : nat) :
  Forall storable arr ->
  (length (concat (map write_student_to_file arr)) <= fuel)%nat ->
  read_students_loop fuel (concat (map write_student_to_file arr))
  = map calculate_student arr.
Proof.
  intros Hs Hfuel. rewrite read_students_loop_written; auto.
  - clear Hfuel. induction Hs as [|s arr Hs _ IH]; [reflexivity|].
    cbn [flat_map map]. rewrite (storable_decoded Hs), IH. reflexivity.
  - eapply Forall_impl; [|exact Hs]. now intros s [H _].
Qed.

Lemma overwrite_students_data (fs : filesys) (arr : list Student) :
  writable fs STUDENT_FILE = true ->
  exists fs',
    overwrite_students fs arr = (true, fs')
    /\ data fs' STUDENT_FILE = Some (concat (map write_student_to_file arr))
    /\ (forall q, q <> STUDENT_FILE -> data fs' q = data fs q)
    /\ (forall q, writable fs' q = writable fs q).
Proof.
  intros Hw. unfold overwrite_students, fopen_w. rewrite Hw. eexists. split; [reflexivity|].
  assert (Hfold : forall l f,
             fold_left (fun f s => fs_write f STUDENT_FILE (write_student_to_file s)) l f
             = fold_left (fun f t => fs_write f STUDENT_FILE t)
                         (map write_student_to_file l) f).
  { induction l as [|x l IH]; intros f; [reflexivity|]. cbn [fold_left map]. apply IH. }
  rewrite Hfold.
  destruct (@fold_fs_write STUDENT_FILE (map write_student_to_file arr)
              (fs_put fs STUDENT_FILE []) [] (fs_put_same fs STUDENT_FILE []))
    as [Hd [Ho Hwr]].
  split; [exact Hd|]. split.
  - intros q Hq. rewrite Ho by assumption. now apply fs_put_other.
  - intros q. now rewrite Hwr.
Qed.

(** X7.  Writing a list of storable records with [overwrite_students] and
    reading the file with [read_all_students] gives the records back, in
    their order, with their derived fields computed; after writing no
    record at all the reader returns NULL.  No other file changes. *)
Theorem overwrite_then_read (fs : filesys) (arr : list Student) :
  writable fs STUDENT_FILE = true ->
  Forall storable arr ->
  fst (overwrite_students fs arr) = true
  /\ read_all_students (snd (overwrite_students fs arr))
     = match arr with
       | [] => None
       | _ => Some (map calculate_student arr)
       end
  /\ forall q, q <> STUDENT_FILE ->
       data (snd (overwrite_students fs arr)) q = data fs q.
Proof.
  intros Hw Hs. destruct (overwrite_students_data fs arr Hw) as [fs' [E [Hd [Ho _]]]].
  rewrite E. cbn [fst snd]. split; [reflexivity|]. split; [|exact Ho].
  unfold read_all_students, fopen_r. rewrite Hd, read_storable by auto.
  destruct arr; reflexivity.
Qed.

Lemma two_decimal_of_Z (k : Z) :
  (0 <= k <= 100)%Z -> F32.of_Z k = F32.of_centi (100 * k) -> two_decimal_mark (F32.of_Z k).
Proof. intros Hk E. exists (100 * k)%Z. split; [lia|exact E]. Qed.

Lemma sample_storable : Forall storable sample_snapshot.
Proof.
  repeat constructor; try discriminate;
    try (unfold is_int, INT_MIN, INT_MAX; cbn; lia);
    try (intros H; vm_compute in H; intuition discriminate);
    try (apply Nat.ltb_lt; vm_compute; reflexivity).
  - exists (F32.of_Z 40), (F32.of_Z 40), (F32.of_Z 40).
    split; [reflexivity|].
    repeat split; apply two_decimal_of_Z; try lia; vm_compute; reflexivity.
  - exists (F32.of_Z 70), (F32.of_Z 70), (F32.of_Z 70).
    split; [reflexivity|].
    repeat split; apply two_decimal_of_Z; try lia; vm_compute; reflexivity.
  - exists (F32.of_Z 70), (F32.of_Z 70), (F32.of_Z 70).
    split; [reflexivity|].
    repeat split; apply two_decimal_of_Z; try lia; vm_compute; reflexivity.
Defined.

Lemma overwrite_then_read_witness :
  fst (overwrite_students empty_fs sample_snapshot) = true
  /\ read_all_students (snd (overwrite_students empty_fs sample_snapshot))
     = Some (map calculate_student sample_snapshot)
  /\ forall q, q <> STUDENT_FILE ->
       data (snd (overwrite_students empty_fs sample_snapshot)) q = data empty_fs q.
Proof. exact (@overwrite_then_read empty_fs sample_snapshot eq_refl sample_storable). Defined.

Lemma concat_write_snoc (arr : list Student) (s : Student) :
  concat (map write_student_to_file arr) ++ write_student_to_file s
  = concat (map write_student_to_file (arr ++ [s])).
Proof. rewrite map_app, concat_app. cbn [map concat]. now rewrite app_nil_r. Qed.

Lemma append_student_data (fs : filesys) (arr : list Student) (s : Student) :
  holds_students fs arr -> writable fs STUDENT_FILE = true ->
  exists fs',
    append_student fs s = (true, fs')
    /\ holds_students fs' (arr ++ [s])
    /\ (forall q, q <> STUDENT_FILE -> data fs' q = data fs q)
    /\ (forall q, writable fs' q = writable fs q).
Proof.
  intros Hh Hw. unfold append_student, fopen_a. rewrite Hw.
  eexists. split; [reflexivity|].
  destruct Hh as [Hd|[Hd ->]]; rewrite Hd; unfold fs_write.
  - rewrite Hd. split; [|split].
    + left. rewrite fs_put_same. now rewrite concat_write_snoc.
    + intros q Hq. now apply fs_put_other.
    + reflexivity.
  - rewrite fs_put_same. split; [|split].
    + left. rewrite fs_put_same. cbn [app map concat]. now rewrite app_nil_r.
    + intros q Hq. rewrite !fs_put_other by assumption. reflexivity.
    + reflexivity.
Qed.

(** X8.  Appending a storable record with [append_student] to a file of
    storable records, or to no file yet, makes [read_all_students] return
    the former records followed by the new one.  No other file changes. *)
Theorem append_then_read (fs : filesys) (arr : list Student) (s : Student) :
  holds_students fs arr -> Forall storable arr -> storable s ->
  writable fs STUDENT_FILE = true ->
  fst (append_student fs s) = true
  /\ read_all_students (snd (append_student fs s))
     = Some (map calculate_student (arr ++ [s]))
  /\ forall q, q <> STUDENT_FILE -> data (snd (append_student fs s)) q = data fs q.
Proof.
  intros Hh Harr Hs Hw.
  destruct (append_student_data s Hh Hw) as [fs' [E [Hh' [Ho _]]]].
  rewrite E. cbn [fst snd]. split; [reflexivity|]. split; [|exact Ho].
  destruct Hh' as [Hd|[_ Hnil]]; [|destruct arr; discriminate].
  unfold read_all_students, fopen_r. rewrite Hd, read_storable.
  - destruct arr; reflexivity.
  - apply Forall_app. auto.
  - lia.
Qed.

Lemma append_then_read_witness :
  fst (append_student (store_of tied_pair true) (uniform 1 (lit "Ann") 40)) = true
  /\ read_all_students (snd (append_student (store_of tied_pair true)
                               (uniform 1 (lit "Ann") 40)))
     = Some (map calculate_student (tied_pair ++ [uniform 1 (lit "Ann") 40]))
  /\ forall q, q <> STUDENT_FILE ->
       data (snd (append_student (store_of tied_pair true) (uniform 1 (lit "Ann") 40))) q
       = data (store_of tied_pair true) q.
Proof.
  apply (@append_then_read (store_of tied_pair true) tied_pair (uniform 1 (lit "Ann") 40)).
  - left. reflexivity.
  - exact (Forall_inv_tail sample_storable).
  - exact (Forall_inv sample_storable).
  - reflexivity.
Defined.

Lemma line_ok_decoded_roll (s : Student) :
  line_ok s -> exists s', decoded s = Some s' /\ roll s' = roll s /\ name s' = name s.
Proof.
  intros [Hr [Hn [Hb [_ [_ [Hl _]]]]]].
  destruct (parse_written_line s Hr Hn Hb) as [ms [_ E]].
  eexists. split; [exact E|]. cbn [calculate_student roll name]. split; [reflexivity|].
  apply firstn_all2. unfold MAX_NAME in *. lia.
Qed.

Lemma existsb_decoded (arr : list Student) (r : Z) :
  Forall line_ok arr ->
  existsb (fun s => (roll s =? r)%Z)
    (flat_map (fun s => match decoded s with Some s' => [s'] | None => [] end) arr)
  = existsb (fun s => (roll s =? r)%Z) arr.
Proof.
  induction 1 as [|s arr Hs _ IH]; [reflexivity|].
  cbn [flat_map existsb]. destruct (line_ok_decoded_roll Hs) as [s' [E [Hr _]]].
  rewrite E. cbn [app existsb]. now rewrite Hr, IH.
Qed.

Lemma roll_exists_rolls (fs : filesys) (arr : list Student) (r : Z) :
  holds_students fs arr -> Forall line_ok arr ->
  roll_exists fs r = existsb (fun s => (roll s =? r)%Z) arr.
Proof.
  intros Hh Hok. unfold roll_exists, fopen_r.
  destruct Hh as [Hd|[Hd ->]]; rewrite Hd; [|reflexivity].
  rewrite read_students_loop_written by auto. now apply existsb_decoded.
Qed.

(** X9.  [roll_exists] on a file that holds the lines of [arr] tells whether
    some record of [arr] has the roll; without a file it tells no. *)
Theorem roll_exists_spec (fs : filesys) (arr : list Student) (r : Z) :
  holds_students fs arr -> Forall line_ok arr ->
  roll_exists fs r = existsb (fun s => (roll s =? r)%Z) arr.
Proof.
  intros Hh Hok. unfold roll_exists, fopen_r.
  destruct Hh as [Hd|[Hd ->]]; rewrite Hd; [|reflexivity].
  rewrite read_students_loop_written by auto. now apply existsb_decoded.
Qed.

Lemma sample_line_ok : Forall line_ok sample_snapshot.
Proof. eapply Forall_impl; [|exact sample_storable]. now intros s [H _]. Defined.

Lemma roll_exists_spec_witness :
  roll_exists (store_of sample_snapshot true) 3
  = existsb (fun s => (roll s =? 3)%Z) sample_snapshot.
Proof.
  apply (@roll_exists_spec (store_of sample_snapshot true) sample_snapshot 3).
  - left. reflexivity.
  - exact sample_line_ok.
Defined.

(** ** Frames: the files a feature may change *)

Lemma touches_refl (ps : list path) (st : state) : touches ps st st.
Proof. repeat split. Qed.

Lemma touches_trans (ps : list path) (a b c : state) :
  touches ps a b -> touches ps b c -> touches ps a c.
Proof.
  intros [U1 [R1 [D1 W1]]] [U2 [R2 [D2 W2]]].
  split; [congruence|]. split; [congruence|]. split.
  - intros q Hq. now rewrite D2, D1.
  - intros q. now rewrite W2, W1.
Qed.

Lemma touches_weaken (ps ps' : list path) (a b : state) :
  incl ps ps' -> touches ps a b -> touches ps' a b.
Proof.
  intros Hi [U [R [D W]]]. split; [exact U|]. split; [exact R|]. split; [|exact W].
  intros q Hq. apply D. intros H. apply Hq. now apply Hi.
Qed.

Lemma touches_step (ps : list path) (a b c : state) :
  touches ps a b -> touches [] b c -> touches ps a c.
Proof.
  intros H1 H2. eapply touches_trans; [exact H1|].
  eapply touches_weaken; [|exact H2]. intros q [].
Qed.

Lemma touches_printf (st : state) (t : cstr) : touches [] st (printf st t).
Proof. repeat split. Qed.

Lemma touches_set_stdin (st : state) (s : cstr) : touches [] st (set_stdin st s).
Proof. repeat split. Qed.

Lemma touches_clear_input_line (st : state) : touches [] st (clear_input_line st).
Proof. repeat split. Qed.

Lemma touches_pause_and_wait (st : state) : touches [] st (pause_and_wait st).
Proof. repeat split. Qed.

Lemma touches_show_banner (st : state) : touches [] st (show_banner st).
Proof. unfold show_banner. cbn [printf currentUser]. destruct (currentUser st); repeat split. Qed.

Lemma touches_scanf_d (st st' : state) (r : option Z) :
  scanf_d st = (r, st') -> touches [] st st'.
Proof.
  unfold scanf_d. destruct (skip_space (stdin st)) as [|c s].
  - intros H. injection H as _ <-. apply touches_set_stdin.
  - destruct (take_sign (c :: s)) as [neg s2].
    destruct (span_digits s2 0 0) as [[v n] rest].
    destruct n; intros H; injection H as _ <-; apply touches_set_stdin.
Qed.

Lemma touches_scanf_f (st st' : state) (r : option f32) :
  scanf_f st = (r, st') -> touches [] st st'.
Proof.
  unfold scanf_f. destruct (strtof (stdin st)) as [[v rest]|];
    intros H; injection H as _ <-; apply touches_set_stdin.
Qed.

Lemma touches_scanf_s (st st' : state) (w : nat) (r : option cstr) :
  scanf_s st w = (r, st') -> touches [] st st'.
Proof.
  unfold scanf_s. destruct (scan_s w (stdin st)) as [[t rest]|];
    intros H; injection H as _ <-; apply touches_set_stdin.
Qed.

Lemma touches_safe_gets (st st' : state) (n : nat) (t : cstr) :
  safe_gets st n = (t, st') -> touches [] st st'.
Proof.
  unfold safe_gets. destruct (fgets n (stdin st)) as [[buf rest]|];
    intros H; injection H as _ <-; [apply touches_set_stdin|apply touches_refl].
Qed.

Lemma touches_get_password (st st' : state) (n : nat) (t : cstr) :
  get_password st n = (t, st') -> touches [] st st'.
Proof.
  unfold get_password. destruct (safe_gets st n) as [out st1] eqn:E.
  intros H. injection H as _ <-. pose proof (touches_safe_gets _ _ E) as H1.
  destruct (tty st); [|exact H1].
  eapply touches_trans; [exact H1|apply touches_printf].
Qed.

Lemma touches_yesno (st st' : state) (p : cstr) (b : bool) :
  yesno st p = (b, st') -> touches [] st st'.
Proof.
  unfold yesno. destruct (fgets 8 (stdin (printf st (p ++ lit " (y/n): ")))) as [[buf rest]|];
    intros H; injection H as _ <-; repeat split.
Qed.

Lemma touches_getchar (st st' : state) (c : ascii) :
  getchar st = (c, st') -> touches [] st st'.
Proof.
  unfold getchar. destruct (stdin st); intros H; injection H as _ <-; repeat split.
Qed.

Lemma touches_set_files (ps : list path) (st : state) (fs : filesys) :
  (forall q, ~ In q ps -> data fs q = data (files st) q) ->
  (forall q, writable fs q = writable (files st) q) ->
  touches ps st (set_files st fs).
Proof. intros D W. repeat split; auto. Qed.

(** Backward steps on the state reached, chosen by its syntactic form. *)
Ltac touch :=
  repeat match goal with
    | |- touches _ ?a ?a => apply touches_refl
    | H : touches ?ps ?a ?b |- touches ?ps ?a ?b => exact H
    | |- touches _ _ (printf _ _) => eapply touches_step; [|apply touches_printf]
    | |- touches _ _ (set_stdin _ _) => eapply touches_step; [|apply touches_set_stdin]
    | |- touches _ _ (clear_input_line _) =>
        eapply touches_step; [|apply touches_clear_input_line]
    | |- touches _ _ (pause_and_wait _) =>
        eapply touches_step; [|apply touches_pause_and_wait]
    | |- touches _ _ (show_banner _) => eapply touches_step; [|apply touches_show_banner]
    | |- touches _ _ (clear_screen ?s) => change (clear_screen s) with s
    | E : scanf_d _ = (_, ?c) |- touches _ _ ?c =>
        eapply touches_step; [|eapply touches_scanf_d; exact E]
    | E : scanf_f _ = (_, ?c) |- touches _ _ ?c =>
        eapply touches_step; [|eapply touches_scanf_f; exact E]
    | E : scanf_s _ _ = (_, ?c) |- touches _ _ ?c =>
        eapply touches_step; [|eapply touches_scanf_s; exact E]
    | E : safe_gets _ _ = (_, ?c) |- touches _ _ ?c =>
        eapply touches_step; [|eapply touches_safe_gets; exact E]
    | E : get_password _ _ = (_, ?c) |- touches _ _ ?c =>
        eapply touches_step; [|eapply touches_get_password; exact E]
    | E : yesno _ _ = (_, ?c) |- touches _ _ ?c =>
        eapply touches_step; [|eapply touches_yesno; exact E]
    | E : getchar _ = (_, ?c) |- touches _ _ ?c =>
        eapply touches_step; [|eapply touches_getchar; exact E]
    end.

Lemma touches_fold_printf (A : Type) (f : A -> cstr) (l : list A) :
  forall st, touches [] st (fold_left (fun st x => printf st (f x)) l st).
Proof.
  induction l as [|x l IH]; intros st; cbn [fold_left]; [apply touches_refl|].
  eapply touches_trans; [apply touches_printf|apply IH].
Qed.

Lemma touches_print_students_header (st : state) :
  touches [] st (print_students_header st).
Proof.
  unfold print_students_header.
  eapply touches_step; [|apply touches_printf].
  eapply touches_step; [|apply touches_printf].
  eapply touches_step; [|apply touches_fold_printf].
  apply touches_printf.
Qed.

Lemma touches_display_students_table (st : state) (arr : list Student) :
  touches [] st (snd (display_students_table st arr)).
Proof.
  unfold display_students_table. destruct arr as [|s arr]; cbn [snd].
  - apply touches_printf.
  - eapply touches_trans; [apply touches_print_students_header|].
    apply touches_fold_printf.
Qed.





Ltac touch_split :=
  repeat (match goal with
          | |- touches _ _ (match ?e with _ => _ end) => destruct e eqn:?
          end; cbv beta iota).


Lemma touches_view_my_record (st : state) : touches [] st (view_my_record st).
Proof.
  unfold view_my_record. touch_split;
    repeat match goal with
      | |- touches _ _ (snd (display_students_table _ _)) =>
          eapply touches_step; [|apply touches_display_students_table]
      | _ => progress touch
      end.
Qed.

(** *** Files written by the store functions *)

Lemma not_in_one (p q : path) : ~ In q [p] -> q <> p.
Proof. intros H E. apply H. now left. Qed.


Lemma fs_write_frame (fs : filesys) (p : path) (text : cstr) :
  (forall q, q <> p -> data (fs_write fs p text) q = data fs q)
  /\ (forall q, writable (fs_write fs p text) q = writable fs q).
Proof.
  split.
  - intros q Hq. rewrite fs_write_data.
    destruct (path_eqb q p) eqn:E; [|reflexivity].
    apply path_eqb_eq in E. contradiction.
  - intros q. now rewrite fs_write_writable.
Qed.



Lemma rewrite_credentials_frame (fs fs' : filesys) (lines : list cstr) (ok : bool) :
  rewrite_credentials fs lines = (ok, fs') ->
  (forall q, q <> CREDENTIAL_FILE -> data fs' q = data fs q)
  /\ (forall q, writable fs' q = writable fs q).
Proof.
  destruct (writable fs CREDENTIAL_FILE) eqn:Hw.
  - destruct (rewrite_credentials_ok fs lines Hw) as [fs1 [E [_ [Ho Hwr]]]].
    rewrite E. intros H. injection H as _ <-. auto.
  - rewrite rewrite_credentials_denied by assumption. intros H. injection H as _ <-. auto.
Qed.

Lemma reset_password_frame_any (fs fs' : filesys) (user newpass : cstr) (ok : bool) :
  reset_password fs user newpass = Some (ok, fs') ->
  (forall q, q <> CREDENTIAL_FILE -> data fs' q = data fs q)
  /\ (forall q, writable fs' q = writable fs q).
Proof.
  unfold reset_password. destruct (fopen_r fs CREDENTIAL_FILE) as [c|].
  - destruct (reset_loop (length c) c user newpass 0) as [[lines found]|]; [|discriminate].
    destruct found.
    + intros H. injection H as H. now apply rewrite_credentials_frame in H.
    + intros H. injection H as _ <-. auto.
  - intros H. injection H as _ <-. auto.
Qed.

Lemma remove_credential_frame_any (fs fs' : filesys) (user : cstr) (ok : bool) :
  remove_credential fs user = Some (ok, fs') ->
  (forall q, q <> CREDENTIAL_FILE -> data fs' q = data fs q)
  /\ (forall q, writable fs' q = writable fs q).
Proof.
  unfold remove_credential. destruct (fopen_r fs CREDENTIAL_FILE) as [c|].
  - destruct (remove_loop (length c) c user 0) as [[lines found]|]; [|discriminate].
    destruct found.
    + intros H. injection H as H. now apply rewrite_credentials_frame in H.
    + intros H. injection H as _ <-. auto.
  - intros H. injection H as _ <-. auto.
Qed.

Lemma add_credential_frame (fs fs' : filesys) (user pass role : cstr) (ok : bool) :
  add_credential fs user pass role = (ok, fs') ->
  (forall q, q <> CREDENTIAL_FILE -> data fs' q = data fs q)
  /\ (forall q, writable fs' q = writable fs q).
Proof.
  unfold add_credential, fopen_a. destruct (writable fs CREDENTIAL_FILE).
  - intros H. injection H as _ <-.
    destruct (fs_write_frame
                (match data fs CREDENTIAL_FILE with
                 | Some _ => fs
                 | None => fs_put fs CREDENTIAL_FILE []
                 end) CREDENTIAL_FILE (cred_line user pass role)) as [Hd Hw].
    split.
    + intros q Hq. rewrite Hd by assumption.
      destruct (data fs CREDENTIAL_FILE); [reflexivity|now apply fs_put_other].
    + intros q. rewrite Hw. now destruct (data fs CREDENTIAL_FILE).
  - intros H. injection H as _ <-. auto.
Qed.

(** A state whose files were replaced by files that differ in [p] only. *)
Lemma touches_one (p : path) (st : state) (fs : filesys) :
  (forall q, q <> p -> data fs q = data (files st) q)
  /\ (forall q, writable fs q = writable (files st) q) ->
  touches [p] st (set_files st fs).
Proof.
  intros [D W]. apply touches_set_files; [|exact W].
  intros q Hq. apply D. now apply not_in_one.
Qed.

(** *** The features that write files *)
















Lemma touches_feature_manage_credentials (st st' : state) :
  feature_manage_credentials st = Some st' ->
  touches [CREDENTIAL_FILE] st st'
  /\ (role_is st ADMIN = false -> touches [] st st').
Proof.
  unfold feature_manage_credentials. destruct (role_is st ADMIN); cbn [negb].
  - intros E. split; [|discriminate]. cbv zeta in E.
    destruct (scanf_d _) as [[ch|] st1] eqn:Ed; [|injection E as <-; touch].
    destruct (ch =? 1)%Z.
    { destruct (safe_gets _ _) as [user st2] eqn:E1.
      destruct (get_password _ _) as [pw st3] eqn:E2.
      destruct (safe_gets (printf st3 _) _) as [role st4] eqn:E3.
      destruct (add_credential _ _ _ _) as [ok fs] eqn:Ea.
      apply add_credential_frame in Ea. injection E as <-.
      eapply touches_step; [|apply touches_printf].
      eapply touches_trans; [|now apply touches_one]. touch. }
    destruct (ch =? 2)%Z.
    { destruct (safe_gets _ _) as [user st2] eqn:E1.
      destruct (get_password _ _) as [pw st3] eqn:E2.
      destruct (reset_password _ _ _) as [[ok fs]|] eqn:Ea; [|discriminate].
      apply reset_password_frame_any in Ea. injection E as <-.
      eapply touches_step; [|apply touches_printf].
      eapply touches_trans; [|now apply touches_one]. touch. }
    destruct (ch =? 3)%Z.
    { destruct (safe_gets _ _) as [user st2] eqn:E1.
      destruct (remove_credential _ _) as [[ok fs]|] eqn:Ea; [|discriminate].
      apply remove_credential_frame_any in Ea. injection E as <-.
      eapply touches_step; [|apply touches_printf].
      eapply touches_trans; [|now apply touches_one]. touch. }
    injection E as <-. touch.
  - intros E. injection E as <-. split; intros; touch.
Qed.


Lemma touches_menu_choice (st st' : state) (menu : cstr) (ch : Z) :
  menu_choice st menu = (ch, st') -> touches [] st st'.
Proof.
  unfold menu_choice. cbv zeta. destruct (scanf_d _) as [[c|] st1] eqn:Ed;
    intros H; injection H as _ <-; touch.
Qed.

(** ** Sessions *)

Lemma touches_student_menu_pass (st : state) :
  match student_menu_pass st with
  | inl st' | inr st' => touches [] st st'
  end.
Proof.
  unfold student_menu_pass. destruct (menu_choice st student_menu_text) as [ch st1] eqn:E.
  pose proof (touches_menu_choice _ _ E) as H.
  destruct (ch =? 1)%Z.
  - eapply touches_step; [|apply touches_pause_and_wait].
    eapply touches_step; [|apply touches_view_my_record]. exact H.
  - destruct (ch =? 2)%Z; touch.
Qed.

Lemma touches_student_menu (fuel : nat) :
  forall st,
    match student_menu fuel st with
    | Returned st' => touches [] st st'
    | OutOfFuel => True
    | Undefined => False
    end.
Proof.
  induction fuel as [|fuel IH]; intros st; cbn [student_menu]; [exact I|].
  pose proof (touches_student_menu_pass st) as Hp.
  destruct (student_menu_pass st) as [st1|st1]; [exact Hp|].
  specialize (IH st1). destruct (student_menu fuel st1); auto.
  eapply touches_trans; eauto.
Qed.










(** X11.  A student session changes no file: when it logs out every file holds
    what it held and can be opened for writing as before. *)
Theorem student_session_changes_nothing (fuel : nat) (st : state) :
  match student_menu fuel st with
  | Returned st' =>
      forall q, data (files st') q = data (files st) q
                /\ writable (files st') q = writable (files st) q
  | OutOfFuel => True
  | Undefined => False
  end.
Proof.
  pose proof (touches_student_menu fuel st) as H.
  destruct (student_menu fuel st) as [st'| |]; auto.
  destruct H as [_ [_ [D W]]]. intros q. split; [|apply W].
  apply D. intros [].
Qed.



(** ** End of input, and login *)

Lemma stdin_show_banner (st : state) : stdin (show_banner st) = stdin st.
Proof.
  destruct st as [fs i o u r c t]. unfold show_banner, printf.
  cbn [files stdin stdout currentUser currentRole clock tty]. now destruct u.
Qed.

Lemma menu_choice_eof (st : state) (menu : cstr) :
  stdin st = [] ->
  exists st', menu_choice st menu = ((-1)%Z, st') /\ stdin st' = [].
Proof.
  intros H. unfold menu_choice, scanf_d. cbv zeta.
  assert (E : stdin (printf (show_banner (clear_screen st)) menu) = []).
  { cbn [printf stdin]. now rewrite stdin_show_banner. }
  rewrite E. cbn [skip_space]. eexists. split; reflexivity.
Qed.

Lemma guest_menu_eof (fuel : nat) :
  forall st, stdin st = [] -> guest_menu fuel st = OutOfFuel.
Proof.
  induction fuel as [|fuel IH]; intros st H; cbn [guest_menu]; [reflexivity|].
  unfold guest_menu_pass. destruct (menu_choice_eof st guest_menu_text H) as [st1 [E H1]].
  rewrite E. cbn [Z.eqb]. apply IH. cbn [pause_and_wait printf set_stdin stdin].
  now rewrite H1.
Qed.

Lemma principal_menu_eof (fuel : nat) :
  forall st, stdin st = [] -> principal_menu fuel st = OutOfFuel.
Proof.
  induction fuel as [|fuel IH]; intros st H; cbn [principal_menu]; [reflexivity|].
  unfold principal_menu_pass.
  destruct (menu_choice_eof st principal_menu_text H) as [st1 [E H1]].
  rewrite E. cbn [Z.eqb]. apply IH. cbn [pause_and_wait printf set_stdin stdin].
  now rewrite H1.
Qed.

Lemma student_menu_eof (fuel : nat) :
  forall st, stdin st = [] -> student_menu fuel st = OutOfFuel.
Proof.
  induction fuel as [|fuel IH]; intros st H; cbn [student_menu]; [reflexivity|].
  unfold student_menu_pass.
  destruct (menu_choice_eof st student_menu_text H) as [st1 [E H1]].
  rewrite E. cbn [Z.eqb]. apply IH. cbn [pause_and_wait printf set_stdin stdin].
  now rewrite H1.
Qed.

Lemma staff_menu_eof
    (qsort : (Student -> Student -> Z) -> list Student -> list Student) (fuel : nat) :
  forall st, stdin st = [] -> staff_menu qsort fuel st = OutOfFuel.
Proof.
  induction fuel as [|fuel IH]; intros st H; cbn [staff_menu]; [reflexivity|].
  destruct (menu_choice_eof st staff_menu_text H) as [st1 [E H1]].
  rewrite E. cbn [Z.eqb]. apply IH. cbn [pause_and_wait printf set_stdin stdin].
  now rewrite H1.
Qed.

Lemma admin_menu_eof
    (qsort : (Student -> Student -> Z) -> list Student -> list Student) (fuel : nat) :
  forall st, stdin st = [] -> admin_menu qsort fuel st = OutOfFuel.
Proof.
  induction fuel as [|fuel IH]; intros st H; cbn [admin_menu]; [reflexivity|].
  destruct (menu_choice_eof st admin_menu_text H) as [st1 [E H1]].
  rewrite E. cbn [Z.eqb]. apply IH. cbn [pause_and_wait printf set_stdin stdin].
  now rewrite H1.
Qed.

Lemma login_loop_eof (fuel : nat) :
  forall st, stdin st = [] -> login_loop fuel 0 st = OutOfFuel.
Proof.
  induction fuel as [|fuel IH]; intros st H; cbn [login_loop]; [reflexivity|].
  cbn [Z.ltb Z.compare]. cbv zeta. unfold scanf_s.
  assert (E : stdin (printf (show_banner (clear_screen st)) (lit "Username: ")) = []).
  { cbn [printf stdin]. now rewrite stdin_show_banner. }
  rewrite E. cbn [scan_s skip_space]. apply IH. reflexivity.
Qed.

(** X13.  At the end of its input the program never stops: the login loop
    starts over without counting an attempt, and every menu takes the
    failed read for an invalid choice and shows itself again. *)
Theorem end_of_input_never_returns
    (qsort : (Student -> Student -> Z) -> list Student -> list Student)
    (fuel : nat) (st : state) :
  stdin st = [] ->
  login_system fuel st = OutOfFuel
  /\ main_menu_dispatch qsort fuel st = OutOfFuel.
Proof.
  intros H. split; [now apply login_loop_eof|].
  unfold main_menu_dispatch.
  destruct (role_is st ADMIN); [now apply admin_menu_eof|].
  destruct (role_is st STAFF); [now apply staff_menu_eof|].
  destruct (role_is st PRINCIPAL); [now apply principal_menu_eof|].
  destruct (role_is st STUDENT); [now apply student_menu_eof|].
  now apply guest_menu_eof.
Qed.

Lemma end_of_input_never_returns_witness :
  login_system 100 (exhausted_session GUEST) = OutOfFuel
  /\ main_menu_dispatch (fun _ arr => arr) 100 (exhausted_session GUEST) = OutOfFuel.
Proof.
  exact (@end_of_input_never_returns (fun _ arr => arr) 100 (exhausted_session GUEST) eq_refl).
Defined.

Lemma files_show_banner (st : state) : files (show_banner st) = files st.
Proof.
  destruct st as [fs i o u r c t]. unfold show_banner, printf.
  cbn [files stdin stdout currentUser currentRole clock tty]. now destruct u.
Qed.

Lemma files_scanf_s (st st' : state) (w : nat) (r : option cstr) :
  scanf_s st w = (r, st') -> files st' = files st.
Proof.
  unfold scanf_s. destruct (scan_s w (stdin st)) as [[t rest]|];
    intros H; injection H as _ <-; reflexivity.
Qed.

Lemma files_get_password (st st' : state) (n : nat) (t : cstr) :
  get_password st n = (t, st') -> files st' = files st.
Proof.
  unfold get_password, safe_gets. destruct (fgets n (stdin st)) as [[buf rest]|];
    intros H; injection H as _ <-; destruct (tty st); reflexivity.
Qed.

(** X14.  [login_system] returns 1 only for a user name and a password that
    [check_credentials] accepts on the credential file: the session then
    carries that user name and the role of the matching row, cut to the
    sizes of [currentUser] and [currentRole].  It changes no file. *)
Theorem login_needs_credentials (fuel : nat) (st st' : state) (ok : bool) :
  login_system fuel st = Returned (ok, st') ->
  files st' = files st
  /\ (ok = true ->
      exists user pw role,
        check_credentials (files st) user pw = Some role
        /\ currentUser st' = firstn (MAX_USER - 1) user
        /\ currentRole st' = firstn (MAX_ROLE - 1) role).
Proof.
  unfold login_system. generalize 0%Z as attempts. revert st ok st'.
  induction fuel as [|fuel IH]; intros st ok st' attempts E; cbn [login_loop] in E;
    [discriminate|].
  destruct (attempts <? 3)%Z.
  - cbv zeta in E.
    destruct (scanf_s _ 127) as [[user|] st1] eqn:Es.
    + apply files_scanf_s in Es. cbn [printf files] in Es.
      rewrite files_show_banner in Es. unfold clear_screen in Es.
      destruct (get_password _ 128) as [pw st2] eqn:Ep.
      apply files_get_password in Ep. cbn [printf clear_input_line set_stdin files] in Ep.
      rewrite Es in Ep.
      destruct (check_credentials (files st2) user pw) as [rolebuf|] eqn:Ec.
      * injection E as <- <-. cbn [printf set_session files currentUser currentRole].
        split; [exact Ep|]. intros _. exists user, pw, rolebuf.
        rewrite <- Ep. auto.
      * apply IH in E as [Hf Hok]. cbn [pause_and_wait printf set_stdin files] in Hf, Hok.
        rewrite Ep in Hf, Hok. auto.
    + apply files_scanf_s in Es. cbn [printf files] in Es.
      rewrite files_show_banner in Es. unfold clear_screen in Es.
      apply IH in E as [Hf Hok]. cbn [clear_input_line set_stdin files] in Hf, Hok.
      rewrite Es in Hf, Hok. auto.
  - injection E as <- <-. split; [reflexivity|discriminate].
Qed.

Lemma login_needs_credentials_witness :
  exists st',
    login_system 1 login_session = Returned (true, st')
    /\ files st' = files login_session
    /\ (true = true ->
        exists user pw role,
          check_credentials (files login_session) user pw = Some role
          /\ currentUser st' = firstn (MAX_USER - 1) user
          /\ currentRole st' = firstn (MAX_ROLE - 1) role).
Proof.
  eexists. split; [vm_compute; reflexivity|].
  apply (@login_needs_credentials 1 login_session). vm_compute. reflexivity.
Defined.

(** ** Authentication after changes of the credential store *)

Lemma check_loop_rows (username password : cstr) :
  forall fuel stream,
    check_loop fuel stream username password
    = role_of (cred_rows fuel stream) username password.
Proof.
  induction fuel as [|fuel IH]; intros stream; cbn [check_loop cred_rows]; [reflexivity|].
  destruct (fscanf_row stream) as [[[[user pass] role] rest]|]; [|reflexivity].
  unfold role_of. cbn [find]. unfold matches at 1. cbn [row_user row_pass fst snd].
  destruct (cstr_eqb user username && cstr_eqb pass password); [reflexivity|].
  apply IH.
Qed.

Lemma check_credentials_rows (fs : filesys) (username password : cstr) :
  check_credentials fs username password = role_of (file_rows fs) username password.
Proof.
  unfold check_credentials, file_rows. destruct (fopen_r fs CREDENTIAL_FILE); [|reflexivity].
  apply check_loop_rows.
Qed.

Lemma cred_store_rows (fs : filesys) (rows : list cred_row) :
  cred_store fs rows -> file_rows fs = rows.
Proof. intros [Hh [Hwf _]]. now apply file_holds_rows. Qed.

(** X15.  On a credential file of well-formed rows, [check_credentials] accepts
    a user name and a password exactly when some row holds both, and
    gives the role of the first such row, cut to [MAX_ROLE - 1] bytes;
    without a file it accepts nothing. *)
Theorem check_credentials_first_match (fs : filesys) (rows : list cred_row)
    (username password : cstr) :
  file_holds fs rows -> Forall row_wf rows ->
  check_credentials fs username password
  = option_map (fun row => firstn (MAX_ROLE - 1) (row_role row))
               (find (fun row => cstr_eqb (row_user row) username
                                 && cstr_eqb (row_pass row) password) rows).
Proof.
  intros Hh Hwf. rewrite check_credentials_rows, (file_holds_rows Hh Hwf). reflexivity.
Qed.

Lemma boot_store : cred_store (boot_fs true) (file_rows (boot_fs true)).
Proof.
  rewrite default_rows. split; [|split; [|split]].
  - left. cbn [boot_fs data]. now rewrite default_credentials_render.
  - apply forallb_Forall with (f := row_wfb); [exact row_wfb_ok|]. vm_compute. reflexivity.
  - apply forallb_Forall with (f := row_fitsb); [exact row_fitsb_ok|]. vm_compute. reflexivity.
  - apply Nat.leb_le. vm_compute. reflexivity.
Defined.

Lemma check_credentials_first_match_witness :
  check_credentials (boot_fs true) (lit "staff") (lit "staff")
  = option_map (fun row => firstn (MAX_ROLE - 1) (row_role row))
               (find (fun row => cstr_eqb (row_user row) (lit "staff")
                                 && cstr_eqb (row_pass row) (lit "staff"))
                     (file_rows (boot_fs true))).
Proof.
  apply (@check_credentials_first_match (boot_fs true) (file_rows (boot_fs true))).
  - exact (proj1 boot_store).
  - exact (proj1 (proj2 boot_store)).
Defined.

Lemma find_none_has_user (user pass : cstr) (rows : list cred_row) :
  has_user user rows = false -> find (matches user pass) rows = None.
Proof.
  unfold has_user. induction rows as [|row rows IH]; [reflexivity|].
  cbn [existsb find]. intros H. apply orb_false_iff in H as [H1 H2].
  unfold matches at 1. rewrite H1. cbn [andb]. now apply IH.
Qed.

Lemma find_snoc (A : Type) (f : A -> bool) (l : list A) (x : A) :
  find f (l ++ [x])
  = match find f l with
    | Some y => Some y
    | None => if f x then Some x else None
    end.
Proof.
  induction l as [|a l IH]; cbn [app find]; [reflexivity|].
  destruct (f a); [reflexivity|exact IH].
Qed.

Lemma add_credential_holds (fs : filesys) (rows : list cred_row) (u p r : cstr) :
  file_holds fs rows -> writable fs CREDENTIAL_FILE = true ->
  fst (add_credential fs u p r) = true
  /\ file_holds (snd (add_credential fs u p r)) (rows ++ [(u, p, r)]).
Proof.
  intros Hh Hw. unfold add_credential, fopen_a. rewrite Hw. cbn [fst snd].
  split; [reflexivity|]. left. rewrite render_app.
  assert (Hone : render [(u, p, r)] = cred_line u p r)
    by (unfold render; cbn [map concat]; apply app_nil_r).
  rewrite Hone.
  destruct Hh as [Hd|[Hd ->]]; rewrite Hd; unfold fs_write.
  - now rewrite Hd, fs_put_same.
  - now rewrite fs_put_same, fs_put_same.
Qed.

Lemma role_of_snoc (rows : list cred_row) (x : cred_row) (u p : cstr) :
  role_of (rows ++ [x]) u p
  = match role_of rows u p with
    | Some role => Some role
    | None => if matches u p x then Some (firstn (MAX_ROLE - 1) (row_role x)) else None
    end.
Proof.
  unfold role_of. rewrite find_snoc.
  destruct (find (matches u p) rows); [reflexivity|].
  destruct (matches u p x); reflexivity.
Qed.

Lemma role_of_no_user (rows : list cred_row) (u p : cstr) :
  has_user u rows = false -> role_of rows u p = None.
Proof. intros H. unfold role_of. now rewrite find_none_has_user. Qed.

(** X16.  After [add_credential] has added a well-formed row for a user name
    that had none, [check_credentials] accepts that user with that
    password and gives the role of the row; every login accepted before
    is accepted as before. *)
Theorem add_then_authenticate (fs : filesys) (rows : list cred_row) (u p r : cstr) :
  file_holds fs rows -> Forall row_wf rows -> row_wf (u, p, r) ->
  has_user u rows = false ->
  writable fs CREDENTIAL_FILE = true ->
  let fs' := snd (add_credential fs u p r) in
  check_credentials fs' u p = Some (firstn (MAX_ROLE - 1) r)
  /\ forall u' p' role,
       check_credentials fs u' p' = Some role ->
       check_credentials fs' u' p' = Some role.
Proof.
  intros Hh Hwf Hrow Hnew Hw. cbv zeta.
  destruct (add_credential_holds u p r Hh Hw) as [_ Hh'].
  assert (Hwf' : Forall row_wf (rows ++ [(u, p, r)])) by (apply Forall_app; auto).
  split.
  - rewrite check_credentials_rows, (file_holds_rows Hh' Hwf'), role_of_snoc.
    rewrite role_of_no_user by assumption.
    unfold matches. cbn [row_user row_pass row_role fst snd].
    now rewrite !cstr_eqb_refl.
  - intros u' p' role.
    rewrite !check_credentials_rows, (file_holds_rows Hh Hwf), (file_holds_rows Hh' Hwf').
    rewrite role_of_snoc. now intros ->.
Qed.

Lemma add_then_authenticate_witness :
  let fs' := snd (add_credential (boot_fs true) (lit "alice") (lit "pw") (lit "STAFF")) in
  check_credentials fs' (lit "alice") (lit "pw") = Some (firstn (MAX_ROLE - 1) (lit "STAFF"))
  /\ forall u' p' role,
       check_credentials (boot_fs true) u' p' = Some role ->
       check_credentials fs' u' p' = Some role.
Proof.
  apply (@add_then_authenticate (boot_fs true) (file_rows (boot_fs true))).
  - exact (proj1 boot_store).
  - exact (proj1 (proj2 boot_store)).
  - apply row_wfb_ok. vm_compute. reflexivity.
  - vm_compute. reflexivity.
  - reflexivity.
Defined.

Lemma set_pass_hit (u np : cstr) (row : cred_row) :
  cstr_eqb (row_user row) u = true ->
  set_pass u np row = (row_user row, np, row_role row).
Proof. intros H. unfold set_pass. now rewrite H. Qed.

Lemma set_pass_miss (u np : cstr) (row : cred_row) :
  cstr_eqb (row_user row) u = false -> set_pass u np row = row.
Proof. intros H. unfold set_pass. now rewrite H. Qed.

Lemma role_of_set_pass_other (rows : list cred_row) (u np u' p' : cstr) :
  u' <> u -> role_of (map (set_pass u np) rows) u' p' = role_of rows u' p'.
Proof.
  intros Hne. unfold role_of. induction rows as [|row rows IH]; [reflexivity|].
  cbn [map find]. destruct (cstr_eqb (row_user row) u) eqn:Eu.
  - rewrite (@set_pass_hit u np row Eu). unfold matches at 1 3.
    cbn [row_user row_pass fst snd]. apply cstr_eqb_eq in Eu.
    destruct (cstr_eqb (row_user row) u') eqn:Eu'.
    + apply cstr_eqb_eq in Eu'. congruence.
    + cbn [andb]. exact IH.
  - rewrite (@set_pass_miss u np row Eu).
    destruct (matches u' p' row); [reflexivity|exact IH].
Qed.

Lemma role_of_set_pass_user (rows : list cred_row) (u np p' : cstr) :
  role_of (map (set_pass u np) rows) u p'
  = if cstr_eqb np p'
    then option_map (fun row => firstn (MAX_ROLE - 1) (row_role row))
                    (find (fun row => cstr_eqb (row_user row) u) rows)
    else None.
Proof.
  unfold role_of. induction rows as [|row rows IH].
  - cbn [map find option_map]. now destruct (cstr_eqb np p').
  - cbn [map find]. destruct (cstr_eqb (row_user row) u) eqn:Eu.
    + rewrite (@set_pass_hit u np row Eu). unfold matches at 1.
      cbn [row_user row_pass row_role fst snd]. rewrite Eu. cbn [andb].
      destruct (cstr_eqb np p'); [reflexivity|exact IH].
    + rewrite (@set_pass_miss u np row Eu). unfold matches at 1. rewrite Eu.
      cbn [andb]. exact IH.
Qed.

(** X17.  After a successful [reset_password] for a user, [check_credentials]
    accepts that user with the new password, with the role of the user's
    first row, and with no other password; for every other user name it
    answers as before. *)
Theorem reset_then_authenticate (fs : filesys) (rows : list cred_row) (u np : cstr) :
  cred_store fs rows -> token 127 np ->
  Forall row_fits (map (set_pass u np) rows) ->
  has_user u rows = true -> writable fs CREDENTIAL_FILE = true ->
  exists fs',
    reset_password fs u np = Some (true, fs')
    /\ check_credentials fs' u np
       = option_map (fun row => firstn (MAX_ROLE - 1) (row_role row))
                    (find (fun row => cstr_eqb (row_user row) u) rows)
    /\ (forall p, p <> np -> check_credentials fs' u p = None)
    /\ (forall u' p', u' <> u ->
          check_credentials fs' u' p' = check_credentials fs u' p').
Proof.
  intros Hs Hnp Hfit Hu Hw. pose proof (cred_store_rows Hs) as Hrows.
  destruct Hs as [Hh [Hwf [_ Hlen]]].
  destruct (@reset_password_data fs u np) as [ok [fs' [E [Hok Hd]]]];
    rewrite ?Hrows; auto.
  rewrite Hrows, Hu, Hw in Hok. cbn [andb] in Hok. subst ok. rewrite Hrows in Hd.
  assert (Hwf' : Forall row_wf (map (set_pass u np) rows)).
  { rewrite Forall_forall in *. intros x Hin.
    apply in_map_iff in Hin as [row [<- Hin]]. apply set_pass_wf; auto. }
  assert (Hrows' : file_rows fs' = map (set_pass u np) rows)
    by (apply file_rows_render; assumption).
  exists fs'. split; [exact E|]. split; [|split].
  - rewrite check_credentials_rows, Hrows', role_of_set_pass_user.
    now rewrite cstr_eqb_refl.
  - intros p Hp. rewrite check_credentials_rows, Hrows', role_of_set_pass_user.
    destruct (cstr_eqb np p) eqn:Ep; [|reflexivity].
    apply cstr_eqb_eq in Ep. congruence.
  - intros u' p' Hne. rewrite !check_credentials_rows, Hrows', Hrows.
    now apply role_of_set_pass_other.
Qed.

Lemma reset_then_authenticate_witness :
  exists fs',
    reset_password (boot_fs true) (lit "staff") (lit "s3cret") = Some (true, fs')
    /\ check_credentials fs' (lit "staff") (lit "s3cret")
       = option_map (fun row => firstn (MAX_ROLE - 1) (row_role row))
                    (find (fun row => cstr_eqb (row_user row) (lit "staff"))
                          (file_rows (boot_fs true)))
    /\ (forall p, p <> lit "s3cret" -> check_credentials fs' (lit "staff") p = None)
    /\ (forall u' p', u' <> lit "staff" ->
          check_credentials fs' u' p' = check_credentials (boot_fs true) u' p').
Proof.
  apply (@reset_then_authenticate (boot_fs true) (file_rows (boot_fs true))).
  - exact boot_store.
  - apply tokenb_ok. vm_compute. reflexivity.
  - apply forallb_Forall with (f := row_fitsb); [exact row_fitsb_ok|]. vm_compute. reflexivity.
  - vm_compute. reflexivity.
  - reflexivity.
Defined.

Lemma role_of_filter_other (rows : list cred_row) (u u' p' : cstr) :
  u' <> u -> role_of (filter (keeps u) rows) u' p' = role_of rows u' p'.
Proof.
  intros Hne. unfold role_of. induction rows as [|row rows IH]; [reflexivity|].
  cbn [filter find]. unfold keeps at 1, matches at 2.
  destruct (cstr_eqb (row_user row) u) eqn:Eu; cbn [negb].
  - apply cstr_eqb_eq in Eu.
    destruct (cstr_eqb (row_user row) u') eqn:Eu'.
    + apply cstr_eqb_eq in Eu'. congruence.
    + cbn [andb]. exact IH.
  - cbn [find]. unfold matches at 1.
    destruct (cstr_eqb (row_user row) u' && cstr_eqb (row_pass row) p'); [reflexivity|].
    exact IH.
Qed.

Lemma role_of_filter_user (rows : list cred_row) (u p' : cstr) :
  role_of (filter (keeps u) rows) u p' = None.
Proof.
  unfold role_of. induction rows as [|row rows IH]; [reflexivity|].
  cbn [filter]. unfold keeps at 1.
  destruct (cstr_eqb (row_user row) u) eqn:Eu; cbn [negb]; [exact IH|].
  cbn [find]. unfold matches at 1. rewrite Eu. cbn [andb]. exact IH.
Qed.

(** X18.  After a successful [remove_credential] for a user, [check_credentials]
    accepts that user with no password at all; for every other user name
    it answers as before. *)
Theorem remove_then_authenticate (fs : filesys) (rows : list cred_row) (u : cstr) :
  cred_store fs rows ->
  has_user u rows = true -> writable fs CREDENTIAL_FILE = true ->
  exists fs',
    remove_credential fs u = Some (true, fs')
    /\ (forall p, check_credentials fs' u p = None)
    /\ (forall u' p', u' <> u ->
          check_credentials fs' u' p' = check_credentials fs u' p').
Proof.
  intros Hs Hu Hw. pose proof (cred_store_rows Hs) as Hrows.
  destruct Hs as [Hh [Hwf [Hfit Hlen]]].
  destruct (@remove_credential_data fs u) as [ok [fs' [E [Hok Hd]]]];
    rewrite ?Hrows.
  { pose proof (filter_length_le (keeps u) rows). lia. }
  { now apply Forall_filter. }
  rewrite Hrows, Hu, Hw in Hok. cbn [andb] in Hok. subst ok. rewrite Hrows in Hd.
  assert (Hrows' : file_rows fs' = filter (keeps u) rows)
    by (apply file_rows_render; [assumption|now apply Forall_filter]).
  exists fs'. split; [exact E|]. split.
  - intros p. rewrite check_credentials_rows, Hrows'. apply role_of_filter_user.
  - intros u' p' Hne. rewrite !check_credentials_rows, Hrows', Hrows.
    now apply role_of_filter_other.
Qed.

Lemma remove_then_authenticate_witness :
  exists fs',
    remove_credential (boot_fs true) (lit "guest") = Some (true, fs')
    /\ (forall p, check_credentials fs' (lit "guest") p = None)
    /\ (forall u' p', u' <> lit "guest" ->
          check_credentials fs' u' p' = check_credentials (boot_fs true) u' p').
Proof.
  apply (@remove_then_authenticate (boot_fs true) (file_rows (boot_fs true))).
  - exact boot_store.
  - vm_compute. reflexivity.
  - reflexivity.
Defined.

(** ** Backup and restore *)

Lemma fgets_aux_split (k : nat) :
  forall s l rest, fgets_aux k s = (l, rest) -> l ++ rest = s.
Proof.
  induction k as [|k IH]; intros s l rest E.
  - destruct s; cbn [fgets_aux] in E; injection E as <- <-; reflexivity.
  - destruct s as [|c s]; cbn [fgets_aux] in E; [injection E as <- <-; reflexivity|].
    destruct (Ascii.eqb c NL); [injection E as <- <-; reflexivity|].
    destruct (fgets_aux k s) as [l' rest'] eqn:E'. injection E as <- <-.
    cbn [app]. f_equal. now apply IH.
Qed.

Lemma fgets_aux_nonempty (k : nat) (c : ascii) (s l rest : cstr) :
  fgets_aux (S k) (c :: s) = (l, rest) -> l <> [].
Proof.
  cbn [fgets_aux]. destruct (Ascii.eqb c NL); [intros E; injection E as <- _; discriminate|].
  destruct (fgets_aux k s). intros E. injection E as <- _. discriminate.
Qed.

Lemma until_nul_length (l : cstr) : (length (until_nul l) <= length l)%nat.
Proof.
  induction l as [|c l IH]; cbn [until_nul length]; [lia|].
  destruct (Ascii.eqb c NUL); cbn [length]; lia.
Qed.

Lemma until_nul_shorter (l : cstr) : In NUL l -> (length (until_nul l) < length l)%nat.
Proof.
  induction l as [|c l IH]; intros H; [destruct H|]. cbn [until_nul length].
  destruct (Ascii.eqb c NUL) eqn:E; cbn [length]; [lia|].
  destruct H as [->|H]; [now rewrite Ascii.eqb_refl in E|]. apply IH in H. lia.
Qed.

Lemma copy_loop_spec (fuel : nat) :
  forall stream,
    (length stream <= fuel)%nat ->
    (~ In NUL stream -> copy_loop fuel stream = stream)
    /\ (length (copy_loop fuel stream) <= length stream)%nat
    /\ (In NUL stream -> (length (copy_loop fuel stream) < length stream)%nat).
Proof.
  induction fuel as [|fuel IH]; intros stream Hlen.
  - destruct stream; [|cbn in Hlen; lia]. cbn. intuition.
  - destruct stream as [|c s]; [cbn; intuition|].
    cbn [copy_loop fgets]. change (1024 - 1)%nat with 1023%nat.
    destruct (fgets_aux 1023 (c :: s)) as [buf rest] eqn:E.
    pose proof (fgets_aux_split _ _ E) as Hsplit.
    pose proof (fgets_aux_nonempty _ _ _ E) as Hne.
    assert (Hrest : (length rest <= fuel)%nat).
    { apply (f_equal (@length ascii)) in Hsplit. rewrite length_app in Hsplit.
      cbn [length] in Hsplit, Hlen. destruct buf; [congruence|cbn [length] in Hsplit; lia]. }
    destruct (IH rest Hrest) as [Hid [Hle Hlt]].
    rewrite <- Hsplit, !length_app. pose proof (until_nul_length buf) as Hb.
    split; [|split].
    + intros Hn. rewrite until_nul_plain, Hid; auto.
      * intros H. apply Hn. apply in_or_app. now right.
      * intros H. apply Hn. apply in_or_app. now left.
    + lia.
    + intros H. apply in_app_or in H as [H|H].
      * apply until_nul_shorter in H. lia.
      * apply Hlt in H. lia.
Qed.

Lemma copy_text_id (c : cstr) : no_nul c -> copy_text c = c.
Proof.
  unfold copy_text, no_nul. intros H.
  now apply (proj1 (@copy_loop_spec (length c) c (le_n _))).
Qed.

(** X19.  The copy loop of [feature_backup] and [feature_restore] reproduces a
    text that holds no NUL byte, and loses bytes of any text that holds
    one (as the XOR toggle can produce): each chunk is written with
    [fputs], which stops at the first NUL. *)
Theorem copy_text_faithful (c : cstr) :
  (no_nul c -> copy_text c = c)
  /\ (In NUL c -> (length (copy_text c) < length c)%nat).
Proof.
  unfold copy_text, no_nul. destruct (@copy_loop_spec (length c) c (le_n _)) as [H1 [_ H3]].
  auto.
Qed.

Lemma feature_backup_data (st : state) (c : cstr) :
  data (files st) STUDENT_FILE = Some c ->
  writable (files st) BACKUP_FILE = true ->
  feature_backup st
  = printf (set_files st (fs_write (fs_put (files st) BACKUP_FILE []) BACKUP_FILE
                            (copy_text c)))
           (lit "Backup saved to " ++ path_name BACKUP_FILE ++ [NL]).
Proof.
  intros Hd Hw. unfold feature_backup, fopen_r, fopen_w. now rewrite Hd, Hw.
Qed.

Lemma feature_backup_file (st : state) (c : cstr) :
  data (files st) STUDENT_FILE = Some c -> no_nul c ->
  writable (files st) BACKUP_FILE = true ->
  data (files (feature_backup st)) BACKUP_FILE = Some c.
Proof.
  intros Hd Hn Hw. rewrite (feature_backup_data st Hd Hw).
  cbn [printf set_files files].
  rewrite fs_write_data, path_eqb_refl, fs_put_same. cbn [option_map app].
  now rewrite (copy_text_id Hn).
Qed.

(** X20.  [feature_backup] on a student file without NUL bytes leaves a backup
    file with the same content, whatever the backup held before, and
    changes no other file. *)
Theorem feature_backup_copies (st : state) (c : cstr) :
  data (files st) STUDENT_FILE = Some c -> no_nul c ->
  writable (files st) BACKUP_FILE = true ->
  data (files (feature_backup st)) BACKUP_FILE = Some c
  /\ (forall q, q <> BACKUP_FILE ->
        data (files (feature_backup st)) q = data (files st) q)
  /\ stdout (feature_backup st) = stdout st ++ line "Backup saved to students_backup.txt".
Proof.
  intros Hd Hn Hw. rewrite (feature_backup_data st Hd Hw).
  cbn [printf set_files files stdout]. split; [|split].
  - rewrite fs_write_data, path_eqb_refl, fs_put_same. cbn [option_map app].
    now rewrite (copy_text_id Hn).
  - intros q Hq. rewrite (proj1 (fs_write_frame _ BACKUP_FILE _)) by assumption.
    now apply fs_put_other.
  - reflexivity.
Qed.

Lemma feature_backup_copies_witness :
  data (files (feature_backup sample_session)) BACKUP_FILE
  = Some (concat (map write_student_to_file sample_snapshot))
  /\ (forall q, q <> BACKUP_FILE ->
        data (files (feature_backup sample_session)) q = data (files sample_session) q)
  /\ stdout (feature_backup sample_session)
     = stdout sample_session ++ line "Backup saved to students_backup.txt".
Proof.
  apply (@feature_backup_copies sample_session
           (concat (map write_student_to_file sample_snapshot))).
  - reflexivity.
  - intros H. vm_compute in H. intuition discriminate.
  - reflexivity.
Defined.

Lemma fgets_aux_cons (k : nat) (c : ascii) (r : cstr) :
  fgets_aux (S k) (c :: r)
  = if Ascii.eqb c NL then ([c], r)
    else let '(l, rest) := fgets_aux k r in (c :: l, rest).
Proof. reflexivity. Qed.

Lemma yesno_yes (st : state) (prompt rest : cstr) (c : ascii) :
  stdin st = c :: rest ->
  fst (yesno st prompt) = Ascii.eqb c (chr 121) || Ascii.eqb c (chr 89).
Proof.
  intros H. unfold yesno. cbn [printf stdin]. rewrite H. unfold fgets.
  change (8 - 1)%nat with 7%nat. rewrite fgets_aux_cons.
  destruct (Ascii.eqb c NL); [reflexivity|].
  destruct (fgets_aux 6 rest). reflexivity.
Qed.

(** X21.  Restore after backup: once [feature_backup] has saved a student file
    without NUL bytes, [feature_restore], confirmed with [y] in any later
    state that still holds that backup, makes the student file what it
    was at the backup. *)
Theorem restore_after_backup (st st2 : state) (c rest : cstr) :
  data (files st) STUDENT_FILE = Some c -> no_nul c ->
  writable (files st) BACKUP_FILE = true ->
  data (files st2) BACKUP_FILE = data (files (feature_backup st)) BACKUP_FILE ->
  writable (files st2) STUDENT_FILE = true ->
  stdin st2 = chr 121 :: rest ->
  data (files (feature_restore st2)) STUDENT_FILE = Some c
  /\ forall q, q <> STUDENT_FILE ->
       data (files (feature_restore st2)) q = data (files st2) q.
Proof.
  intros Hd Hn Hw Hb Hw2 Hin.
  rewrite (feature_backup_file st Hd Hn Hw) in Hb.
  pose proof (@yesno_yes st2
                (lit "Restore from backup? This will overwrite current records.")
                rest (chr 121) Hin) as Hy.
  unfold feature_restore.
  destruct (yesno st2 _) as [yes st3] eqn:Ey.
  pose proof (touches_yesno _ _ Ey) as [_ [_ [D W]]].
  cbn [fst] in Hy. subst yes.
  change (Ascii.eqb (chr 121) (chr 121) || Ascii.eqb (chr 121) (chr 89)) with true.
  cbv iota. unfold fopen_r, fopen_w. rewrite (D BACKUP_FILE), Hb by (intros []).
  rewrite W, Hw2. cbn [printf set_files files]. split.
  - rewrite fs_write_data, path_eqb_refl, fs_put_same. cbn [option_map app].
    now rewrite (copy_text_id Hn).
  - intros q Hq. rewrite (proj1 (fs_write_frame _ STUDENT_FILE _)) by assumption.
    rewrite fs_put_other by assumption. apply D. intros [].
Qed.

Lemma restore_after_backup_witness :
  let st2 := set_stdin (feature_backup sample_session) (line "y") in
  data (files (feature_restore st2)) STUDENT_FILE
  = Some (concat (map write_student_to_file sample_snapshot))
  /\ forall q, q <> STUDENT_FILE ->
       data (files (feature_restore st2)) q = data (files st2) q.
Proof.
  apply (@restore_after_backup sample_session
           (set_stdin (feature_backup sample_session) (line "y"))
           (concat (map write_student_to_file sample_snapshot)) [NL]).
  - reflexivity.
  - intros H. vm_compute in H. intuition discriminate.
  - reflexivity.
  - reflexivity.
  - reflexivity.
  - reflexivity.
Defined.

(** ** Typed rolls and the features that edit the student file *)

Lemma span_digits_app (c : ascii) (rest : cstr) :
  isdigit c = false ->
  forall ds acc n,
    Forall (fun d => isdigit d = true) ds ->
    span_digits (ds ++ c :: rest) acc n
    = (fold_left dec_step ds acc, (n + length ds)%nat, c :: rest).
Proof.
  intros Hc. induction ds as [|d ds IH]; intros acc n H; cbn [app span_digits fold_left length].
  - rewrite Hc. now rewrite Nat.add_0_r.
  - apply Forall_cons_iff in H as [Hd Hds]. rewrite Hd, IH by assumption.
    now rewrite Nat.add_succ_r.
Qed.

(** [scanf("%d")] on a typed [int] followed by the end of the line. *)
Lemma scanf_d_typed (st : state) (r : Z) (rest : cstr) :
  is_int r -> stdin st = fmt_d r ++ NL :: rest ->
  scanf_d st = (Some r, set_stdin st (NL :: rest)).
Proof.
  intros Hr Hin. unfold scanf_d. rewrite Hin. unfold fmt_d.
  assert (Hnl : isdigit NL = false) by reflexivity.
  unfold is_int, INT_MIN, INT_MAX in Hr.
  destruct (r <? 0)%Z eqn:E.
  - apply Z.ltb_lt in E.
    assert (Hpos : (0 <= - r)%Z) by lia.
    change (lit "-" ++ fmt_u (- r)) with (chr 45 :: fmt_u (- r)). cbn [app].
    change (skip_space (chr 45 :: fmt_u (- r) ++ NL :: rest))
      with (chr 45 :: fmt_u (- r) ++ NL :: rest).
    cbv iota beta.
    change (take_sign (chr 45 :: fmt_u (- r) ++ NL :: rest))
      with (true, fmt_u (- r) ++ NL :: rest).
    cbv iota beta.
    rewrite (@span_digits_app NL rest Hnl) by now apply fmt_u_digits.
    rewrite fmt_u_value by assumption.
    destruct (fmt_u (- r)) as [|c ds] eqn:Ef;
      [exfalso; revert Ef; apply dec_digits_nonempty|].
    cbn [length Nat.add]. f_equal. f_equal.
    rewrite to_int_id; unfold is_int, INT_MIN, INT_MAX, LONG_MIN, LONG_MAX; lia.
  - apply Z.ltb_ge in E.
    pose proof (fmt_u_digits E) as Hd.
    destruct (fmt_u r) as [|c ds] eqn:Ef;
      [exfalso; revert Ef; apply dec_digits_nonempty|].
    pose proof Hd as Hd'. apply Forall_cons_iff in Hd' as [Hc _].
    cbn [app]. destruct (@isdigit_head c (ds ++ NL :: rest) Hc) as [-> ->].
    change (c :: ds ++ NL :: rest) with ((c :: ds) ++ NL :: rest).
    rewrite (@span_digits_app NL rest Hnl) by assumption.
    rewrite <- Ef, fmt_u_value by assumption. rewrite Ef.
    cbn [length Nat.add]. f_equal. f_equal.
    rewrite to_int_id; unfold is_int, INT_MIN, INT_MAX, LONG_MIN, LONG_MAX; lia.
Qed.

Lemma delete_first_split (r : Z) (l1 l2 : list Student) (s : Student) :
  roll s = r -> Forall (fun x => roll x <> r) l1 ->
  delete_first r (l1 ++ s :: l2) = Some (l1 ++ l2).
Proof.
  intros Hs. induction 1 as [|x l1 Hx _ IH]; cbn [app delete_first].
  - rewrite Hs, Z.eqb_refl. reflexivity.
  - apply Z.eqb_neq in Hx. rewrite Hx, IH. reflexivity.
Qed.

Lemma delete_first_none (r : Z) (arr : list Student) :
  Forall (fun x => roll x <> r) arr -> delete_first r arr = None.
Proof.
  induction 1 as [|x l Hx _ IH]; cbn [delete_first]; [reflexivity|].
  apply Z.eqb_neq in Hx. now rewrite Hx, IH.
Qed.

Lemma Forall_roll_calculated (r : Z) (l : list Student) :
  Forall (fun x => roll x <> r) l ->
  Forall (fun x => roll x <> r) (map calculate_student l).
Proof. induction 1; cbn [map]; constructor; auto. Qed.

Lemma write_calculated (l : list Student) :
  map write_student_to_file (map calculate_student l) = map write_student_to_file l.
Proof. rewrite map_map. apply map_ext. reflexivity. Qed.

Lemma read_all_storable (fs : filesys) (arr : list Student) :
  data fs STUDENT_FILE = Some (concat (map write_student_to_file arr)) ->
  Forall storable arr -> arr <> [] ->
  read_all_students fs = Some (map calculate_student arr).
Proof.
  intros Hd Hs Hne. unfold read_all_students, fopen_r.
  rewrite Hd, read_storable by auto. destruct arr; [congruence|reflexivity].
Qed.

(** X22.  [feature_delete_student], in an ADMIN or STAFF session, with a roll
    typed on one line, on a writable file of storable records: when a
    record has the roll, the file is rewritten without the first such
    record, the others as they were and in their order; when none has
    it, the file is left alone and "Roll not found." is printed. *)
Theorem feature_delete_student_effect (st : state) (arr : list Student) (r : Z)
    (rest : cstr) :
  admin_or_staff st = true ->
  is_int r -> stdin st = fmt_d r ++ NL :: rest ->
  data (files st) STUDENT_FILE = Some (concat (map write_student_to_file arr)) ->
  Forall storable arr -> arr <> [] ->
  writable (files st) STUDENT_FILE = true ->
  let st' := feature_delete_student st in
  stdin st' = rest
  /\ (forall l1 s l2,
        arr = l1 ++ s :: l2 -> roll s = r -> Forall (fun x => roll x <> r) l1 ->
        data (files st') STUDENT_FILE
        = Some (concat (map write_student_to_file (l1 ++ l2)))
        /\ stdout st' = stdout st ++ lit "Enter roll to delete: "
                        ++ line "Deleted successfully.")
  /\ (Forall (fun x => roll x <> r) arr ->
      files st' = files st
      /\ stdout st' = stdout st ++ lit "Enter roll to delete: " ++ line "Roll not found.").
Proof.
  intros Hrole Hr Hin Hd Hs Hne Hw. cbv zeta. unfold feature_delete_student.
  rewrite Hrole. cbn [negb].
  rewrite (@scanf_d_typed (printf st (lit "Enter roll to delete: ")) r rest Hr Hin).
  cbn [clear_input_line set_stdin printf stdin files drop_line].
  change (Ascii.eqb NL NL) with true. cbv iota.
  rewrite (read_all_storable _ Hd Hs Hne).
  split; [|split].
  - destruct (delete_first r (map calculate_student arr)); [|reflexivity].
    destruct (overwrite_students (files st) l) as [ok fs]. now destruct ok.
  - intros l1 s l2 Harr Hroll Hl1. subst arr.
    rewrite map_app. cbn [map].
    rewrite (@delete_first_split r _ _ (calculate_student s) Hroll
               (Forall_roll_calculated Hl1)).
    rewrite <- map_app.
    destruct (overwrite_students_data (files st) (map calculate_student (l1 ++ l2)) Hw)
      as [fs' [E [Hd' _]]].
    rewrite E. cbn [printf set_files files stdout].
    cbn [clear_input_line set_stdin printf stdout].
    rewrite Hd', write_calculated, <- app_assoc. auto.
  - intros Hnone. rewrite (delete_first_none (Forall_roll_calculated Hnone)).
    cbn [clear_input_line set_stdin printf files stdout]. rewrite <- app_assoc. auto.
Qed.

Lemma feature_delete_student_effect_witness :
  let st := session (store_of sample_snapshot true) (lit "staff") STAFF (line "2") in
  let st' := feature_delete_student st in
  stdin st' = []
  /\ (forall l1 s l2,
        sample_snapshot = l1 ++ s :: l2 -> roll s = 2%Z ->
        Forall (fun x => roll x <> 2%Z) l1 ->
        data (files st') STUDENT_FILE
        = Some (concat (map write_student_to_file (l1 ++ l2)))
        /\ stdout st' = stdout st ++ lit "Enter roll to delete: "
                        ++ line "Deleted successfully.")
  /\ (Forall (fun x => roll x <> 2%Z) sample_snapshot ->
      files st' = files st
      /\ stdout st' = stdout st ++ lit "Enter roll to delete: " ++ line "Roll not found.").
Proof.
  apply (@feature_delete_student_effect
           (session (store_of sample_snapshot true) (lit "staff") STAFF (line "2"))
           sample_snapshot 2 []).
  - reflexivity.
  - unfold is_int, INT_MIN, INT_MAX. lia.
  - reflexivity.
  - reflexivity.
  - exact sample_storable.
  - discriminate.
  - reflexivity.
Defined.

(** X23.  [feature_add_student] refuses a roll that a record of the file has:
    the file is left as it is. *)
Theorem feature_add_student_rejects_duplicate (st : state) (arr : list Student)
    (r : Z) (rest : cstr) :
  admin_or_staff st = true ->
  is_int r -> stdin st = fmt_d r ++ NL :: rest ->
  holds_students (files st) arr -> Forall line_ok arr ->
  In r (map roll arr) ->
  let st' := feature_add_student st in
  files st' = files st
  /\ stdin st' = rest
  /\ stdout st' = stdout st ++ lit "Enter Roll Number: " ++ line "Roll number already exists!".
Proof.
  intros Hrole Hr Hin Hh Hok Hmem. cbv zeta. unfold feature_add_student.
  rewrite Hrole. cbn [negb].
  rewrite (@scanf_d_typed (printf st (lit "Enter Roll Number: ")) r rest Hr Hin).
  cbn [clear_input_line set_stdin printf stdin files drop_line].
  change (Ascii.eqb NL NL) with true. cbv iota.
  rewrite (roll_exists_rolls r Hh Hok).
  assert (E : existsb (fun s => (roll s =? r)%Z) arr = true).
  { apply existsb_exists. apply in_map_iff in Hmem as [s [Hs Hin']].
    exists s. split; [exact Hin'|]. now apply Z.eqb_eq. }
  rewrite E. cbn [clear_input_line set_stdin printf files stdin stdout].
  rewrite <- app_assoc. auto.
Qed.

Lemma feature_add_student_rejects_duplicate_witness :
  let st := session (store_of sample_snapshot true) (lit "staff") STAFF (line "3") in
  let st' := feature_add_student st in
  files st' = files st
  /\ stdin st' = []
  /\ stdout st' = stdout st ++ lit "Enter Roll Number: " ++ line "Roll number already exists!".
Proof.
  apply (@feature_add_student_rejects_duplicate
           (session (store_of sample_snapshot true) (lit "staff") STAFF (line "3"))
           sample_snapshot 3 []).
  - reflexivity.
  - unfold is_int, INT_MIN, INT_MAX. lia.
  - reflexivity.
  - left. reflexivity.
  - exact sample_line_ok.
  - cbn. auto.
Defined.

Lemma files_scanf_d (st st' : state) (r : option Z) :
  scanf_d st = (r, st') -> files st' = files st.
Proof.
  unfold scanf_d. destruct (skip_space (stdin st)) as [|c s].
  - intros H. now injection H as _ <-.
  - destruct (take_sign (c :: s)) as [neg s2].
    destruct (span_digits s2 0 0) as [[v n] rest].
    destruct n; intros H; now injection H as _ <-.
Qed.

Lemma files_scanf_f (st st' : state) (r : option f32) :
  scanf_f st = (r, st') -> files st' = files st.
Proof.
  unfold scanf_f. destruct (strtof (stdin st)) as [[v rest]|];
    intros H; now injection H as _ <-.
Qed.

Lemma files_safe_gets (st st' : state) (n : nat) (t : cstr) :
  safe_gets st n = (t, st') -> files st' = files st.
Proof.
  unfold safe_gets. destruct (fgets n (stdin st)) as [[buf rest]|];
    intros H; now injection H as _ <-.
Qed.

Lemma fgets_aux_length (k : nat) :
  forall s, (length (fst (fgets_aux k s)) <= k)%nat.
Proof.
  induction k as [|k IH]; intros s.
  - destruct s; cbn; lia.
  - destruct s as [|c s]; cbn [fgets_aux]; [cbn; lia|].
    destruct (Ascii.eqb c NL); [cbn; lia|].
    specialize (IH s). destruct (fgets_aux k s). cbn [fst length] in *. lia.
Qed.

Lemma before_newline_length (s : cstr) : (length (before_newline s) <= length s)%nat.
Proof.
  induction s as [|c s IH]; cbn [before_newline length]; [lia|].
  destruct (Ascii.eqb c NL); cbn [length]; lia.
Qed.

Lemma safe_gets_length (st : state) (n : nat) :
  (length (fst (safe_gets st n)) <= n - 1)%nat.
Proof.
  unfold safe_gets, fgets. destruct (stdin st) as [|c s]; [cbn; lia|].
  pose proof (fgets_aux_length (n - 1) (c :: s)) as H.
  destruct (fgets_aux (n - 1) (c :: s)) as [buf rest]. cbn [fst] in *.
  pose proof (before_newline_length (until_nul buf)).
  pose proof (until_nul_length buf). lia.
Qed.

Lemma read_marks_valid (subjects : list cstr) :
  forall st r st',
    read_marks subjects st = (r, st') ->
    files st' = files st
    /\ forall ms, r = inr ms ->
         length ms = length subjects /\ Forall (fun m => valid_marks m = true) ms.
Proof.
  induction subjects as [|sn rest IH]; intros st r st' E; cbn [read_marks] in E.
  - injection E as <- <-. split; [reflexivity|]. intros ms H. injection H as <-. auto.
  - cbv zeta in E. destruct (scanf_f _) as [[m|] st1] eqn:Ef.
    + apply files_scanf_f in Ef. cbn [printf files] in Ef.
      destruct (valid_marks m) eqn:Ev.
      * destruct (read_marks rest st1) as [[msg|ms'] st2] eqn:Er;
          injection E as <- <-; destruct (IH _ _ _ Er) as [Hf Hms].
        -- split; [congruence|discriminate].
        -- split; [congruence|]. intros ms H. injection H as <-.
           destruct (Hms ms' eq_refl) as [Hl Hv]. cbn [length]. auto.
      * injection E as <- <-. split; [exact Ef|discriminate].
    + apply files_scanf_f in Ef. cbn [printf files] in Ef.
      injection E as <- <-. split; [exact Ef|discriminate].
Qed.

(** X24.  Whatever is typed, [feature_add_student] changes the files in one way
    only: in an ADMIN or STAFF session it appends, with [append_student],
    one record whose roll [roll_exists] did not find, whose name is not
    empty and shorter than [MAX_NAME], and whose three marks are in
    [0,100], with its derived fields computed. *)
Theorem feature_add_student_appends_valid (st : state) :
  files (feature_add_student st) = files st
  \/ exists s,
       admin_or_staff st = true
       /\ roll_exists (files st) (roll s) = false
       /\ name s <> [] /\ (length (name s) < MAX_NAME)%nat
       /\ length (marks s) = SUBJECTS
       /\ Forall (fun m => valid_marks m = true) (marks s)
       /\ files (feature_add_student st)
          = snd (append_student (files st) (calculate_student s)).
Proof.
  unfold feature_add_student. destruct (admin_or_staff st); cbn [negb]; [|left; reflexivity].
  cbv zeta. destruct (scanf_d _) as [[r|] st1] eqn:Ed;
    apply files_scanf_d in Ed; cbn [printf files] in Ed;
    [|left; cbn [printf clear_input_line set_stdin files]; exact Ed].
  cbn [clear_input_line set_stdin files]. rewrite Ed.
  destruct (roll_exists (files st) r) eqn:Er;
    [left; cbn [printf clear_input_line set_stdin files]; exact Ed|].
  pose proof (safe_gets_length
                (printf (clear_input_line st1) (lit "Enter Name: ")) MAX_NAME) as Hlen.
  destruct (safe_gets _ MAX_NAME) as [nm st2] eqn:Eg.
  apply files_safe_gets in Eg. cbn [printf clear_input_line set_stdin files] in Eg.
  cbn [fst] in Hlen.
  destruct (valid_name nm) eqn:Ev; cbn [negb]; [|left; cbn [printf files]; congruence].
  destruct (read_marks subjectNames st2) as [[msg|ms] st3] eqn:Em;
    destruct (read_marks_valid _ _ Em) as [Hf Hms].
  - left. cbn [printf files]. congruence.
  - destruct (Hms ms eq_refl) as [Hl Hv]. right.
    exists {| roll := r; name := nm; marks := ms;
              total := F32.zero; percentage := F32.zero; grade := [] |}.
    cbn [roll name marks clear_input_line set_stdin files].
    assert (Hfs : files st3 = files st) by congruence. rewrite Hfs.
    repeat split; auto.
    + intros ->. discriminate Ev.
    + unfold MAX_NAME in *. lia.
    + destruct (append_student (files st) _) as [ok fs]. now destruct ok.
Qed.

(** ** The XOR toggle, the capacity of the credential functions, and the
    deletion of all records *)

(** X25.  [xor_file] replaces every byte of a file that exists and can be
    opened for update by its XOR with the key, so that the length is
    kept; otherwise it does nothing, silently.  It touches no other file. *)
Theorem xor_file_effect (fs : filesys) (p : path) (key : ascii) :
  (forall c, data fs p = Some c -> writable fs p = true ->
     data (xor_file fs p key) p = Some (map (xor_byte key) c)
     /\ length (map (xor_byte key) c) = length c)
  /\ (data fs p = None \/ writable fs p = false ->
      forall q, data (xor_file fs p key) q = data fs q)
  /\ (forall q, q <> p -> data (xor_file fs p key) q = data fs q)
  /\ (forall q, writable (xor_file fs p key) q = writable fs q).
Proof.
  split; [|split; [|split]].
  - intros c Hd Hw. rewrite xor_file_data, path_eqb_refl, Hw, Hd. cbn [andb option_map].
    split; [reflexivity|apply length_map].
  - intros H q. rewrite xor_file_data.
    destruct (path_eqb q p) eqn:E; [|reflexivity].
    apply path_eqb_eq in E. subst q.
    destruct H as [H|H]; rewrite H; [now destruct (writable fs p)|reflexivity].
  - intros q Hq. rewrite xor_file_data.
    destruct (path_eqb q p) eqn:E; [|reflexivity].
    apply path_eqb_eq in E. contradiction.
  - intros q. apply xor_file_writable.
Qed.

(** X26.  [reset_password] stores a line past the end of its array of 1024
    lines exactly when the credential file holds more than 1024 rows, and
    [remove_credential] exactly when more than 1024 rows remain after the
    removal; in every other case both return. *)
Theorem credential_rewrite_overflow (fs : filesys) (user newpass : cstr) :
  (reset_password fs user newpass = None <-> (CRED_LINES < length (file_rows fs))%nat)
  /\ (remove_credential fs user = None
      <-> (CRED_LINES < length (filter (keeps user) (file_rows fs)))%nat).
Proof.
  unfold reset_password, remove_credential, file_rows.
  destruct (fopen_r fs CREDENTIAL_FILE) as [c|].
  - rewrite reset_loop_rows, remove_loop_rows by lia. cbn [Nat.add]. split.
    + destruct (length (cred_rows (length c) c) <=? CRED_LINES)%nat eqn:E.
      * apply Nat.leb_le in E. destruct (existsb _ _); split; (discriminate || lia).
      * apply Nat.leb_gt in E. split; [intros _; exact E|reflexivity].
    + destruct (length (filter (keeps user) (cred_rows (length c) c)) <=? CRED_LINES)%nat
        eqn:E.
      * apply Nat.leb_le in E. destruct (existsb _ _); split; (discriminate || lia).
      * apply Nat.leb_gt in E. split; [intros _; exact E|reflexivity].
  - cbn [filter length]. unfold CRED_LINES. split; split; (discriminate || lia).
Qed.

Lemma read_all_students_empty (fs : filesys) :
  data fs STUDENT_FILE = Some [] -> read_all_students fs = None.
Proof. intros H. unfold read_all_students, fopen_r. now rewrite H. Qed.

(** X27.  [feature_delete_all] in an ADMIN session: when the first byte typed
    is [y] or [Y] and the student file can be opened for writing, the
    file is left empty, so that [read_all_students] finds no record, and
    no other file changes; after any other answer no file changes. *)
Theorem feature_delete_all_effect (st : state) (c : ascii) (rest : cstr) :
  role_is st ADMIN = true -> stdin st = c :: rest ->
  let st' := feature_delete_all st in
  if says_yes c then
    writable (files st) STUDENT_FILE = true ->
    data (files st') STUDENT_FILE = Some []
    /\ read_all_students (files st') = None
    /\ forall q, q <> STUDENT_FILE -> data (files st') q = data (files st) q
  else forall q, data (files st') q = data (files st) q.
Proof.
  intros Hrole Hin. cbv zeta. unfold feature_delete_all. rewrite Hrole. cbn [negb].
  pose proof (@yesno_yes st (lit "Are you sure you want to DELETE ALL STUDENT RECORDS?")
                rest c Hin) as Hy.
  destruct (yesno st _) as [yes st1] eqn:Ey.
  pose proof (touches_yesno _ _ Ey) as [_ [_ [D W]]].
  cbn [fst] in Hy. subst yes. fold (says_yes c). destruct (says_yes c).
  - intros Hw. unfold fopen_w. rewrite W, Hw. cbn [printf set_files files].
    split; [apply fs_put_same|]. split.
    + apply read_all_students_empty, fs_put_same.
    + intros q Hq. rewrite fs_put_other by assumption. apply D. intros [].
  - intros q. cbn [printf files]. apply D. intros [].
Qed.

Lemma feature_delete_all_effect_witness :
  let st := session (store_of sample_snapshot true) (lit "admin") ADMIN (line "y") in
  let st' := feature_delete_all st in
  if says_yes (chr 121) then
    writable (files st) STUDENT_FILE = true ->
    data (files st') STUDENT_FILE = Some []
    /\ read_all_students (files st') = None
    /\ forall q, q <> STUDENT_FILE -> data (files st') q = data (files st) q
  else forall q, data (files st') q = data (files st) q.
Proof.
  apply (@feature_delete_all_effect
           (session (store_of sample_snapshot true) (lit "admin") ADMIN (line "y"))
           (chr 121) [NL]); reflexivity.
Defined.

Lemma xor_twice_data (fs : filesys) (p : path) (key : ascii) (q : path) :
  data (xor_file (xor_file fs p key) p key) q = data fs q.
Proof.
  rewrite xor_file_data, xor_file_writable, !xor_file_data, path_eqb_refl.
  destruct (path_eqb q p) eqn:Eq; cbn [andb]; [|reflexivity].
  apply path_eqb_eq in Eq. subst q.
  destruct (writable fs p); cbn [andb]; [|reflexivity].
  destruct (data fs p); cbn [option_map]; [|reflexivity].
  now rewrite map_xor_involutive.
Qed.

Lemma feature_toggle_encryption_run (st : state) (key : ascii) (rest : cstr) :
  role_is st ADMIN = true ->
  stdin st = chr 121 :: NL :: key :: NL :: rest ->
  files (feature_toggle_encryption st) = xor_file (files st) STUDENT_FILE key
  /\ stdin (feature_toggle_encryption st) = rest
  /\ currentRole (feature_toggle_encryption st) = currentRole st.
Proof.
  intros Hrole Hin. unfold feature_toggle_encryption. rewrite Hrole. cbn [negb].
  unfold yesno. cbn [printf stdin]. rewrite Hin. unfold fgets.
  change (8 - 1)%nat with 7%nat. rewrite fgets_aux_cons.
  change (Ascii.eqb (chr 121) NL) with false. cbv iota.
  rewrite fgets_aux_cons. change (Ascii.eqb NL NL) with true. cbv iota beta.
  change (Ascii.eqb (chr 121) (chr 121) || Ascii.eqb (chr 121) (chr 89)) with true.
  cbv iota beta zeta. unfold getchar.
  cbn [printf set_stdin stdin clear_input_line drop_line set_files files currentRole].
  change (Ascii.eqb NL NL) with true. cbv iota. auto.
Qed.

(** X28.  The XOR toggle at the level of the feature: in an ADMIN session,
    [feature_toggle_encryption] confirmed with [y] and given a key, then
    run again with the same answers, leaves every file with the content
    it had. *)
Theorem toggle_twice_restores (st : state) (key : ascii) (rest : cstr) :
  role_is st ADMIN = true ->
  stdin st = chr 121 :: NL :: key :: NL :: chr 121 :: NL :: key :: NL :: rest ->
  let st2 := feature_toggle_encryption (feature_toggle_encryption st) in
  (forall q, data (files st2) q = data (files st) q)
  /\ stdin st2 = rest.
Proof.
  intros Hrole Hin. cbv zeta.
  destruct (feature_toggle_encryption_run st Hrole Hin) as [F1 [I1 R1]].
  assert (Hrole1 : role_is (feature_toggle_encryption st) ADMIN = true).
  { unfold role_is in *. now rewrite R1. }
  destruct (feature_toggle_encryption_run _ Hrole1 I1) as [F2 [I2 _]].
  split; [|exact I2].
  intros q. rewrite F2, F1. apply xor_twice_data.
Qed.

Lemma toggle_twice_restores_witness :
  let st := session (store_of sample_snapshot true) (lit "admin") ADMIN
              (line "y" ++ line "k" ++ line "y" ++ line "k") in
  let st2 := feature_toggle_encryption (feature_toggle_encryption st) in
  (forall q, data (files st2) q = data (files st) q)
  /\ stdin st2 = [].
Proof.
  apply (@toggle_twice_restores
           (session (store_of sample_snapshot true) (lit "admin") ADMIN
              (line "y" ++ line "k" ++ line "y" ++ line "k"))
           (chr 107) []); reflexivity.
Defined.

Lemma drop_line_line (l rest : cstr) : ~ In NL l -> drop_line (l ++ NL :: rest) = rest.
Proof.
  induction l as [|c l IH]; intros H; cbn [app drop_line].
  - now rewrite Ascii.eqb_refl.
  - destruct (Ascii.eqb c NL) eqn:E.
    + apply Ascii.eqb_eq in E. subst. exfalso. apply H. now left.
    + apply IH. intros Hin. apply H. now right.
Qed.

(** X29.  A line at a menu that does not start with a number costs two lines:
    [scanf] fails, the rest of the line is discarded, and so is the whole
    next line; the choice is taken as invalid ([-1]). *)
Theorem menu_choice_bad_input (st : state) (menu : cstr) (c : ascii) (l1 l2 rest : cstr) :
  isspace c = false -> isdigit c = false -> c <> chr 45 -> c <> chr 43 ->
  ~ In NL (c :: l1) -> ~ In NL l2 ->
  stdin st = c :: l1 ++ NL :: l2 ++ NL :: rest ->
  exists st',
    menu_choice st menu = ((-1)%Z, st')
    /\ stdin st' = rest
    /\ files st' = files st.
Proof.
  intros Hsp Hd Hm Hp Hn1 Hn2 Hin. unfold menu_choice. cbv zeta. unfold scanf_d.
  assert (E : stdin (printf (show_banner (clear_screen st)) menu)
              = c :: l1 ++ NL :: l2 ++ NL :: rest).
  { cbn [printf stdin]. now rewrite stdin_show_banner. }
  rewrite E. cbn [skip_space]. rewrite Hsp. cbn [take_sign].
  destruct (Ascii.eqb c (chr 45)) eqn:E1; [apply Ascii.eqb_eq in E1; contradiction|].
  destruct (Ascii.eqb c (chr 43)) eqn:E2; [apply Ascii.eqb_eq in E2; contradiction|].
  cbn [span_digits]. rewrite Hd. eexists. split; [reflexivity|].
  cbn [clear_input_line set_stdin stdin files printf].
  change (c :: l1 ++ NL :: l2 ++ NL :: rest) with ((c :: l1) ++ NL :: l2 ++ NL :: rest).
  rewrite (@drop_line_line (c :: l1) _ Hn1), (@drop_line_line l2 rest Hn2).
  split; [reflexivity|]. unfold clear_screen. apply files_show_banner.
Qed.

Lemma menu_choice_bad_input_witness :
  exists st',
    menu_choice (session (boot_fs true) (lit "guest") GUEST
                   (line "x" ++ line "1" ++ line "4")) guest_menu_text
    = ((-1)%Z, st')
    /\ stdin st' = line "4"
    /\ files st' = boot_fs true.
Proof.
  apply (@menu_choice_bad_input
           (session (boot_fs true) (lit "guest") GUEST (line "x" ++ line "1" ++ line "4"))
           guest_menu_text (chr 120) [] (lit "1") (line "4"));
    try reflexivity; try discriminate.
  - intros [H|[]]. discriminate.
  - intros [H|[]]. discriminate.
Defined.


